(** * Insight notes: the remote synchronisation and reconciliation core

    A shallow embedding of the sync managers of the Insight note-taking
    client ([src/sync.js], [src/webdav-sync.js] and the earliest Gist
    manager), with the properties of sharding, shard recombination, note
    merging, the download path, the result contract, the auto-sync
    scheduler, the credentials and the WebDAV configuration, the files of
    an upload, and the note, tag and colour edits of [StorageManager].
    The second document of [src/sync.js], a single-file
    revision between the earliest manager and the sharded one, has the
    download path and the scheduler of the earliest manager and is not
    embedded separately.

    Conventions of the embedding:
    - a JavaScript value that may be [undefined]/[null]/absent is an
      [option]; a number that may be [NaN] is an [option Z] with [None]
      for [NaN];
    - a whole number is a [Z]; what is proved about a value that went
      through [toString], [parseInt] or a product is proved for safe
      integers ([JS.isSafeInteger]), where these are exact;
    - byte sizes are [N]; timestamps compared with [-] and [>] are
      [option Z] ([None] when the property is absent, as it is on every
      note the application itself creates);
    - an [async] method is a state transformer over [World] returning
      either a value or a thrown [Error];
    - objects compared by identity carry their heap address. *)

From Stdlib Require Import String Ascii DecimalString DecimalZ DecimalPos.
From Stdlib Require Import ZArith NArith Bool Lia List Permutation Sorted.
From Stdlib Require OrderedTypeEx DecimalNat DecimalFacts.
Import ListNotations.

Local Open Scope string_scope.
Local Open Scope list_scope.

(* ================================================================== *)
(** * Data model *)
(* ================================================================== *)

(** A note as [InsightApp.createNote] builds it ([id], [content], [tags],
    [createdAt], [updatedAt]).  The sync code reads one more property,
    [timestamp]; the application never sets it, a remote JSON document
    may.  [None] is the absent property. *)
Record Note := mkNote {
  id        : string;
  content   : string;
  tags      : list string;
  createdAt : string;
  updatedAt : string;
  timestamp : option Z
}.

(** A custom tag as [StorageManager.addCustomTag] builds it. *)
Record CustomTag := mkTag {
  tag_id        : string;
  name          : string;
  tag_createdAt : string
}.

(** The tag colour object: tag name to palette index, in insertion order. *)
Definition TagColors := list (string * Z).

(** A heap object: its address and its contents.  [new Set(...)] and
    [===] compare objects by address. *)
Record Obj (A : Type) := mkObj { addr : nat; val : A }.
Arguments mkObj {A} _ _.
Arguments addr {A} _.
Arguments val {A} _.

Record ShardInfo := mkShardInfo { index : nat; total : nat }.

(** One shard file, parsed.  Every property may be missing in a remote
    document.  [T] is the representation of a custom tag: [CustomTag] in
    a serialised document, [Obj CustomTag] once parsed into memory. *)
Record ShardData (T : Type) := mkShardData {
  sd_notes      : option (list Note);
  sd_customTags : option (list T);
  sd_tagColors  : option TagColors;
  sd_syncTime   : option string;
  sd_version    : option string;
  sd_shardInfo  : option ShardInfo
}.
Arguments mkShardData {T} _ _ _ _ _ _.
Arguments sd_notes {T} _.
Arguments sd_customTags {T} _.
Arguments sd_tagColors {T} _.
Arguments sd_syncTime {T} _.
Arguments sd_version {T} _.
Arguments sd_shardInfo {T} _.

(** The snapshot [mergeShards] returns. *)
Record Snapshot (T : Type) := mkSnapshot {
  notes      : list Note;
  customTags : list T;
  tagColors  : TagColors;
  syncTime   : option string;
  version    : string
}.
Arguments mkSnapshot {T} _ _ _ _ _.
Arguments notes {T} _.
Arguments customTags {T} _.
Arguments tagColors {T} _.
Arguments syncTime {T} _.
Arguments version {T} _.

(* ================================================================== *)
(** * JavaScript primitives used by the sync code *)
(* ================================================================== *)

Module JS.

(** [a - b] on numbers that may be [undefined]: [NaN] as soon as one
    operand is not a number. *)
Definition sub (a b : option Z) : option Z :=
  match a, b with
  | Some x, Some y => Some (x - y)%Z
  | _, _ => None
  end.

(** [a > b] on numbers that may be [undefined]: false as soon as one
    operand is not a number. *)
Definition gt (a b : option Z) : bool :=
  match a, b with
  | Some x, Some y => (y <? x)%Z
  | _, _ => false
  end.

(** [Number.MAX_SAFE_INTEGER] and [Number.isSafeInteger] on a whole
    number.  Up to this magnitude every whole number is a number of its
    own: [toString] writes its decimal digits, [parseInt] reads them
    back, and a product that stays safe is exact.  Beyond it numbers are
    rounded, and from [10^21] on [toString] writes the exponent notation
    ([1e+21]). *)
Definition MAX_SAFE_INTEGER : Z := 9007199254740991.
Definition isSafeInteger (z : Z) : bool :=
  (Z.abs z <=? MAX_SAFE_INTEGER)%Z.

(** Truthiness of a string that may be [null]/[undefined]: the empty
    string is falsy. *)
Definition truthy_str (s : option string) : bool :=
  match s with
  | Some EmptyString => false
  | Some _ => true
  | None => false
  end.

(** [a > b] on two strings: lexicographic on code units. *)
Definition str_gt (a b : string) : bool := String.ltb b a.

Definition str_gt_opt (a b : option string) : bool :=
  match a, b with
  | Some x, Some y => str_gt x y
  | _, _ => false
  end.

(** The sign test [Array.prototype.sort] applies to the comparator's
    result [v]: [NaN] counts as [+0]. *)
Definition le0 (v : option Z) : bool :=
  match v with
  | Some z => (z <=? 0)%Z
  | None => true
  end.

Section Sort.
Context {A : Type}.
Variable comparefn : A -> A -> option Z.

(** Stable insertion: [x] goes before the first [y] it does not
    have to follow. *)
Fixpoint insert (x : A) (l : list A) : list A :=
  match l with
  | [] => [x]
  | y :: l' =>
      if le0 (comparefn x y) then x :: y :: l'
      else y :: insert x l'
  end.

(** [[...l].sort(comparefn)], as a stable insertion sort.  With a
    comparator that answers [NaN] on some pairs the order of the
    result is left to the engine; the properties proved below use
    only that the result is a permutation of [l]. *)
Definition sort (l : list A) : list A := fold_right insert [] l.
End Sort.

(** A [Map] keyed by strings: entries in insertion order; [set] on a
    present key keeps its position. *)
Section Map.
Context {V : Type}.

Fixpoint map_get (k : string) (m : list (string * V)) : option V :=
  match m with
  | [] => None
  | (k', v) :: m' => if String.eqb k' k then Some v else map_get k m'
  end.

Fixpoint map_set (k : string) (v : V) (m : list (string * V))
  : list (string * V) :=
  match m with
  | [] => [(k, v)]
  | (k', v') :: m' =>
      if String.eqb k' k then (k', v) :: m'
      else (k', v') :: map_set k v m'
  end.

Definition map_values (m : list (string * V)) : list V := map snd m.
End Map.

(** The property names a plain object, as [JSON.parse] builds it,
    inherits from [Object.prototype]: reading one of them on an object
    that has no property of that name of its own gives the inherited
    member, not [undefined]. *)
Definition objectPrototype : list string :=
  ["constructor"; "__defineGetter__"; "__defineSetter__"; "hasOwnProperty";
   "__lookupGetter__"; "__lookupSetter__"; "isPrototypeOf";
   "propertyIsEnumerable"; "toString"; "valueOf"; "__proto__";
   "toLocaleString"].

Definition inherited (k : string) : bool :=
  existsb (String.eqb k) objectPrototype.

(** A [Set] of strings, as the list of its members. *)
Definition set_has (k : string) (s : list string) : bool :=
  existsb (String.eqb k) s.

End JS.

(* ================================================================== *)
(** * The sharder and the merger of [CloudSyncManager] (src/sync.js) *)
(* ================================================================== *)

(** [this.MAX_SHARD_SIZE = 800 * 1024]. *)
Definition MAX_SHARD_SIZE : N := 800 * 1024.

(** The comparator of both sorts: [(a, b) => b.timestamp - a.timestamp]. *)
Definition byTimestampDesc (a b : Note) : option Z :=
  JS.sub (timestamp b) (timestamp a).

Section Sharder.

(** [new Blob([JSON.stringify(note)]).size]. *)
Variable noteSize : Note -> N.
(** The size of the empty shard document ([baseSize] of the source),
    which depends on the stored tags, colours and the clock. *)
Variable baseSize : N.

(** The variables of the loop of [shardNotes]. *)
Record ShardLoop := mkLoop {
  shards       : list (list Note);
  currentShard : list Note;
  currentSize  : N
}.

Definition shardStep (st : ShardLoop) (note : Note) : ShardLoop :=
  let sz := noteSize note in
  if (MAX_SHARD_SIZE <? currentSize st + sz + baseSize)%N
     && (0 <? List.length (currentShard st))%nat
  then mkLoop (shards st ++ [currentShard st]) [note] sz
  else mkLoop (shards st) (currentShard st ++ [note])
              (currentSize st + sz)%N.

Definition shardLoop (sortedNotes : list Note) (st : ShardLoop)
  : ShardLoop :=
  fold_left shardStep sortedNotes st.

Definition shardNotes (notes : list Note) : list (list Note) :=
  let sortedNotes := JS.sort byTimestampDesc notes in
  let st := shardLoop sortedNotes (mkLoop [] [] 0%N) in
  let shards' :=
    if (0 <? List.length (currentShard st))%nat
    then shards st ++ [currentShard st]
    else shards st in
  if (0 <? List.length shards')%nat then shards' else [[]].

End Sharder.

(** The variables of the first loop of [mergeShards]. *)
Record MergeLoop (T : Type) := mkMerge {
  allNotes       : list Note;
  m_customTags   : list T;
  m_tagColors    : TagColors;
  latestSyncTime : option string
}.
Arguments mkMerge {T} _ _ _ _.
Arguments allNotes {T} _.
Arguments m_customTags {T} _.
Arguments m_tagColors {T} _.
Arguments latestSyncTime {T} _.

Section MergeShards.
Context {T : Type}.

Definition mergeStep (acc : MergeLoop T) (shardData : ShardData T)
  : MergeLoop T :=
  let allNotes' :=
    match sd_notes shardData with
    | Some ns => allNotes acc ++ ns
    | None => allNotes acc
    end in
  let customTags' :=
    match sd_customTags shardData with
    | Some c => c
    | None => m_customTags acc
    end in
  let tagColors' :=
    match sd_tagColors shardData with
    | Some c => c
    | None => m_tagColors acc
    end in
  let latest' :=
    if JS.truthy_str (sd_syncTime shardData) then
      if negb (JS.truthy_str (latestSyncTime acc))
         || JS.str_gt_opt (sd_syncTime shardData) (latestSyncTime acc)
      then sd_syncTime shardData
      else latestSyncTime acc
    else latestSyncTime acc in
  mkMerge allNotes' customTags' tagColors' latest'.

(** The second loop: keep the first note of every id. *)
Definition dedupStep (acc : list Note * list string) (note : Note)
  : list Note * list string :=
  let '(uniqueNotes, seenIds) := acc in
  if negb (JS.set_has (id note) seenIds)
  then (uniqueNotes ++ [note], seenIds ++ [id note])
  else (uniqueNotes, seenIds).

Definition dedup (l : list Note) : list Note :=
  fst (fold_left dedupStep l ([], [])).

Definition mergeShards (shardDataArray : list (ShardData T))
  : Snapshot T :=
  let acc := fold_left mergeStep shardDataArray (mkMerge [] [] [] None) in
  mkSnapshot (dedup (allNotes acc)) (m_customTags acc) (m_tagColors acc)
             (latestSyncTime acc) "1.0".

End MergeShards.

(** [mergeNotes(localNotes, cloudNotes)]. *)
Definition seedStep (notesMap : list (string * Note)) (note : Note) :=
  JS.map_set (id note) note notesMap.

Definition cloudStep (notesMap : list (string * Note)) (note : Note) :=
  match JS.map_get (id note) notesMap with
  | None => JS.map_set (id note) note notesMap
  | Some existing =>
      if JS.gt (timestamp note) (timestamp existing)
      then JS.map_set (id note) note notesMap
      else notesMap
  end.

Definition notesMapOf (localNotes cloudNotes : list Note)
  : list (string * Note) :=
  fold_left cloudStep cloudNotes (fold_left seedStep localNotes []).

Definition mergeNotes (localNotes cloudNotes : list Note) : list Note :=
  JS.sort byTimestampDesc (JS.map_values (notesMapOf localNotes cloudNotes)).

(** [o || []] on an array that may be absent. *)
Definition orEmpty {B : Type} (o : option (list B)) : list B :=
  match o with Some v => v | None => [] end.

(** [s || d] on a string that may be absent or empty. *)
Definition orElse (s : option string) (d : string) : string :=
  match s with
  | Some v => if JS.truthy_str s then v else d
  | None => d
  end.

(** The loop of [createGist]/[updateGist] that wraps the shards of
    [data.notes] into shard documents.  [now] is the reading of the
    clock ([new Date().toISOString()]). *)
Definition shardDataAt {T : Type} (now : string) (data : Snapshot T)
  (count : nat) (i : nat) (shard : list Note) : ShardData T :=
  mkShardData (Some shard)
              (Some (customTags data))
              (Some (tagColors data))
              (Some (orElse (syncTime data) now))
              (Some (orElse (Some (version data)) "1.0"))
              (Some (mkShardInfo i count)).

Fixpoint shardFilesFrom {T : Type} (now : string) (data : Snapshot T)
  (count : nat) (i : nat) (shards : list (list Note))
  : list (ShardData T) :=
  match shards with
  | [] => []
  | s :: rest =>
      shardDataAt now data count i s
        :: shardFilesFrom now data count (S i) rest
  end.

Definition shardFiles {T : Type} (now : string) (data : Snapshot T)
  (shards : list (list Note)) : list (ShardData T) :=
  shardFilesFrom now data (List.length shards) 0 shards.

(* ================================================================== *)
(** * The world the sync managers run in *)
(* ================================================================== *)

(** [localStorage].  The flat entries (credentials, remote handle,
    flags, times) are strings under their keys; the three JSON
    collections are kept parsed ([JSON.parse (JSON.stringify x)] is [x]
    on them), [None] when the key was never written. *)
Record LocalStorage := mkLS {
  items         : string -> option string;
  ls_notes      : option (list Note);
  ls_customTags : option (list CustomTag);
  ls_tagColors  : option TagColors
}.

Definition GITHUB_TOKEN_KEY  := "insight_github_token".
Definition GIST_ID_KEY       := "insight_gist_id".
Definition LAST_SYNC_KEY     := "insight_last_sync".
Definition AUTO_SYNC_KEY     := "insight_auto_sync".
Definition SYNC_INTERVAL_KEY := "insight_sync_interval".
Definition SHARD_PREFIX      := "insight-shard-".
Definition STORAGE_KEY       := "insight_notes".
Definition CUSTOM_TAGS_KEY   := "insight_custom_tags".
Definition TAG_COLORS_KEY    := "insight_tag_colors".
Definition WEBDAV_SERVER_KEY    := "insight_webdav_server".
Definition WEBDAV_USERNAME_KEY  := "insight_webdav_username".
Definition WEBDAV_PASSWORD_KEY  := "insight_webdav_password".
Definition WEBDAV_LAST_SYNC_KEY := "insight_webdav_last_sync".
Definition fileName          := "insight-notes.json".

(** The result of [JSON.parse] or [response.json()] on a text: a syntax
    error, [null], or a value whose properties can be read. *)
Inductive Parsed (A : Type) :=
| SyntaxErr
| PNull
| PValue (a : A).
Arguments SyntaxErr {A}.
Arguments PNull {A}.
Arguments PValue {A} _.

(** A snapshot or shard document as serialised text holds it. *)
Definition Doc := ShardData CustomTag.

(** A member file of a gist: [null], or an object whose [content] is
    missing or empty ([None]) or a text. *)
Inductive GistFile :=
| FileNull
| FileObj (content : option (Parsed Doc)).

(** A JSON object received from a remote, through the properties the
    sync code reads. *)
Record RemoteObj := mkRemoteObj {
  r_message : option string;
  r_id      : option string;
  r_files   : option (list (string * GistFile));
  r_doc     : Doc
}.

Record Response := mkResponse {
  ok     : bool;
  status : Z;
  body   : Parsed RemoteObj
}.

Record Error := mkError { message : string }.

Inductive FetchOutcome :=
| NetworkError (e : Error)
| Responded (r : Response).

(** What [JSON.stringify] writes into a request. *)
Inductive RequestBody :=
| NoBody
| GistFiles (description : option string)
            (files : list (string * option Doc))
| WholeFile (doc : Doc).

Record Request := mkRequest {
  method   : string;
  url      : string;
  req_body : RequestBody
}.

Record World := mkWorld {
  ls       : LocalStorage;
  heapNext : nat;          (* next free heap address *)
  netCalls : nat           (* number of [fetch] calls made so far *)
}.

(** The record every public sync operation resolves to. *)
Record SyncResult := mkResult {
  success    : bool;
  res_message : string;
  size       : option N;
  res_shards : option nat
}.

(** ** Computations that may throw *)

Inductive Outcome (A : Type) :=
| Returned (a : A)
| Thrown (e : Error).
Arguments Returned {A} _.
Arguments Thrown {A} _.

Definition M (A : Type) : Type := World -> Outcome A * World.

Definition ret {A} (a : A) : M A := fun w => (Returned a, w).
Definition throw {A} (msg : string) : M A :=
  fun w => (Thrown (mkError msg), w).
Definition bind {A B} (c : M A) (k : A -> M B) : M B :=
  fun w =>
    match c w with
    | (Returned a, w') => k a w'
    | (Thrown e, w') => (Thrown e, w')
    end.
(** [try { c } catch (error) { h error }]. *)
Definition tryCatch {A} (c : M A) (h : Error -> M A) : M A :=
  fun w =>
    match c w with
    | (Returned a, w') => (Returned a, w')
    | (Thrown e, w') => h e w'
    end.

Notation "x <- c ;; k" := (bind c (fun x => k))
  (at level 61, c at next level, right associativity).
Notation "c ;;; k" := (bind c (fun _ => k))
  (at level 61, right associativity).

(** Reading a property of a value that may be [null]: a [TypeError]. *)
Definition deref {A} (o : option A) : M A :=
  match o with
  | Some a => ret a
  | None => throw "TypeError: Cannot read properties of null"
  end.

(** [JSON.parse] / [await response.json()]. *)
Definition parsed {A} (p : Parsed A) : M (option A) :=
  match p with
  | SyntaxErr => throw "SyntaxError: Unexpected token in JSON"
  | PNull => ret None
  | PValue a => ret (Some a)
  end.

Definition string_of_Z (z : Z) : string :=
  NilZero.string_of_int (Z.to_int z).
Definition string_of_nat (n : nat) : string :=
  NilZero.string_of_uint (Nat.to_uint n).

Definition setEntry (k v : string) (f : string -> option string)
  : string -> option string :=
  fun k' => if String.eqb k k' then Some v else f k'.
Definition dropEntry (k : string) (f : string -> option string)
  : string -> option string :=
  fun k' => if String.eqb k k' then None else f k'.

(** Fresh heap objects for the elements of a parsed array. *)
Fixpoint allocFrom {A} (a : nat) (l : list A) : list (Obj A) :=
  match l with
  | [] => []
  | x :: rest => mkObj a x :: allocFrom (S a) rest
  end.

Definition allocArray {A} (l : list A) : M (list (Obj A)) :=
  fun w => (Returned (allocFrom (heapNext w) l),
            mkWorld (ls w) (heapNext w + length l) (netCalls w)).

(** Parsing a document allocates its custom tags. *)
Definition parseDoc (d : Doc) : M (ShardData (Obj CustomTag)) :=
  match sd_customTags d with
  | Some tags =>
      objs <- allocArray tags ;;
      ret (mkShardData (sd_notes d) (Some objs) (sd_tagColors d)
                       (sd_syncTime d) (sd_version d) (sd_shardInfo d))
  | None =>
      ret (mkShardData (sd_notes d) None (sd_tagColors d)
                       (sd_syncTime d) (sd_version d) (sd_shardInfo d))
  end.

(** [JSON.stringify] of a snapshot forgets the addresses. *)
Definition stringifySnapshot (s : Snapshot (Obj CustomTag))
  : Snapshot CustomTag :=
  mkSnapshot (notes s) (map val (customTags s)) (tagColors s)
             (syncTime s) (version s).

Definition stringifyShard (s : ShardData (Obj CustomTag)) : Doc :=
  mkShardData (sd_notes s) (option_map (map val) (sd_customTags s))
              (sd_tagColors s) (sd_syncTime s) (sd_version s)
              (sd_shardInfo s).

(** [[...new Set(l)]] on an array of objects: the first occurrence of
    every address. *)
Fixpoint uniqueByAddr {A} (seen : list nat) (l : list (Obj A))
  : list (Obj A) :=
  match l with
  | [] => []
  | o :: rest =>
      if existsb (Nat.eqb (addr o)) seen then uniqueByAddr seen rest
      else o :: uniqueByAddr (addr o :: seen) rest
  end.

(** ** What the managers cannot decide themselves *)

(** The clock, the storage quota, the network and the serialiser, as the
    operation under study meets them. *)
Record Env := mkEnv {
  now          : string;                         (* [new Date().toISOString()] *)
  quota_ok     : string -> bool;                 (* does [setItem] on this key fit *)
  fetch        : nat -> Request -> FetchOutcome; (* reply to the n-th [fetch] *)
  noteSize     : Note -> N;                      (* bytes of [JSON.stringify(note)] *)
  baseSizeOf   : list CustomTag -> TagColors -> string -> N;
  snapshotSize : Snapshot CustomTag -> N;        (* bytes of the whole snapshot *)
  btoa         : string -> option string         (* [None]: [btoa] throws *)
}.

Definition withItems (f : string -> option string) (l : LocalStorage) :=
  mkLS f (ls_notes l) (ls_customTags l) (ls_tagColors l).
Definition withNotes (n : list Note) (l : LocalStorage) :=
  mkLS (items l) (Some n) (ls_customTags l) (ls_tagColors l).
Definition withCustomTags (t : list CustomTag) (l : LocalStorage) :=
  mkLS (items l) (ls_notes l) (Some t) (ls_tagColors l).
Definition withTagColors (c : TagColors) (l : LocalStorage) :=
  mkLS (items l) (ls_notes l) (ls_customTags l) (Some c).
Definition withLs (l : LocalStorage) (w : World) :=
  mkWorld l (heapNext w) (netCalls w).

Section Primitives.
Variable env : Env.

Definition getItem (k : string) : M (option string) :=
  fun w => (Returned (items (ls w) k), w).

(** [localStorage.setItem]: throws when the quota is exceeded. *)
Definition setItem (k v : string) : M unit :=
  fun w =>
    if quota_ok env k
    then (Returned tt, withLs (withItems (setEntry k v (items (ls w))) (ls w)) w)
    else (Thrown (mkError "QuotaExceededError"), w).

Definition removeItem (k : string) : M unit :=
  fun w => (Returned tt, withLs (withItems (dropEntry k (items (ls w))) (ls w)) w).

(** [await fetch(...)]: rejects on a network failure. *)
Definition doFetch (req : Request) : M Response :=
  fun w =>
    let w' := mkWorld (ls w) (heapNext w) (S (netCalls w)) in
    match fetch env (netCalls w) req with
    | NetworkError e => (Thrown e, w')
    | Responded r => (Returned r, w')
    end.

(** *** [StorageManager] *)

Definition getNotes : M (list Note) :=
  fun w => (Returned (orEmpty (ls_notes (ls w))), w).

(** [saveNotes] catches its own failure and alerts. *)
Definition saveNotes (ns : list Note) : M unit :=
  fun w =>
    if quota_ok env STORAGE_KEY
    then (Returned tt, withLs (withNotes ns (ls w)) w)
    else (Returned tt, w).

Definition getCustomTags : M (list (Obj CustomTag)) :=
  fun w => allocArray (orEmpty (ls_customTags (ls w))) w.

(** [saveCustomTags] catches its own failure and logs. *)
Definition saveCustomTags (ts : list (Obj CustomTag)) : M unit :=
  fun w =>
    if quota_ok env CUSTOM_TAGS_KEY
    then (Returned tt, withLs (withCustomTags (map val ts) (ls w)) w)
    else (Returned tt, w).

Definition getTagColors : M TagColors :=
  fun w => (Returned (orEmpty (ls_tagColors (ls w))), w).

(** [localStorage.setItem('insight_tag_colors', JSON.stringify(c))]. *)
Definition setTagColors (c : TagColors) : M unit :=
  fun w =>
    if quota_ok env TAG_COLORS_KEY
    then (Returned tt, withLs (withTagColors c (ls w)) w)
    else (Thrown (mkError "QuotaExceededError"), w).

(** [errorData.message || `HTTP ${response.status}`], with
    [errorData = await response.json().catch(() => ({}))]. *)
Definition errorMessage (response : Response) : M string :=
  let http := ("HTTP " ++ string_of_Z (status response))%string in
  match body response with
  | SyntaxErr => ret http
  | PNull => throw "TypeError: Cannot read properties of null"
  | PValue o => ret (orElse (r_message o) http)
  end.

(** The handler of every sync operation:
    [catch (error) { console.error(...);
                     return { success: false, message: error.message }; }]. *)
Definition failure (error : Error) : M SyncResult :=
  ret (mkResult false (message error) None None).
End Primitives.

(** Monadic left fold: a [for] loop whose body may throw. *)
Fixpoint foldM {A B} (f : A -> B -> M A) (l : list B) (a : A) : M A :=
  match l with
  | [] => ret a
  | x :: rest => a' <- f a x ;; foldM f rest a'
  end.

(** The snapshot of [mergeShards], read back as a document whose
    properties are all present ([syncTime] may be [null]). *)
Definition snapshotAsData {T} (s : Snapshot T) : ShardData T :=
  mkShardData (Some (notes s)) (Some (customTags s)) (Some (tagColors s))
              (syncTime s) (Some (version s)) None.

(* ================================================================== *)
(** * [CloudSyncManager], sharded Gist backend (src/sync.js) *)
(* ================================================================== *)

Module CloudSyncManager.
Section Manager.
Variable env : Env.

Definition gistAPI : string := "https://api.github.com/gists".

Definition getToken : M (option string) := getItem GITHUB_TOKEN_KEY.

Definition updateLastSyncTime : M unit :=
setItem env LAST_SYNC_KEY (now env).

(** [this.shardNotes(notes)], with the reading of the storage and of
  the clock that its [baseSize] makes. *)
Definition shardNotesOf (ns : list Note) : M (list (list Note)) :=
tags <- getCustomTags ;;
colors <- getTagColors ;;
ret (shardNotes (noteSize env)
                (baseSizeOf env (map val tags) colors (now env)) ns).

Definition shardFileName (i : nat) : string :=
(SHARD_PREFIX ++ string_of_nat i ++ ".json")%string.

Fixpoint putFiles (i : nat) (docs : list (ShardData (Obj CustomTag)))
(files : list (string * option Doc)) : list (string * option Doc) :=
match docs with
| [] => files
| d :: rest =>
    putFiles (S i) rest
             (JS.map_set (shardFileName i) (Some (stringifyShard d)) files)
end.

Definition buildFiles (data : Snapshot (Obj CustomTag))
(shards : list (list Note)) : list (string * option Doc) :=
putFiles 0 (shardFiles (now env) data shards) [].

Definition description (shards : list (list Note)) : string :=
("Insight 笔记备份 - " ++ string_of_nat (length shards)
   ++ " 个分片")%string.

Definition idString (g : RemoteObj) : string :=
match r_id g with Some i => i | None => "undefined" end.

Definition createGist (data : Snapshot (Obj CustomTag)) : M RemoteObj :=
token <- getToken ;;
if negb (JS.truthy_str token) then throw "未连接 GitHub" else
shards <- shardNotesOf (notes data) ;;
let files := buildFiles data shards in
response <- doFetch env
  (mkRequest "POST" gistAPI (GistFiles (Some (description shards)) files)) ;;
if negb (ok response) then
  errorMsg <- errorMessage response ;;
  throw ("创建 Gist 失败: " ++ errorMsg)%string
else
  gist <- parsed (body response) ;;
  g <- deref gist ;;
  setItem env GIST_ID_KEY (idString g) ;;;
  ret g.

(** [files[filename]] holds a document (not [undefined], not [null]). *)
Definition liveFile (filename : string)
(files : list (string * option Doc)) : bool :=
match JS.map_get filename files with
| Some (Some _) => true
| _ => false
end.

(** Old shard files that the new shard set no longer has are set to
  [null], which deletes them. *)
Definition markStale (existing : list (string * GistFile))
(files : list (string * option Doc)) : list (string * option Doc) :=
fold_left
  (fun fs entry =>
     if String.prefix SHARD_PREFIX (fst entry)
        && negb (liveFile (fst entry) fs)
     then JS.map_set (fst entry) None fs else fs)
  existing files.

Definition gistUrl (gistId : string) : string :=
(gistAPI ++ "/" ++ gistId)%string.

Definition updateGist (data : Snapshot (Obj CustomTag))
: M (option RemoteObj) :=
token <- getToken ;;
gistId <- getItem GIST_ID_KEY ;;
if negb (JS.truthy_str token) then throw "未连接 GitHub" else
if negb (JS.truthy_str gistId) then
  g <- createGist data ;; ret (Some g)
else
shards <- shardNotesOf (notes data) ;;
let files := buildFiles data shards in
files' <- tryCatch
  (existingGist <- doFetch env
     (mkRequest "GET" (gistUrl (orElse gistId "")) NoBody) ;;
   if ok existingGist then
     gistData <- parsed (body existingGist) ;;
     g <- deref gistData ;;
     ret (markStale (orEmpty (r_files g)) files)
   else ret files)
  (fun e => ret files) ;;
response <- doFetch env
  (mkRequest "PATCH" (gistUrl (orElse gistId ""))
             (GistFiles (Some (description shards)) files')) ;;
if negb (ok response) then
  if (status response =? 404)%Z then
    removeItem GIST_ID_KEY ;;;
    g <- createGist data ;; ret (Some g)
  else
    errorMsg <- errorMessage response ;;
    throw ("更新 Gist 失败: " ++ errorMsg)%string
else parsed (body response).

Definition shardIndex (d : ShardData (Obj CustomTag)) : nat :=
match sd_shardInfo d with Some i => index i | None => 0 end.

(** One turn of the loop over [gist.files]: a shard file that does not
  parse is logged and skipped. *)
Definition collectShard
(acc : list (nat * ShardData (Obj CustomTag)))
(entry : string * GistFile)
: M (list (nat * ShardData (Obj CustomTag))) :=
if String.prefix SHARD_PREFIX (fst entry) then
  match snd entry with
  | FileObj (Some text) =>
      tryCatch
        (shardData <- parsed text ;;
         d <- deref shardData ;;
         o <- parseDoc d ;;
         ret (acc ++ [(shardIndex o, o)]))
        (fun e => ret acc)
  | _ => ret acc
  end
else ret acc.

Definition byIndex (a b : nat * ShardData (Obj CustomTag)) : option Z :=
Some (Z.of_nat (fst a) - Z.of_nat (fst b))%Z.

Definition getGist : M (option (ShardData (Obj CustomTag))) :=
token <- getToken ;;
gistId <- getItem GIST_ID_KEY ;;
if negb (JS.truthy_str token) then throw "未连接 GitHub" else
if negb (JS.truthy_str gistId) then throw "没有找到云端备份" else
response <- doFetch env
  (mkRequest "GET" (gistUrl (orElse gistId "")) NoBody) ;;
if negb (ok response) then
  errorMsg <- errorMessage response ;;
  throw ("获取 Gist 失败: " ++ errorMsg)%string
else
  gist <- parsed (body response) ;;
  g <- deref gist ;;
  found <- foldM collectShard (orEmpty (r_files g)) [] ;;
  if (length found =? 0)%nat then
    (* the single-file format of earlier versions *)
    files <- deref (r_files g) ;;
    match JS.map_get fileName files with
    | Some (FileObj content) =>
        match content with
        | Some text =>
            doc <- parsed text ;;
            match doc with
            | Some d => o <- parseDoc d ;; ret (Some o)
            | None => ret None
            end
        | None => throw "SyntaxError: Unexpected token in JSON"
        end
    | _ => throw "备份文件不存在"
    end
  else
    let sorted := JS.sort byIndex found in
    ret (Some (snapshotAsData (mergeShards (map snd sorted)))).

Definition syncUp : M SyncResult :=
tryCatch
  (localNotes <- getNotes ;;
   gistId <- getItem GIST_ID_KEY ;;
   notesToUpload <-
     (if JS.truthy_str gistId then
        tryCatch
          (cloudData <- getGist ;;
           d <- deref cloudData ;;
           match sd_notes d with
           | Some cloudNotes => ret (mergeNotes localNotes cloudNotes)
           | None => ret localNotes
           end)
          (fun e => ret localNotes)
      else ret localNotes) ;;
   tags <- getCustomTags ;;
   colors <- getTagColors ;;
   let data := mkSnapshot notesToUpload tags colors (Some (now env)) "1.0" in
   let sizeInBytes := snapshotSize env (stringifySnapshot data) in
   updateGist data ;;;
   updateLastSyncTime ;;;
   shards <- shardNotesOf (notes data) ;;
   let shardInfo :=
     if (1 <? length shards)%nat
     then (" (" ++ string_of_nat (length shards) ++ " 个分片)")%string
     else "" in
   ret (mkResult true ("上传成功！" ++ shardInfo)%string
                 (Some sizeInBytes) (Some (length shards))))
  failure.

Definition syncDown : M SyncResult :=
tryCatch
  (cloudData <- getGist ;;
   localNotes <- getNotes ;;
   localTags <- getCustomTags ;;
   d <- deref cloudData ;;
   match sd_notes d with
   | Some cloudNotes => saveNotes env (mergeNotes localNotes cloudNotes)
   | None => ret tt
   end ;;;
   match sd_customTags d with
   | Some cloudTags =>
       saveCustomTags env (uniqueByAddr [] (localTags ++ cloudTags))
   | None => ret tt
   end ;;;
   match sd_tagColors d with
   | Some colors => setTagColors env colors
   | None => ret tt
   end ;;;
   updateLastSyncTime ;;;
   ns <- getNotes ;;
   ret (mkResult true
          ("合并成功！共 " ++ string_of_nat (length ns) ++ " 条笔记")%string
          None None))
  failure.

End Manager.
End CloudSyncManager.

(* ================================================================== *)
(** * [CloudSyncManager], earliest single-file Gist backend *)
(* ================================================================== *)

Module CloudSyncManagerV0.
Section Manager.
Variable env : Env.

Definition gistAPI : string := "https://api.github.com/gists".

Definition getToken : M (option string) := getItem GITHUB_TOKEN_KEY.

Definition updateLastSyncTime : M unit :=
setItem env LAST_SYNC_KEY (now env).

Definition gistUrl (gistId : string) : string :=
(gistAPI ++ "/" ++ gistId)%string.

Definition idString (g : RemoteObj) : string :=
match r_id g with Some i => i | None => "undefined" end.

Definition createGist (data : ShardData (Obj CustomTag)) : M RemoteObj :=
token <- getToken ;;
if negb (JS.truthy_str token) then throw "未连接 GitHub" else
response <- doFetch env
  (mkRequest "POST" gistAPI
     (GistFiles (Some "Insight 笔记备份 - 自动同步")
                [(fileName, Some (stringifyShard data))])) ;;
if negb (ok response) then throw "创建 Gist 失败"
else
  gist <- parsed (body response) ;;
  g <- deref gist ;;
  setItem env GIST_ID_KEY (idString g) ;;;
  ret g.

Definition updateGist (data : ShardData (Obj CustomTag))
: M (option RemoteObj) :=
token <- getToken ;;
gistId <- getItem GIST_ID_KEY ;;
if negb (JS.truthy_str token) then throw "未连接 GitHub" else
if negb (JS.truthy_str gistId) then
  g <- createGist data ;; ret (Some g)
else
response <- doFetch env
  (mkRequest "PATCH" (gistUrl (orElse gistId ""))
     (GistFiles None [(fileName, Some (stringifyShard data))])) ;;
if negb (ok response) then
  if (status response =? 404)%Z then
    removeItem GIST_ID_KEY ;;;
    g <- createGist data ;; ret (Some g)
  else throw "更新 Gist 失败"
else parsed (body response).

Definition getGist : M (option (ShardData (Obj CustomTag))) :=
token <- getToken ;;
gistId <- getItem GIST_ID_KEY ;;
if negb (JS.truthy_str token) then throw "未连接 GitHub" else
if negb (JS.truthy_str gistId) then throw "没有找到云端备份" else
response <- doFetch env
  (mkRequest "GET" (gistUrl (orElse gistId "")) NoBody) ;;
if negb (ok response) then throw "获取 Gist 失败"
else
  gist <- parsed (body response) ;;
  g <- deref gist ;;
  files <- deref (r_files g) ;;
  match JS.map_get fileName files with
  | Some (FileObj content) =>
      match content with
      | Some text =>
          doc <- parsed text ;;
          match doc with
          | Some d => o <- parseDoc d ;; ret (Some o)
          | None => ret None
          end
      | None => throw "SyntaxError: Unexpected token in JSON"
      end
  | _ => throw "备份文件不存在"
  end.

Definition syncUp : M SyncResult :=
tryCatch
  (ns <- getNotes ;;
   tags <- getCustomTags ;;
   let data := mkShardData (Some ns) (Some tags) None
                           (Some (now env)) (Some "1.0") None in
   updateGist data ;;;
   updateLastSyncTime ;;;
   ret (mkResult true "上传成功！" None None))
  failure.

Definition syncDown : M SyncResult :=
tryCatch
  (data <- getGist ;;
   d <- deref data ;;
   match sd_notes d with
   | Some ns => saveNotes env ns
   | None => ret tt
   end ;;;
   match sd_customTags d with
   | Some tags => saveCustomTags env tags
   | None => ret tt
   end ;;;
   updateLastSyncTime ;;;
   ret (mkResult true "下载成功！" None None))
  failure.

End Manager.
End CloudSyncManagerV0.

(* ================================================================== *)
(** * [WebDAVSyncManager] (src/webdav-sync.js) *)
(* ================================================================== *)

Module WebDAVSyncManager.
Section Manager.
Variable env : Env.

Record Config := mkConfig {
server   : string;
username : string;
password : string
}.

Definition getConfig : M Config :=
s <- getItem WEBDAV_SERVER_KEY ;;
u <- getItem WEBDAV_USERNAME_KEY ;;
p <- getItem WEBDAV_PASSWORD_KEY ;;
ret (mkConfig (orElse s "") (orElse u "") (orElse p "")).

Definition nonEmpty (s : string) : bool := JS.truthy_str (Some s).

Definition isConnected : M bool :=
config <- getConfig ;;
ret (nonEmpty (server config) && nonEmpty (username config)
     && nonEmpty (password config)).

Definition getAuthHeader : M string :=
config <- getConfig ;;
match btoa env (username config ++ ":" ++ password config)%string with
| Some credentials => ret ("Basic " ++ credentials)%string
| None => throw "InvalidCharacterError"
end.

Definition updateLastSyncTime : M unit :=
setItem env WEBDAV_LAST_SYNC_KEY (now env).

Definition statusText (prefix : string) (response : Response) : string :=
(prefix ++ " (" ++ string_of_Z (status response) ++ ")")%string.

Definition syncUp : M SyncResult :=
tryCatch
  (config <- getConfig ;;
   connected <- isConnected ;;
   if negb connected then throw "未配置 WebDAV 连接" else
   ns <- getNotes ;;
   tags <- getCustomTags ;;
   colors <- getTagColors ;;
   let data := mkSnapshot ns tags colors (Some (now env)) "1.0" in
   let sizeInBytes := snapshotSize env (stringifySnapshot data) in
   auth <- getAuthHeader ;;
   response <- doFetch env
     (mkRequest "PUT" (server config ++ fileName)%string
                (WholeFile (stringifyShard (snapshotAsData data)))) ;;
   if ok response || (status response =? 201)%Z
      || (status response =? 204)%Z then
     updateLastSyncTime ;;;
     ret (mkResult true "上传成功！" (Some sizeInBytes) None)
   else if (status response =? 401)%Z then
     ret (mkResult false "认证失败，请检查账号密码" None None)
   else if (status response =? 507)%Z then
     ret (mkResult false "存储空间不足" None None)
   else
     ret (mkResult false (statusText "上传失败" response) None None))
  failure.

Definition syncDown : M SyncResult :=
tryCatch
  (config <- getConfig ;;
   connected <- isConnected ;;
   if negb connected then throw "未配置 WebDAV 连接" else
   auth <- getAuthHeader ;;
   response <- doFetch env
     (mkRequest "GET" (server config ++ fileName)%string NoBody) ;;
   if ok response then
     parsedBody <- parsed (body response) ;;
     obj <- deref parsedBody ;;
     data <- parseDoc (r_doc obj) ;;
     match sd_notes data with
     | Some ns => saveNotes env ns
     | None => ret tt
     end ;;;
     match sd_customTags data with
     | Some tags => saveCustomTags env tags
     | None => ret tt
     end ;;;
     match sd_tagColors data with
     | Some colors => setTagColors env colors
     | None => ret tt
     end ;;;
     updateLastSyncTime ;;;
     ret (mkResult true "下载成功！" None None)
   else if (status response =? 404)%Z then
     ret (mkResult false "云端没有找到数据文件" None None)
   else if (status response =? 401)%Z then
     ret (mkResult false "认证失败，请检查账号密码" None None)
   else
     ret (mkResult false (statusText "下载失败" response) None None))
  failure.

End Manager.
End WebDAVSyncManager.

(* ================================================================== *)
(** * The auto-sync scheduler (the same code in the three managers) *)
(* ================================================================== *)

Module Scheduler.

(** [parseInt] on the text [toString] writes for a whole number: its
    value.  Any other text reads as [NaN] ([None]) here, where the engine
    reads the leading digits of the text; what is proved about the value
    of an interval is proved for the texts [toString] writes. *)
Definition parseInt (s : string) : option Z :=
  option_map Z.of_int (NilZero.int_of_string s).

(** [a * b] on numbers that may be [NaN]; exact while the product is a
    safe integer. *)
Definition mul (a : option Z) (b : Z) : option Z :=
  option_map (fun x => (x * b)%Z) a.

(** The manager's [autoSyncTimer], the flat entries of [localStorage]
    and the interval timers of the runtime that are still active:
    their id and their delay in milliseconds. *)
Record State := mkState {
  store         : string -> option string;
  autoSyncTimer : option nat;
  timers        : list (nat * option Z);
  nextTimerId   : nat
}.

(** A fresh manager in a fresh page: [this.autoSyncTimer = null]; timer
    ids are positive integers. *)
Definition init (st : string -> option string) : State :=
  mkState st None [] 1.

Definition setInterval (delay : option Z) (s : State) : nat * State :=
  (nextTimerId s,
   mkState (store s) (autoSyncTimer s)
           (timers s ++ [(nextTimerId s, delay)]) (S (nextTimerId s))).

Definition clearInterval (t : nat) (s : State) : State :=
  mkState (store s) (autoSyncTimer s)
          (filter (fun x => negb (Nat.eqb (fst x) t)) (timers s))
          (nextTimerId s).

Definition isConnected (s : State) : bool :=
  JS.truthy_str (store s GITHUB_TOKEN_KEY).

Definition isTrue (v : option string) : bool :=
  match v with Some x => String.eqb x "true" | None => false end.

Definition stopAutoSync (s : State) : State :=
  match autoSyncTimer s with
  | Some t =>
      if negb (Nat.eqb t 0) then
        let s' := clearInterval t s in
        mkState (store s') None (timers s') (nextTimerId s')
      else s
  | None => s
  end.

Definition startAutoSync (s : State) : State :=
  let s1 := stopAutoSync s in
  let enabled := isTrue (store s1 AUTO_SYNC_KEY) in
  let interval := parseInt (orElse (store s1 SYNC_INTERVAL_KEY) "10") in
  if enabled && isConnected s1 then
    let '(t, s2) := setInterval (mul (mul interval 60) 1000) s1 in
    mkState (store s2) (Some t) (timers s2) (nextTimerId s2)
  else s1.

Section Quota.
(** Whether [localStorage.setItem] on a key fits the quota; when it
    does not, the method throws at that line. *)
Variable quota_ok : string -> bool.

Definition setAutoSyncEnabled (enabled : bool) (s : State) : State :=
  if quota_ok AUTO_SYNC_KEY then
    let s1 := mkState (setEntry AUTO_SYNC_KEY
                                (if enabled then "true" else "false")
                                (store s))
                      (autoSyncTimer s) (timers s) (nextTimerId s) in
    if enabled then startAutoSync s1 else stopAutoSync s1
  else s.

(** [minutes] is a whole number; [minutes.toString()] is its decimal
    text while it is a safe integer, and what is proved about the stored
    interval carries that bound. *)
Definition setSyncInterval (minutes : Z) (s : State) : State :=
  if quota_ok SYNC_INTERVAL_KEY then
    let s1 := mkState (setEntry SYNC_INTERVAL_KEY (string_of_Z minutes)
                                (store s))
                      (autoSyncTimer s) (timers s) (nextTimerId s) in
    if isTrue (store s1 AUTO_SYNC_KEY) then startAutoSync s1 else s1
  else s.

Definition saveToken (token : string) (s : State) : State :=
  if quota_ok GITHUB_TOKEN_KEY then
    mkState (setEntry GITHUB_TOKEN_KEY token (store s))
            (autoSyncTimer s) (timers s) (nextTimerId s)
  else s.

Definition clearToken (s : State) : State :=
  mkState (dropEntry GIST_ID_KEY
             (dropEntry GITHUB_TOKEN_KEY (store s)))
          (autoSyncTimer s) (timers s) (nextTimerId s).

(** Any other write to [localStorage]: by the host, or by the [syncUp]
    of a firing timer. *)
Definition storageWrite (k : string) (v : option string) (s : State)
  : State :=
  mkState (fun k' => if String.eqb k k' then v else store s k')
          (autoSyncTimer s) (timers s) (nextTimerId s).

(** The calls a host can make on the manager, and what else can happen
    to the storage between them. *)
Inductive Call :=
| StartAutoSync
| StopAutoSync
| SetAutoSyncEnabled (enabled : bool)
| SetSyncInterval (minutes : Z)
| SaveToken (token : string)
| ClearToken
| StorageWrite (k : string) (v : option string).

Definition run (c : Call) (s : State) : State :=
  match c with
  | StartAutoSync => startAutoSync s
  | StopAutoSync => stopAutoSync s
  | SetAutoSyncEnabled b => setAutoSyncEnabled b s
  | SetSyncInterval m => setSyncInterval m s
  | SaveToken t => saveToken t s
  | ClearToken => clearToken s
  | StorageWrite k v => storageWrite k v s
  end.

Inductive reachable : State -> Prop :=
| reach_init : forall st, reachable (init st)
| reach_call : forall s c, reachable s -> reachable (run c s).

(** The timer the manager remembers is the only active one, and ids
    are positive and below the next one. *)
Definition wf (s : State) : Prop :=
  1 <= nextTimerId s
  /\ match autoSyncTimer s with
     | None => timers s = []
     | Some t => 1 <= t < nextTimerId s
                 /\ exists d, timers s = [(t, d)]
     end.
End Quota.

End Scheduler.

(* ================================================================== *)
(** * The other methods of the managers and of [StorageManager] *)
(* ================================================================== *)

(** [s.endsWith(suf)]: some tail of [s] is [suf]. *)
Fixpoint endsWith (s suf : string) : bool :=
  if String.eqb s suf then true
  else match s with
       | EmptyString => false
       | String _ rest => endsWith rest suf
       end.

(** ** Credentials of the Gist managers *)

Module Account.
Section Manager.
Variable env : Env.

Definition clearToken : M unit :=
  removeItem GITHUB_TOKEN_KEY ;;;
  removeItem GIST_ID_KEY.

Definition isConnected : M bool :=
  token <- getItem GITHUB_TOKEN_KEY ;;
  ret (JS.truthy_str token).

End Manager.
End Account.

(** ** Configuration and connection test of [WebDAVSyncManager] *)

Module WebDAVConfig.
Section Manager.
Variable env : Env.

(** The two corrections [saveConfig] applies to the server address. *)
Definition withScheme (server : string) : string :=
  if negb (String.prefix "http://" server)
     && negb (String.prefix "https://" server)
  then ("https://" ++ server)%string
  else server.

Definition withSlash (server : string) : string :=
  if negb (endsWith server "/") then (server ++ "/")%string else server.

Definition normalizeServer (server : string) : string :=
  withSlash (withScheme server).

Definition saveConfig (server username password : string) : M unit :=
  setItem env WEBDAV_SERVER_KEY (normalizeServer server) ;;;
  setItem env WEBDAV_USERNAME_KEY username ;;;
  setItem env WEBDAV_PASSWORD_KEY password.

Definition clearConfig : M unit :=
  removeItem WEBDAV_SERVER_KEY ;;;
  removeItem WEBDAV_USERNAME_KEY ;;;
  removeItem WEBDAV_PASSWORD_KEY.

Definition testConnection : M SyncResult :=
  tryCatch
    (config <- WebDAVSyncManager.getConfig ;;
     auth <- WebDAVSyncManager.getAuthHeader env ;;
     response <- doFetch env
       (mkRequest "PROPFIND" (WebDAVSyncManager.server config) NoBody) ;;
     if ok response || (status response =? 207)%Z then
       ret (mkResult true "连接成功！" None None)
     else if (status response =? 401)%Z then
       ret (mkResult false "账号或密码错误" None None)
     else
       ret (mkResult false
              (WebDAVSyncManager.statusText "连接失败" response) None None))
    (fun error =>
       ret (mkResult false ("网络错误: " ++ message error)%string None None)).

End Manager.
End WebDAVConfig.

(** ** Reading the scheduler's settings *)

Module Settings.

Definition isAutoSyncEnabled (s : Scheduler.State) : bool :=
  Scheduler.isTrue (Scheduler.store s AUTO_SYNC_KEY).

Definition getSyncInterval (s : Scheduler.State) : option Z :=
  Scheduler.parseInt (orElse (Scheduler.store s SYNC_INTERVAL_KEY) "10").

End Settings.

(** ** [StorageManager]: notes, custom tags and tag colours *)

Module StorageManager.

(** [notes.findIndex(note => note.id === id)] and the update of the note
    found: only the first note of that id is touched.  [newTags] is
    [extractTags(updatedContent)] and [nowIso] the clock reading. *)
Fixpoint updateFirst (i : string) (updatedContent : string)
  (newTags : list string) (nowIso : string) (ns : list Note) : list Note :=
  match ns with
  | [] => []
  | n :: rest =>
      if String.eqb (id n) i
      then mkNote (id n) updatedContent newTags (createdAt n) nowIso
                  (timestamp n) :: rest
      else n :: updateFirst i updatedContent newTags nowIso rest
  end.

(** [notes.filter(note => note.id !== id)]. *)
Definition withoutId (i : string) (ns : list Note) : list Note :=
  filter (fun n => negb (String.eqb (id n) i)) ns.

(** [tagName.startsWith('#') ? tagName : `#${tagName}`]. *)
Definition formatTag (tagName : string) : string :=
  if String.prefix "#" tagName then tagName else ("#" ++ tagName)%string.

(** [addCustomTag] on the stored collection: the outcome and the new
    collection.  [nowMs] is [Date.now().toString()]. *)
Definition addTagTo (nowMs nowIso tagName : string) (ts : list CustomTag)
  : bool * list CustomTag :=
  let formattedTag := formatTag tagName in
  if existsb (fun t => String.eqb (name t) formattedTag) ts
  then (false, ts)
  else (true, mkTag nowMs formattedTag nowIso :: ts).

(** *** The default colour of a tag *)

(** [ToInt32]: the wrap-around of the shift operators. *)
Definition toInt32 (z : Z) : Z :=
  ((z + 2147483648) mod 4294967296 - 2147483648)%Z.

(** [hash << 5]. *)
Definition shl5 (hash : Z) : Z := toInt32 (toInt32 hash * 32).

(** The loop of [getTagColor] over the code units of the tag name:
    [hash = tagName.charCodeAt(i) + ((hash << 5) - hash)]. *)
Definition hashStep (hash : Z) (charCode : Z) : Z :=
  (charCode + (shl5 hash - hash))%Z.

Definition tagHash (codeUnits : list Z) : Z :=
  fold_left hashStep codeUnits 0%Z.

(** What [getTagColor] returns: a colour index, or the member of
    [Object.prototype] that answers for the name. *)
Inductive TagColor :=
| ColorIndex (c : Z)
| InheritedMember (k : string).

(** [colors[tagName] = colorIndex] on the parsed object.  On
    [__proto__], unless the object has a property of that name of its
    own, the assignment goes to the inherited setter, which ignores a
    number. *)
Definition assign (tagName : string) (colorIndex : Z) (colors : TagColors)
  : TagColors :=
  match JS.map_get tagName colors with
  | Some _ => JS.map_set tagName colorIndex colors
  | None =>
      if String.eqb tagName "__proto__" then colors
      else JS.map_set tagName colorIndex colors
  end.

Section Manager.
Variable env : Env.

Definition addNote (note : Note) : M unit :=
  ns <- getNotes ;;
  saveNotes env (note :: ns).

Definition updateNote (i updatedContent : string) (newTags : list string)
  : M unit :=
  ns <- getNotes ;;
  if existsb (fun n => String.eqb (id n) i) ns
  then saveNotes env (updateFirst i updatedContent newTags (now env) ns)
  else ret tt.

Definition deleteNote (i : string) : M unit :=
  ns <- getNotes ;;
  saveNotes env (withoutId i ns).

Definition addCustomTag (nowMs tagName : string) : M bool :=
  ts <- getCustomTags ;;
  let r := addTagTo nowMs (now env) tagName (map val ts) in
  if fst r then
    newTag <- allocArray [mkTag nowMs (formatTag tagName) (now env)] ;;
    saveCustomTags env (newTag ++ ts) ;;;
    ret true
  else ret false.

(** [saveTagColor] writes without a [try]: a full storage throws. *)
Definition saveTagColor (tagName : string) (colorIndex : Z) : M unit :=
  colors <- getTagColors ;;
  setTagColors env (assign tagName colorIndex colors).

(** [getTagColor]: [colors[tagName]] when it is not [undefined], which
    is the colour saved for the tag or else the member a plain object
    inherits under that name; [Math.abs(hash) % 8] otherwise.
    [codeUnits] are the UTF-16 code units of [tagName]. *)
Definition getTagColor (tagName : string) (codeUnits : list Z)
  : M TagColor :=
  colors <- getTagColors ;;
  match JS.map_get tagName colors with
  | Some c => ret (ColorIndex c)
  | None =>
      if JS.inherited tagName then ret (InheritedMember tagName)
      else ret (ColorIndex (Z.abs (tagHash codeUnits) mod 8)%Z)
  end.

End Manager.

End StorageManager.

(* ================================================================== *)
(** * Auxiliary definitions of the proofs *)
(* ================================================================== *)

(** The notes a state of the loop of [shardNotes] holds, in order. *)
Definition held (st : ShardLoop) : list Note :=
  concat (shards st) ++ currentShard st.

(** The notes a shard document contributes to [allNotes]. *)
Definition carried {T : Type} (s : ShardData T) : list Note :=
  match sd_notes s with Some ns => ns | None => [] end.

(** Decidable equality of notes, to count occurrences. *)
Definition Note_eq_dec : forall a b : Note, {a = b} + {a <> b}.
Proof.
  decide equality;
    try apply string_dec; try apply (list_eq_dec string_dec).
  decide equality. apply Z.eq_dec.
Defined.

(** The total serialised size of a list of notes. *)
Definition sumSize (noteSize : Note -> N) (l : list Note) : N :=
  fold_right (fun n a => (noteSize n + a)%N) 0%N l.

(** [InsightApp.createNote]: the note the application builds, with
    [Date.now().toString()] as id and the clock reading in [createdAt]
    and [updatedAt]; there is no [timestamp] property.  [extractTags] is
    left out: the tags play no part in the sync. *)
Definition appNote (i c u : string) : Note := mkNote i c [] u u None.

(** [StorageManager.updateNote], on the note itself: new content, new
    [updatedAt]; id and [createdAt] stay. *)
Definition editNote (c u : string) (n : Note) : Note :=
  mkNote (id n) c (tags n) (createdAt n) u (timestamp n).

(** A note of a remote document that carries a numeric [timestamp]. *)
Definition stampedNote (i c : string) (t : Z) : Note :=
  mkNote i c [] "" "" (Some t).

(** A note whose serialised size alone exceeds the shard limit. *)
Definition oversized (noteSize : Note -> N) (n : Note) : Prop :=
  (MAX_SHARD_SIZE < noteSize n)%N.

(** What the loop of [shardNotes] maintains: the running size is the
    size of the open shard, and an oversized note is alone wherever it
    is held. *)
Definition loopInv (noteSize : Note -> N) (st : ShardLoop) : Prop :=
  currentSize st = sumSize noteSize (currentShard st)
  /\ (forall s n, In s (shards st) -> oversized noteSize n ->
                  In n s -> s = [n])
  /\ (forall n, oversized noteSize n -> In n (currentShard st) ->
                currentShard st = [n]).

(** A size estimator for the examples: notes whose content is ["big"]
    exceed the limit alone. *)
Definition sizeByContent (n : Note) : N :=
  if String.eqb (content n) "big" then 900000%N else 300000%N.

(** The value of property [f] in the last element of [l] that carries
    it. *)
Fixpoint lastPresent {A B : Type} (f : A -> option B) (l : list A)
  : option B :=
  match l with
  | [] => None
  | s :: rest =>
      match lastPresent f rest with
      | Some v => Some v
      | None => f s
      end
  end.

(** Two shard documents of the examples: the first carries the later
    sync time. *)
Definition shardFeb : ShardData CustomTag :=
  mkShardData (Some []) None None (Some "2024-02-01T00:00:00.000Z")
              (Some "1.0") (Some (mkShardInfo 0 2)).
Definition shardJan : ShardData CustomTag :=
  mkShardData (Some []) None None (Some "2024-01-01T00:00:00.000Z")
              (Some "1.0") (Some (mkShardInfo 1 2)).

(** What [cloudStep] does to the entry of key [k] alone. *)
Definition resolveStep (k : string) (e : option Note) (note : Note)
  : option Note :=
  if String.eqb (id note) k then
    match e with
    | None => Some note
    | Some existing =>
        if JS.gt (timestamp note) (timestamp existing)
        then Some note else Some existing
    end
  else e.

Definition resolve (k : string) (l : list Note) (e : option Note)
  : option Note :=
  fold_left (resolveStep k) l e.

(** A well-formed notes map: keys are distinct and every entry is filed
    under the id of its note. *)
Definition keyed (m : list (string * Note)) : Prop :=
  forall k v, In (k, v) m -> k = id v.

Definition wfMap (m : list (string * Note)) : Prop :=
  NoDup (map fst m) /\ keyed m.

(** Every entry of the map comes from one of the two collections. *)
Definition drawnFrom (X Y : list Note) (m : list (string * Note)) : Prop :=
  forall k v, In (k, v) m -> In v X \/ In v Y.

(** Two versions of one note, as the application creates and edits
    notes: the local one is the note as created in January, the cloud
    one is the same note edited on another device in June.  Neither
    carries a [timestamp] property. *)
Definition localJan : Note :=
  appNote "1700000000000" "draft" "2024-01-01T00:00:00.000Z".
Definition cloudJun : Note :=
  editNote "final" "2024-06-01T00:00:00.000Z" localJan.

(** The custom-tag objects of a parsed document are distinct objects,
    all allocated below heap address [h]. *)
Definition goodData (h : nat) (d : ShardData (Obj CustomTag)) : Prop :=
  forall tags, sd_customTags d = Some tags ->
    NoDup (map addr tags) /\ (forall o, In o tags -> addr o < h).

Definition allGood (h : nat) (l : list (nat * ShardData (Obj CustomTag)))
  : Prop :=
  Forall (fun x => goodData h (snd x)) l.

(** A computation that leaves one part of the storage as it found it,
    whether it returns or throws. *)
Definition keeps {X A : Type} (proj : LocalStorage -> X) (c : M A) : Prop :=
  forall w, proj (ls (snd (c w))) = proj (ls w).

(** ** A concrete device and remote, for the examples *)

Definition localNote : Note :=
  appNote "1700000000001" "written here" "2024-01-01T00:00:00.000Z".
Definition cloudNote : Note :=
  appNote "1700000000002" "written elsewhere" "2024-01-02T00:00:00.000Z".
Definition ideaTag : CustomTag :=
  mkTag "1700000000003" "#idea" "2024-01-01T00:00:00.000Z".
Definition workTag : CustomTag :=
  mkTag "1700000000004" "#work" "2024-01-01T00:00:00.000Z".

(** Credentials and remote handle are configured; nothing else is. *)
Definition exItems (k : string) : option string :=
  if String.eqb k GITHUB_TOKEN_KEY then Some "ghp_token"
  else if String.eqb k GIST_ID_KEY then Some "gist1"
  else if String.eqb k WEBDAV_SERVER_KEY then Some "https://dav.example/"
  else if String.eqb k WEBDAV_USERNAME_KEY then Some "user"
  else if String.eqb k WEBDAV_PASSWORD_KEY then Some "secret"
  else None.

(** The device holds one note and the tags [localTags]. *)
Definition exWorld (localTags : list CustomTag) : World :=
  mkWorld (mkLS exItems (Some [localNote]) (Some localTags) None) 0 0.

(** The remote document holds another note and the tag [#idea]. *)
Definition remoteDoc : Doc :=
  mkShardData (Some [cloudNote]) (Some [ideaTag]) None
              (Some "2024-02-01T00:00:00.000Z") (Some "1.0")
              (Some (mkShardInfo 0 1)).
Definition noDoc : Doc := mkShardData None None None None None None.

Definition webdavReply : Response :=
  mkResponse true 200 (PValue (mkRemoteObj None None None remoteDoc)).
Definition shardedReply : Response :=
  mkResponse true 200
    (PValue (mkRemoteObj None (Some "gist1")
               (Some [("insight-shard-0.json", FileObj (Some (PValue remoteDoc)))])
               noDoc)).
Definition wholeFileReply : Response :=
  mkResponse true 200
    (PValue (mkRemoteObj None (Some "gist1")
               (Some [("insight-notes.json", FileObj (Some (PValue remoteDoc)))])
               noDoc)).

(** The remote always answers [reply]; the storage never overflows. *)
Definition exEnv (reply : Response) : Env :=
  mkEnv "2024-03-01T00:00:00.000Z" (fun _ => true)
        (fun _ _ => Responded reply) sizeByContent
        (fun _ _ _ => 150%N) (fun _ => 1000%N) (fun s => Some s).

(** A storage with a token and auto-sync switched on. *)
Definition autoItems (k : string) : option string :=
  if String.eqb k GITHUB_TOKEN_KEY then Some "ghp_token"
  else if String.eqb k AUTO_SYNC_KEY then Some "true"
  else None.

(** A shard respects the limit, or holds a single note. *)
Definition fits (noteSize : Note -> N) (baseSize : N) (s : list Note)
  : Prop :=
  length s <= 1 \/ (sumSize noteSize s + baseSize <= MAX_SHARD_SIZE)%N.

(** What the loop of [shardNotes] maintains about sizes: closed shards
    are non-empty and fit, the open shard fits. *)
Definition shapeInv (noteSize : Note -> N) (baseSize : N) (st : ShardLoop)
  : Prop :=
  currentSize st = sumSize noteSize (currentShard st)
  /\ Forall (fun s => s <> [] /\ fits noteSize baseSize s) (shards st)
  /\ fits noteSize baseSize (currentShard st).

(** [a] is at least as recent as [b], both carrying a numeric
    [timestamp]. *)
Definition newerEq (a b : Note) : Prop :=
  match timestamp a, timestamp b with
  | Some x, Some y => (y <= x)%Z
  | _, _ => False
  end.

(** What the second loop of [mergeShards] maintains: the set of seen ids
    is the ids kept, without repetition; the notes kept are notes of the
    input read so far, and every id read so far is kept. *)
Definition dedupInv (done : list Note) (acc : list Note * list string)
  : Prop :=
  snd acc = map id (fst acc)
  /\ NoDup (snd acc)
  /\ incl (fst acc) done
  /\ incl (map id done) (snd acc).

(** The entry [notesMap.set(note.id, note)] adds for a new id. *)
Definition entryOf (n : Note) : string * Note := (id n, n).

(** A computation that makes at most [n] network calls, whether it
    returns or throws. *)
Definition callsLe {A : Type} (n : nat) (c : M A) : Prop :=
  forall w, netCalls (snd (c w)) <= netCalls w + n.

(** The files of the existing gist as the [try] block of [updateGist]
    obtains them: none when the request fails, is refused, or is answered
    with a body that is not a JSON object. *)
Definition listedFiles (o : FetchOutcome)
  : option (list (string * GistFile)) :=
  match o with
  | Responded existingGist =>
      if ok existingGist then
        match body existingGist with
        | PValue gistData => Some (orEmpty (r_files gistData))
        | _ => None
        end
      else None
  | NetworkError _ => None
  end.

(** A shard file the loop of [getGist] can use: its name carries the
    shard prefix and its content is the text of a JSON object. *)
Definition readableShard (entry : string * GistFile) : bool :=
  String.prefix SHARD_PREFIX (fst entry)
  && match snd entry with
     | FileObj (Some (PValue _)) => true
     | _ => false
     end.

(* ================================================================== *)
(** * Properties *)
(* ================================================================== *)

(** ** Sorting only permutes *)

Section SortFacts.
Context {A : Type}.
Variable comparefn : A -> A -> option Z.

Lemma insert_perm (x : A) (l : list A) :
  Permutation (JS.insert comparefn x l) (x :: l).
Proof.
  induction l as [|y l IH]; simpl.
  - apply Permutation_refl.
  - destruct (JS.le0 (comparefn x y)).
    + apply Permutation_refl.
    + eapply perm_trans; [apply perm_skip, IH | apply perm_swap].
Qed.

Lemma sort_perm (l : list A) : Permutation (JS.sort comparefn l) l.
Proof.
  induction l as [|x l IH]; simpl.
  - constructor.
  - eapply perm_trans; [apply insert_perm | now apply perm_skip].
Qed.

Lemma sort_In (l : list A) (x : A) :
  In x (JS.sort comparefn l) <-> In x l.
Proof.
  split; apply Permutation_in;
    [apply sort_perm | apply Permutation_sym, sort_perm].
Qed.
End SortFacts.

(** ** The sharder keeps every note, in sorted order *)

Section SharderFacts.
Variable noteSize : Note -> N.
Variable baseSize : N.

Lemma held_step st note :
  held (shardStep noteSize baseSize st note) = held st ++ [note].
Proof.
  unfold held, shardStep.
  destruct (_ && _); simpl.
  - rewrite concat_app; simpl. now rewrite app_nil_r.
  - now rewrite app_assoc.
Qed.

Lemma held_loop l st :
  held (shardLoop noteSize baseSize l st) = held st ++ l.
Proof.
  revert st; induction l as [|n l IH]; intros st; simpl.
  - now rewrite app_nil_r.
  - unfold shardLoop in *. simpl.
    rewrite IH, held_step, <- app_assoc. reflexivity.
Qed.

Lemma concat_nonempty_default (L : list (list Note)) :
  concat (if (0 <? length L)%nat then L else [[]]) = concat L.
Proof. destruct L; reflexivity. Qed.

Lemma shardNotes_concat notes :
  concat (shardNotes noteSize baseSize notes)
  = JS.sort byTimestampDesc notes.
Proof.
  unfold shardNotes.
  rewrite concat_nonempty_default.
  set (st := shardLoop _ _ _ _).
  assert (H : held st = JS.sort byTimestampDesc notes).
  { unfold st. now rewrite held_loop. }
  unfold held in H. rewrite <- H.
  destruct (currentShard st) as [|c cs]; simpl.
  - now rewrite app_nil_r.
  - rewrite concat_app. simpl. now rewrite app_nil_r.
Qed.

Lemma shardNotes_perm notes :
  Permutation (concat (shardNotes noteSize baseSize notes)) notes.
Proof. rewrite shardNotes_concat. apply sort_perm. Qed.

End SharderFacts.

(** ** Shard recombination *)

Section MergeShardsFacts.
Context {T : Type}.

Lemma mergeStep_allNotes (acc : MergeLoop T) s :
  allNotes (mergeStep acc s) = allNotes acc ++ carried s.
Proof.
  unfold mergeStep, carried; simpl.
  destruct (sd_notes s); [reflexivity | now rewrite app_nil_r].
Qed.

Lemma mergeLoop_allNotes l (acc : MergeLoop T) :
  allNotes (fold_left mergeStep l acc)
  = allNotes acc ++ concat (map carried l).
Proof.
  revert acc; induction l as [|s l IH]; intros acc; simpl.
  - now rewrite app_nil_r.
  - rewrite IH, mergeStep_allNotes, <- app_assoc. reflexivity.
Qed.

Lemma shardFilesFrom_carried now (data : Snapshot T) count i shards :
  map carried (shardFilesFrom now data count i shards) = shards.
Proof.
  revert i; induction shards as [|s rest IH]; intros i; simpl.
  - reflexivity.
  - now rewrite IH.
Qed.

Lemma mergeShards_shardFiles_notes now (data : Snapshot T) shards :
  notes (mergeShards (shardFiles now data shards))
  = dedup (concat shards).
Proof.
  unfold mergeShards, shardFiles; simpl.
  rewrite mergeLoop_allNotes, shardFilesFrom_carried. reflexivity.
Qed.
End MergeShardsFacts.

Lemma set_has_In k s : JS.set_has k s = true <-> In k s.
Proof.
  unfold JS.set_has. rewrite existsb_exists. split.
  - intros (x & Hx & E). apply String.eqb_eq in E. now subst.
  - intros H. exists k. split; [assumption | apply String.eqb_refl].
Qed.

Lemma dedup_fold_nodup l : forall u,
  NoDup (map id (u ++ l)) ->
  fold_left dedupStep l (u, map id u) = (u ++ l, map id (u ++ l)).
Proof.
  induction l as [|n l IH]; intros u Hnd; simpl.
  - now rewrite app_nil_r.
  - assert (Hfresh : JS.set_has (id n) (map id u) = false).
    { destruct (JS.set_has (id n) (map id u)) eqn:E; [|reflexivity].
      apply set_has_In in E. rewrite map_app in Hnd. simpl in Hnd.
      apply NoDup_remove_2 in Hnd. exfalso. apply Hnd.
      apply in_or_app. now left. }
    rewrite Hfresh. simpl.
    replace (map id u ++ [id n]) with (map id (u ++ [n]))
      by (rewrite map_app; reflexivity).
    rewrite IH.
    + now rewrite <- app_assoc.
    + now rewrite <- app_assoc.
Qed.

Lemma dedup_nodup l : NoDup (map id l) -> dedup l = l.
Proof.
  intros H. unfold dedup.
  change (@nil string) with (map id []).
  rewrite dedup_fold_nodup; [reflexivity | exact H].
Qed.

(** C1. Sharding a notes collection whose ids are unique and recombining
    the shard documents in index order gives back every note of the
    collection exactly once: the recombined notes are a permutation of
    the collection. *)
Theorem shard_merge_roundtrip :
  forall (noteSize : Note -> N) (baseSize : N) (T : Type) (now : string)
         (data : Snapshot T),
    NoDup (map id (notes data)) ->
    Permutation
      (notes (mergeShards
                (shardFiles now data
                   (shardNotes noteSize baseSize (notes data)))))
      (notes data).
Proof.
  intros noteSize baseSize T now data Hnd.
  rewrite mergeShards_shardFiles_notes, shardNotes_concat.
  rewrite dedup_nodup.
  - apply sort_perm.
  - eapply Permutation_NoDup; [|exact Hnd].
    apply Permutation_map, Permutation_sym, sort_perm.
Qed.

Lemma shard_merge_roundtrip_witness :
  let N := [appNote "1700000000001" "a" "2024-01-01T00:00:00.000Z";
            appNote "1700000000002" "b" "2024-01-02T00:00:00.000Z";
            stampedNote "3" "c" 5] in
  let data := mkSnapshot N ([] : list CustomTag) [] None "1.0" in
  NoDup (map id N) /\
  Permutation
    (notes (mergeShards
              (shardFiles "2024-02-01T00:00:00.000Z" data
                 (shardNotes (fun _ => 400000%N) 150%N N))))
    N.
Proof.
  intros N data.
  assert (Hnd : NoDup (map id N)).
  { simpl. repeat constructor; simpl; intuition discriminate. }
  split; [exact Hnd|].
  exact (shard_merge_roundtrip (fun _ => 400000%N) 150%N CustomTag
           "2024-02-01T00:00:00.000Z" data Hnd).
Defined.

(** ** An oversized note sits alone in its shard *)

Section OversizedFacts.
Variable noteSize : Note -> N.
Variable baseSize : N.

Lemma sumSize_app l1 l2 :
  sumSize noteSize (l1 ++ l2)
  = (sumSize noteSize l1 + sumSize noteSize l2)%N.
Proof. induction l1 as [|x l1 IH]; simpl; [reflexivity | lia]. Qed.

Lemma sumSize_In n l : In n l -> (noteSize n <= sumSize noteSize l)%N.
Proof.
  induction l as [|x l IH]; simpl; [tauto|].
  intros [-> | H]; [lia | specialize (IH H); lia].
Qed.

Lemma loopInv_step st note :
  loopInv noteSize st -> loopInv noteSize (shardStep noteSize baseSize st note).
Proof.
  intros (Hsz & Hsh & Hcur). unfold shardStep.
  destruct (MAX_SHARD_SIZE <? currentSize st + noteSize note + baseSize)%N
    eqn:Eover; simpl;
    [destruct (0 <? length (currentShard st))%nat eqn:Elen; simpl|].
  - (* the current shard is closed and the note opens a new one *)
    repeat split; simpl.
    + lia.
    + intros s n Hin Hn Hns. apply in_app_or in Hin.
      destruct Hin as [Hin | [<- | []]]; eauto.
    + intros n _ [<- | []]. reflexivity.
  - (* the current shard is empty: the note opens it *)
    destruct (currentShard st) as [|c cs]; [|discriminate]. simpl in *.
    repeat split; simpl.
    + lia.
    + exact Hsh.
    + intros n _ [<- | []]. reflexivity.
  - (* the note fits: no note of the shard is oversized *)
    apply N.ltb_ge in Eover.
    repeat split; simpl.
    + rewrite sumSize_app. simpl. lia.
    + exact Hsh.
    + intros n Hn Hin. exfalso. unfold oversized in Hn.
      apply in_app_or in Hin. destruct Hin as [Hin | [<- | []]].
      * apply sumSize_In in Hin. lia.
      * lia.
Qed.

Lemma loopInv_loop l : forall st,
  loopInv noteSize st -> loopInv noteSize (shardLoop noteSize baseSize l st).
Proof.
  induction l as [|n l IH]; intros st H; simpl; [exact H|].
  apply IH, loopInv_step, H.
Qed.

Lemma shardNotes_alone notes s n :
  In s (shardNotes noteSize baseSize notes) ->
  oversized noteSize n -> In n s -> s = [n].
Proof.
  unfold shardNotes.
  set (st := shardLoop _ _ _ _).
  assert (Hinv : loopInv noteSize st).
  { apply loopInv_loop. repeat split; simpl; intros; tauto. }
  destruct Hinv as (_ & Hsh & Hcur).
  set (L := if (0 <? length (currentShard st))%nat then _ else _).
  assert (HL : forall s', In s' L -> oversized noteSize n -> In n s' -> s' = [n]).
  { unfold L. intros s' Hs' Hn Hin.
    destruct (0 <? length (currentShard st))%nat; [|eauto].
    apply in_app_or in Hs'. destruct Hs' as [Hs' | [<- | []]]; eauto. }
  destruct (0 <? length L)%nat; [exact (HL s)|].
  intros [<- | []] _ [].
Qed.

Lemma count_alone (L : list (list Note)) n :
  (forall s, In s L -> In n s -> s = [n]) ->
  count_occ (list_eq_dec Note_eq_dec) L [n]
  = count_occ Note_eq_dec (concat L) n.
Proof.
  induction L as [|s L IH]; intros H; simpl; [reflexivity|].
  rewrite count_occ_app, <- IH by (intros; apply H; simpl; auto).
  destruct (list_eq_dec Note_eq_dec s [n]) as [-> | Hne].
  - simpl. destruct (Note_eq_dec n n); [reflexivity | contradiction].
  - assert (Hnot : ~ In n s) by (intros Hin; apply Hne, H; simpl; auto).
    apply (count_occ_not_In Note_eq_dec) in Hnot. rewrite Hnot.
    reflexivity.
Qed.
End OversizedFacts.

(** C7. A note whose serialised size alone exceeds the per-shard limit
    is never split or packed with others: every shard that contains it
    is the singleton of that note, and there are exactly as many such
    shards as the note has occurrences in the collection (one, for a
    note that occurs once). *)
Theorem oversized_note_alone :
  forall (noteSize : Note -> N) (baseSize : N) (notes : list Note)
         (n : Note),
    (MAX_SHARD_SIZE < noteSize n)%N ->
    (forall s, In s (shardNotes noteSize baseSize notes) ->
               In n s -> s = [n])
    /\ count_occ (list_eq_dec Note_eq_dec)
                 (shardNotes noteSize baseSize notes) [n]
       = count_occ Note_eq_dec notes n.
Proof.
  intros noteSize baseSize notes n Hbig.
  assert (Halone : forall s, In s (shardNotes noteSize baseSize notes) ->
                             In n s -> s = [n]).
  { intros s Hs Hn. eapply shardNotes_alone; eauto. }
  split; [exact Halone|].
  rewrite count_alone by exact Halone.
  apply Permutation_count_occ, shardNotes_perm.
Qed.

Lemma oversized_note_alone_witness :
  let big := appNote "2" "big" "2024-01-02T00:00:00.000Z" in
  let N := [appNote "1" "a" "2024-01-01T00:00:00.000Z"; big;
            appNote "3" "c" "2024-01-03T00:00:00.000Z"] in
  (MAX_SHARD_SIZE < sizeByContent big)%N
  /\ (forall s, In s (shardNotes sizeByContent 150%N N) ->
                In big s -> s = [big])
  /\ count_occ (list_eq_dec Note_eq_dec)
               (shardNotes sizeByContent 150%N N) [big]
     = count_occ Note_eq_dec N big.
Proof.
  intros big N.
  assert (Hbig : (MAX_SHARD_SIZE < sizeByContent big)%N)
    by (vm_compute; reflexivity).
  split; [exact Hbig|].
  exact (oversized_note_alone sizeByContent 150%N N big Hbig).
Defined.

Example shardNotes_three :
  let big := appNote "2" "big" "u" in
  shardNotes sizeByContent 150%N [appNote "1" "a" "u"; big; appNote "3" "c" "u"]
  = [[appNote "1" "a" "u"]; [big]; [appNote "3" "c" "u"]].
Proof. vm_compute. reflexivity. Qed.

Example shardNotes_empty : shardNotes sizeByContent 150%N [] = [[]].
Proof. reflexivity. Qed.

(** ** Which shard decides the tags, the colours and the sync time *)

Lemma str_gt_irrefl t : JS.str_gt t t = false.
Proof.
  unfold JS.str_gt, String.ltb.
  assert (E : String.compare t t = Eq)
    by (now apply OrderedTypeEx.String_as_OT.cmp_eq).
  now rewrite E.
Qed.

Lemma str_gt_true a b :
  JS.str_gt a b = true <-> OrderedTypeEx.String_as_OT.lt b a.
Proof.
  unfold JS.str_gt, String.ltb.
  rewrite <- OrderedTypeEx.String_as_OT.cmp_lt.
  unfold OrderedTypeEx.String_as_OT.cmp.
  destruct (String.compare b a); split; congruence.
Qed.

(** [x <= l < t] gives [x <= t]. *)
Lemma str_gt_chain x l t :
  JS.str_gt x l = false -> JS.str_gt t l = true -> JS.str_gt x t = false.
Proof.
  intros Hxl Htl.
  destruct (JS.str_gt x t) eqn:E; [|reflexivity].
  apply str_gt_true in E. apply str_gt_true in Htl.
  assert (H : JS.str_gt x l = true).
  { apply str_gt_true.
    eapply OrderedTypeEx.String_as_OT.lt_trans; eassumption. }
  congruence.
Qed.

Lemma truthy_str_Some t : JS.truthy_str (Some t) = true <-> t <> "".
Proof. destruct t; simpl; split; congruence. Qed.

Section MergeFieldsFacts.
Context {T : Type}.

Let init : MergeLoop T := mkMerge [] [] [] None.

Lemma mergeShards_snoc (l : list (ShardData T)) s :
  fold_left mergeStep (l ++ [s]) init
  = mergeStep (fold_left mergeStep l init) s.
Proof. now rewrite fold_left_app. Qed.

Lemma mergeLoop_customTags (l : list (ShardData T)) : forall acc,
  m_customTags (fold_left mergeStep l acc)
  = match lastPresent sd_customTags l with
    | Some c => c
    | None => m_customTags acc
    end.
Proof.
  induction l as [|s l IH]; intros acc; simpl; [reflexivity|].
  rewrite IH. destruct (lastPresent sd_customTags l); [reflexivity|].
  simpl. destruct (sd_customTags s); reflexivity.
Qed.

Lemma mergeLoop_tagColors (l : list (ShardData T)) : forall acc,
  m_tagColors (fold_left mergeStep l acc)
  = match lastPresent sd_tagColors l with
    | Some c => c
    | None => m_tagColors acc
    end.
Proof.
  induction l as [|s l IH]; intros acc; simpl; [reflexivity|].
  rewrite IH. destruct (lastPresent sd_tagColors l); [reflexivity|].
  simpl. destruct (sd_tagColors s); reflexivity.
Qed.

(** The sync time kept so far is one a shard carries, and no shard
    carries a later one. *)
Lemma mergeLoop_latest (l : list (ShardData T)) :
  let r := latestSyncTime (fold_left mergeStep l init) in
  (forall t, r = Some t ->
     t <> "" /\ exists s, In s l /\ sd_syncTime s = Some t)
  /\ (forall s t', In s l -> sd_syncTime s = Some t' -> t' <> "" ->
        exists t, r = Some t /\ JS.str_gt t' t = false).
Proof.
  induction l as [|s l IH] using rev_ind; simpl.
  - split; [intros t H; discriminate | intros s t' []].
  - rewrite mergeShards_snoc.
    destruct IH as [IHa IHb].
    set (acc := fold_left mergeStep l init) in *.
    assert (Hin : forall x, In x l -> In x (l ++ [s]))
      by (intros; apply in_or_app; now left).
    assert (Hlast : In s (l ++ [s]))
      by (apply in_or_app; right; simpl; auto).
    unfold mergeStep; simpl.
    destruct (sd_syncTime s) as [t|] eqn:Es; simpl.
    + destruct t as [|c t0]; simpl.
      * (* an empty sync time is skipped *)
        split.
        -- intros t Ht. destruct (IHa t Ht) as (Hne & x & Hx & Ex).
           split; [exact Hne | exists x; auto].
        -- intros x t' Hx Ex Hne. apply in_app_or in Hx.
           destruct Hx as [Hx | [<- | []]]; [eauto | congruence].
      * set (t := String c t0) in *.
        assert (Hne : t <> "") by (unfold t; congruence).
        destruct (latestSyncTime acc) as [cur|] eqn:Ecur.
        -- destruct (IHa cur eq_refl) as (Hcur & x & Hx & Ex).
           destruct cur as [|cc cur0]; [congruence|].
           set (cur := String cc cur0) in *.
           cbn [negb orb JS.str_gt_opt JS.truthy_str].
           destruct (JS.str_gt t cur) eqn:Egt.
           ++ split.
              ** intros t1 [= <-]. split; [exact Hne | exists s; auto].
              ** intros y t' Hy Ey Hne'. exists t. split; [reflexivity|].
                 apply in_app_or in Hy. destruct Hy as [Hy | [<- | []]].
                 --- destruct (IHb y t' Hy Ey Hne') as (t2 & [= <-] & Hle).
                     eapply str_gt_chain; eassumption.
                 --- rewrite Es in Ey. injection Ey as <-.
                     apply str_gt_irrefl.
           ++ split.
              ** intros t1 [= <-].
                 split; [exact Hcur | exists x; auto].
              ** intros y t' Hy Ey Hne'. exists cur. split; [reflexivity|].
                 apply in_app_or in Hy. destruct Hy as [Hy | [<- | []]].
                 --- destruct (IHb y t' Hy Ey Hne') as (t2 & [= <-] & Hle).
                     exact Hle.
                 --- rewrite Es in Ey. injection Ey as <-. exact Egt.
        -- split.
           ++ intros t1 [= <-]. split; [exact Hne | exists s; auto].
           ++ intros y t' Hy Ey Hne'. exists t. split; [reflexivity|].
              apply in_app_or in Hy. destruct Hy as [Hy | [<- | []]].
              ** destruct (IHb y t' Hy Ey Hne') as (t2 & Habs & _).
                 discriminate.
              ** rewrite Es in Ey. injection Ey as <-.
                 apply str_gt_irrefl.
    + (* no sync time in this shard *)
      split.
      * intros t Ht. destruct (IHa t Ht) as (Hne & x & Hx & Ex).
        split; [exact Hne | exists x; auto].
      * intros x t' Hx Ex Hne. apply in_app_or in Hx.
        destruct Hx as [Hx | [<- | []]]; [eauto | congruence].
Qed.
End MergeFieldsFacts.

(** C4 (as amended). In [mergeShards] the last shard that carries
    [customTags], respectively [tagColors], decides that field of the
    combined snapshot (the empty collection when no shard carries it);
    [syncTime] is not the last but the greatest sync time carried: it is
    carried by some shard and no shard carries a later one; and a shard
    in which a field is absent leaves the value adopted so far. *)
Theorem mergeShards_fields :
  forall (T : Type) (l : list (ShardData T)),
    customTags (mergeShards l) = orEmpty (lastPresent sd_customTags l)
    /\ tagColors (mergeShards l) = orEmpty (lastPresent sd_tagColors l)
    /\ (forall t, syncTime (mergeShards l) = Some t ->
          exists s, In s l /\ sd_syncTime s = Some t)
    /\ (forall s t', In s l -> sd_syncTime s = Some t' -> t' <> "" ->
          exists t, syncTime (mergeShards l) = Some t
                    /\ JS.str_gt t' t = false)
    /\ (forall s, sd_customTags s = None ->
          customTags (mergeShards (l ++ [s])) = customTags (mergeShards l))
    /\ (forall s, sd_tagColors s = None ->
          tagColors (mergeShards (l ++ [s])) = tagColors (mergeShards l))
    /\ (forall s, sd_syncTime s = None ->
          syncTime (mergeShards (l ++ [s])) = syncTime (mergeShards l)).
Proof.
  intros T l. unfold mergeShards; simpl.
  destruct (mergeLoop_latest l) as [Ha Hb].
  repeat split.
  - rewrite mergeLoop_customTags.
    destruct (lastPresent sd_customTags l); reflexivity.
  - rewrite mergeLoop_tagColors.
    destruct (lastPresent sd_tagColors l); reflexivity.
  - intros t Ht. now destruct (Ha t Ht).
  - exact Hb.
  - intros s Hs. rewrite fold_left_app. simpl. now rewrite Hs.
  - intros s Hs. rewrite fold_left_app. simpl. now rewrite Hs.
  - intros s Hs. rewrite fold_left_app. simpl. now rewrite Hs.
Qed.

(** C4 as stated fails for [syncTime]: with the later sync time in the
    first of two shards, the combined snapshot keeps it and not the
    value of the last shard. *)
Lemma mergeShards_syncTime_not_last :
  lastPresent sd_syncTime [shardFeb; shardJan]
  = Some "2024-01-01T00:00:00.000Z"
  /\ syncTime (mergeShards [shardFeb; shardJan])
     = Some "2024-02-01T00:00:00.000Z"
  /\ syncTime (mergeShards [shardFeb; shardJan])
     <> lastPresent sd_syncTime [shardFeb; shardJan].
Proof.
  repeat split; try reflexivity.
  vm_compute. discriminate.
Qed.

(** ** The notes map of [mergeNotes] *)

Section MapFacts.
Context {V : Type}.
Implicit Types (m : list (string * V)) (k : string) (v : V).

Lemma map_get_set_eq m k v : JS.map_get k (JS.map_set k v m) = Some v.
Proof.
  induction m as [|[k' v'] m IH]; simpl.
  - now rewrite String.eqb_refl.
  - destruct (String.eqb k' k) eqn:E; simpl; rewrite E; auto.
Qed.

Lemma map_get_set_neq m k k' v :
  k <> k' -> JS.map_get k' (JS.map_set k v m) = JS.map_get k' m.
Proof.
  intros Hne. induction m as [|[k0 v0] m IH]; simpl.
  - apply String.eqb_neq in Hne. now rewrite Hne.
  - destruct (String.eqb k0 k) eqn:E; simpl.
    + apply String.eqb_eq in E. subst k0.
      apply String.eqb_neq in Hne. now rewrite Hne.
    + now rewrite IH.
Qed.

Lemma map_get_None m k : JS.map_get k m = None <-> ~ In k (map fst m).
Proof.
  induction m as [|[k' v'] m IH]; simpl; [tauto|].
  destruct (String.eqb k' k) eqn:E.
  - apply String.eqb_eq in E. split; [discriminate | tauto].
  - apply String.eqb_neq in E. rewrite IH. tauto.
Qed.

Lemma map_get_In m k v : JS.map_get k m = Some v -> In (k, v) m.
Proof.
  induction m as [|[k' v'] m IH]; simpl; [discriminate|].
  destruct (String.eqb k' k) eqn:E.
  - apply String.eqb_eq in E. intros [= ->]. subst. now left.
  - auto.
Qed.

Lemma In_map_get m k v :
  NoDup (map fst m) -> In (k, v) m -> JS.map_get k m = Some v.
Proof.
  induction m as [|[k' v'] m IH]; simpl; [tauto|].
  intros Hnd [[= -> ->] | Hin].
  - now rewrite String.eqb_refl.
  - inversion Hnd as [|? ? Hnotin Hnd']; subst.
    destruct (String.eqb k' k) eqn:E; [|auto].
    apply String.eqb_eq in E. subst k'. exfalso. apply Hnotin.
    change k with (fst (k, v)). now apply in_map.
Qed.

Lemma map_set_keys m k v :
  map fst (JS.map_set k v m)
  = match JS.map_get k m with
    | Some _ => map fst m
    | None => map fst m ++ [k]
    end.
Proof.
  induction m as [|[k' v'] m IH]; simpl; [reflexivity|].
  destruct (String.eqb k' k) eqn:E; simpl; [reflexivity|].
  rewrite IH. now destruct (JS.map_get k m).
Qed.

Lemma map_set_NoDup m k v :
  NoDup (map fst m) -> NoDup (map fst (JS.map_set k v m)).
Proof.
  intros Hnd. rewrite map_set_keys.
  destruct (JS.map_get k m) eqn:E; [exact Hnd|].
  apply map_get_None in E.
  apply NoDup_app; [exact Hnd | repeat constructor; simpl; tauto |].
  intros x Hx [<- | []]. contradiction.
Qed.

Lemma map_set_In m k v k' v' :
  In (k', v') (JS.map_set k v m) -> (k', v') = (k, v) \/ In (k', v') m.
Proof.
  induction m as [|[k0 v0] m IH]; simpl.
  - intros [H | []]. now left.
  - destruct (String.eqb k0 k) eqn:E; simpl.
    + apply String.eqb_eq in E. subst k0.
      intros [H | H]; [now left | right; now right].
    + intros [H | H]; [right; now left|].
      destruct (IH H); [now left | right; now right].
Qed.
End MapFacts.

(** ** Note reconciliation *)

Lemma wfMap_nil : wfMap [].
Proof. split; [constructor | intros k v []]. Qed.

Lemma wfMap_set m note : wfMap m -> wfMap (JS.map_set (id note) note m).
Proof.
  intros [Hnd Hk]. split; [now apply map_set_NoDup|].
  intros k v Hin. apply map_set_In in Hin.
  destruct Hin as [[= -> ->] | Hin]; [reflexivity | now apply Hk].
Qed.

Lemma wfMap_seedStep m note : wfMap m -> wfMap (seedStep m note).
Proof. apply wfMap_set. Qed.

Lemma wfMap_cloudStep m note : wfMap m -> wfMap (cloudStep m note).
Proof.
  intros H. unfold cloudStep.
  destruct (JS.map_get (id note) m) as [existing|];
    [destruct (JS.gt _ _)|]; auto using wfMap_set.
Qed.

Lemma wfMap_fold (f : list (string * Note) -> Note -> list (string * Note)) :
  (forall m n, wfMap m -> wfMap (f m n)) ->
  forall l m, wfMap m -> wfMap (fold_left f l m).
Proof.
  intros Hf l. induction l as [|n l IH]; intros m H; simpl; auto.
Qed.

Lemma wfMap_notesMapOf X Y : wfMap (notesMapOf X Y).
Proof.
  unfold notesMapOf.
  apply wfMap_fold; [apply wfMap_cloudStep|].
  apply wfMap_fold; [apply wfMap_seedStep | apply wfMap_nil].
Qed.

Lemma drawnFrom_set X Y m note :
  In note X \/ In note Y -> drawnFrom X Y m ->
  drawnFrom X Y (JS.map_set (id note) note m).
Proof.
  intros Hn Hm k v Hin. apply map_set_In in Hin.
  destruct Hin as [[= -> ->] | Hin]; [exact Hn | eapply Hm; eauto].
Qed.

Lemma drawnFrom_seed X Y l : forall m,
  incl l X -> drawnFrom X Y m -> drawnFrom X Y (fold_left seedStep l m).
Proof.
  induction l as [|n l IH]; intros m Hl Hm; simpl; [exact Hm|].
  apply IH; [intros x Hx; apply Hl; now right|].
  apply drawnFrom_set; [left; apply Hl; now left | exact Hm].
Qed.

Lemma drawnFrom_cloud X Y l : forall m,
  incl l Y -> drawnFrom X Y m -> drawnFrom X Y (fold_left cloudStep l m).
Proof.
  induction l as [|n l IH]; intros m Hl Hm; simpl; [exact Hm|].
  apply IH; [intros x Hx; apply Hl; now right|].
  assert (Hn : In n X \/ In n Y) by (right; apply Hl; now left).
  unfold cloudStep.
  destruct (JS.map_get (id n) m) as [existing|];
    [destruct (JS.gt _ _)|]; auto using drawnFrom_set.
Qed.

Lemma drawnFrom_notesMapOf X Y : drawnFrom X Y (notesMapOf X Y).
Proof.
  unfold notesMapOf.
  apply drawnFrom_cloud; [apply incl_refl|].
  apply drawnFrom_seed; [apply incl_refl | intros k v []].
Qed.

Lemma keyed_ids m : keyed m -> map id (JS.map_values m) = map fst m.
Proof.
  unfold JS.map_values. induction m as [|[k v] m IH]; intros Hk; simpl.
  - reflexivity.
  - rewrite IH by (intros k' v' H; apply Hk; now right).
    f_equal. symmetry. apply Hk. now left.
Qed.

Lemma values_In m v :
  wfMap m -> (In v (JS.map_values m) <-> JS.map_get (id v) m = Some v).
Proof.
  intros [Hnd Hk]. unfold JS.map_values. rewrite in_map_iff. split.
  - intros ([k v'] & E & Hin). simpl in E. subst v'.
    rewrite (Hk _ _ Hin) in Hin. now apply In_map_get.
  - intros H. exists (id v, v). split; [reflexivity | now apply map_get_In].
Qed.

Lemma mergeNotes_ids_NoDup X Y : NoDup (map id (mergeNotes X Y)).
Proof.
  unfold mergeNotes. destruct (wfMap_notesMapOf X Y) as [Hnd Hk].
  eapply Permutation_NoDup.
  - apply Permutation_map, Permutation_sym, sort_perm.
  - rewrite keyed_ids by exact Hk. exact Hnd.
Qed.

Lemma mergeNotes_In_drawn X Y note :
  In note (mergeNotes X Y) -> In note X \/ In note Y.
Proof.
  unfold mergeNotes. intros Hin. apply sort_In in Hin.
  unfold JS.map_values in Hin. apply in_map_iff in Hin.
  destruct Hin as ([k v] & E & Hin). simpl in E. subst v.
  eapply drawnFrom_notesMapOf; eauto.
Qed.

(** C10. The output of [mergeNotes] holds every note id at most once,
    and every note of the output is a note of the local or of the cloud
    collection, unchanged. *)
Theorem mergeNotes_unique_and_drawn :
  forall (localNotes cloudNotes : list Note),
    NoDup (map id (mergeNotes localNotes cloudNotes))
    /\ (forall note, In note (mergeNotes localNotes cloudNotes) ->
                     In note localNotes \/ In note cloudNotes).
Proof.
  intros X Y. split.
  - apply mergeNotes_ids_NoDup.
  - intros note. apply mergeNotes_In_drawn.
Qed.

(** *** Lookups after the cloud loop, one key at a time *)

Lemma seedStep_get m note k :
  JS.map_get k (seedStep m note)
  = if String.eqb (id note) k then Some note else JS.map_get k m.
Proof.
  unfold seedStep. destruct (String.eqb (id note) k) eqn:E.
  - apply String.eqb_eq in E. subst k. apply map_get_set_eq.
  - apply String.eqb_neq in E. now apply map_get_set_neq.
Qed.

Lemma cloudStep_get m note k :
  JS.map_get k (cloudStep m note) = resolveStep k (JS.map_get k m) note.
Proof.
  unfold cloudStep, resolveStep.
  destruct (String.eqb (id note) k) eqn:E.
  - apply String.eqb_eq in E. subst k.
    destruct (JS.map_get (id note) m) as [existing|] eqn:Eg.
    + destruct (JS.gt _ _); [apply map_get_set_eq | exact Eg].
    + apply map_get_set_eq.
  - apply String.eqb_neq in E.
    destruct (JS.map_get (id note) m) as [existing|];
      [destruct (JS.gt _ _)|]; auto using map_get_set_neq.
Qed.

Lemma cloudLoop_get l : forall m k,
  JS.map_get k (fold_left cloudStep l m) = resolve k l (JS.map_get k m).
Proof.
  induction l as [|n l IH]; intros m k; simpl; [reflexivity|].
  unfold resolve in *. simpl. now rewrite IH, cloudStep_get.
Qed.

Lemma gt_trans a b c :
  JS.gt a b = true -> JS.gt b c = true -> JS.gt a c = true.
Proof.
  destruct a, b, c; simpl; try discriminate.
  rewrite !Z.ltb_lt. lia.
Qed.

Lemma gt_irrefl a : JS.gt a a = false.
Proof. destruct a; simpl; [apply Z.ltb_irrefl | reflexivity]. Qed.

(** A present entry is only ever replaced by a strictly later note. *)
Lemma resolve_Some k l : forall x,
  exists v, resolve k l (Some x) = Some v
            /\ (v = x \/ JS.gt (timestamp v) (timestamp x) = true).
Proof.
  induction l as [|n l IH]; intros x; simpl.
  - exists x. auto.
  - unfold resolve in *. simpl. unfold resolveStep at 2.
    destruct (String.eqb (id n) k); [|apply IH].
    destruct (JS.gt (timestamp n) (timestamp x)) eqn:E; [|apply IH].
    destruct (IH n) as (v & Hv & [Ev | Hgt]); exists v; split; auto.
    + right. now subst v.
    + right. eapply gt_trans; eauto.
Qed.

Lemma resolve_absent k l e :
  (forall n, In n l -> id n <> k) -> resolve k l e = e.
Proof.
  revert e. induction l as [|n l IH]; intros e H; simpl; [reflexivity|].
  unfold resolve in *. simpl. unfold resolveStep at 2.
  assert (E : String.eqb (id n) k = false)
    by (apply String.eqb_neq, H; now left).
  rewrite E. apply IH. intros; apply H; now right.
Qed.

Lemma resolve_single l v e :
  NoDup (map id l) -> In v l ->
  resolve (id v) l e = resolveStep (id v) e v.
Proof.
  revert e. induction l as [|n l IH]; intros e Hnd Hin; [destruct Hin|].
  inversion Hnd as [|? ? Hnotin Hnd']; subst.
  unfold resolve in *. simpl. destruct Hin as [E | Hin].
  - subst n. apply (resolve_absent (id v) l). intros n Hn E. apply Hnotin.
    rewrite <- E. now apply in_map.
  - rewrite <- (IH e Hnd' Hin). f_equal.
    unfold resolveStep.
    assert (E : String.eqb (id n) (id v) = false).
    { apply String.eqb_neq. intros E. apply Hnotin. rewrite E.
      now apply in_map. }
    now rewrite E.
Qed.

(** Merging the local notes with an earlier merge result leaves every
    entry of the notes map as it was. *)
Lemma notesMapOf_again_get X Y k :
  JS.map_get k (notesMapOf X (mergeNotes X Y))
  = JS.map_get k (notesMapOf X Y).
Proof.
  pose proof (wfMap_notesMapOf X Y) as Hwf.
  pose proof (mergeNotes_ids_NoDup X Y) as Hnd.
  unfold notesMapOf at 1. rewrite cloudLoop_get.
  set (e := JS.map_get k (fold_left seedStep X [])).
  assert (HA : JS.map_get k (notesMapOf X Y) = resolve k Y e)
    by (unfold notesMapOf; apply cloudLoop_get).
  assert (Hmem : forall n, In n (mergeNotes X Y) <->
                           JS.map_get (id n) (notesMapOf X Y) = Some n).
  { intros n. unfold mergeNotes. rewrite sort_In. now apply values_In. }
  destruct (JS.map_get k (notesMapOf X Y)) as [v|] eqn:EA.
  - assert (Hid : id v = k).
    { destruct Hwf as [_ Hk]. symmetry. apply Hk. now apply map_get_In. }
    subst k. assert (Hin : In v (mergeNotes X Y)) by now apply Hmem.
    rewrite (resolve_single _ v e Hnd Hin).
    unfold resolveStep. rewrite String.eqb_refl.
    destruct e as [x|]; [|reflexivity].
    destruct (resolve_Some (id v) Y x) as (v' & Hv' & Hcase).
    rewrite <- HA in Hv'. injection Hv' as <-.
    destruct Hcase as [-> | Hgt]; [now rewrite gt_irrefl | now rewrite Hgt].
  - rewrite resolve_absent.
    + destruct e as [x|]; [|reflexivity].
      destruct (resolve_Some k Y x) as (v' & Hv' & _). congruence.
    + intros n Hn E. apply Hmem in Hn. rewrite E in Hn. congruence.
Qed.

Lemma same_entries_perm (m1 m2 : list (string * Note)) :
  wfMap m1 -> wfMap m2 ->
  (forall k, JS.map_get k m1 = JS.map_get k m2) ->
  Permutation (JS.map_values m1) (JS.map_values m2).
Proof.
  intros [Hnd1 _] [Hnd2 _] Hget. unfold JS.map_values.
  apply Permutation_map, NoDup_Permutation.
  - eapply NoDup_map_inv; eauto.
  - eapply NoDup_map_inv; eauto.
  - intros [k v]. split; intros Hin.
    + apply map_get_In. rewrite <- Hget. now apply In_map_get.
    + apply map_get_In. rewrite Hget. now apply In_map_get.
Qed.

(** C3. [mergeNotes] is idempotent: merging the local notes with the
    result of an earlier merge gives the same notes as that merge, up to
    order. *)
Theorem mergeNotes_idempotent :
  forall (X Y : list Note),
    Permutation (mergeNotes X (mergeNotes X Y)) (mergeNotes X Y).
Proof.
  intros X Y. unfold mergeNotes at 1 3.
  eapply perm_trans; [apply sort_perm|].
  eapply perm_trans; [|apply Permutation_sym, sort_perm].
  apply same_entries_perm; try apply wfMap_notesMapOf.
  intros k. apply notesMapOf_again_get.
Qed.

(** *** Id collisions *)

Lemma seedLoop_absent l k : forall m,
  (forall n, In n l -> id n <> k) ->
  JS.map_get k (fold_left seedStep l m) = JS.map_get k m.
Proof.
  induction l as [|n l IH]; intros m H; simpl; [reflexivity|].
  rewrite IH by (intros; apply H; now right).
  rewrite seedStep_get.
  assert (E : String.eqb (id n) k = false)
    by (apply String.eqb_neq, H; now left).
  now rewrite E.
Qed.

Lemma seedLoop_unique l v : forall m,
  NoDup (map id l) -> In v l ->
  JS.map_get (id v) (fold_left seedStep l m) = Some v.
Proof.
  induction l as [|n l IH]; intros m Hnd Hin; [destruct Hin|].
  inversion Hnd as [|? ? Hnotin Hnd']; subst. simpl.
  destruct Hin as [E | Hin].
  - subst n. rewrite seedLoop_absent.
    + rewrite seedStep_get. now rewrite String.eqb_refl.
    + intros n Hn E. apply Hnotin. rewrite <- E. now apply in_map.
  - now apply IH.
Qed.

(** What the code does at an id collision, when ids are unique within
    each collection: the cloud note replaces the local one exactly when
    both carry a numeric [timestamp] and the cloud one is strictly
    greater; in every other case (equal timestamps, or a [timestamp]
    missing on either side) the local note stays. *)
Lemma mergeNotes_collision_by_timestamp X Y l r :
  NoDup (map id X) -> NoDup (map id Y) ->
  In l X -> In r Y -> id l = id r ->
  forall note, id note = id l ->
    (In note (mergeNotes X Y) <->
     note = (if JS.gt (timestamp r) (timestamp l) then r else l)).
Proof.
  intros HX HY Hl Hr Hid note Hn.
  unfold mergeNotes. rewrite sort_In.
  rewrite values_In by apply wfMap_notesMapOf.
  unfold notesMapOf. rewrite cloudLoop_get, Hn.
  rewrite (seedLoop_unique X l [] HX Hl), Hid.
  rewrite (resolve_single Y r _ HY Hr).
  unfold resolveStep. rewrite String.eqb_refl.
  destruct (JS.gt (timestamp r) (timestamp l)); split; congruence.
Qed.

(** C2 fails on the notes the application itself produces.  The local
    and the cloud version of one note differ in [updatedAt], the cloud
    one being the later; neither has a [timestamp], the property
    [mergeNotes] compares; the merge keeps the older local version and
    drops the later cloud version. *)
Theorem mergeNotes_ignores_updatedAt :
  id localJan = id cloudJun
  /\ String.ltb (updatedAt localJan) (updatedAt cloudJun) = true
  /\ mergeNotes [localJan] [cloudJun] = [localJan]
  /\ ~ In cloudJun (mergeNotes [localJan] [cloudJun]).
Proof.
  repeat split; try reflexivity.
  vm_compute. intros [H | []]. discriminate.
Qed.

Example mergeNotes_scenario :
  mergeNotes [stampedNote "1" "l" 2]
             [stampedNote "1" "r" 1; stampedNote "2" "r" 3]
  = [stampedNote "2" "r" 3; stampedNote "1" "l" 2].
Proof. vm_compute. reflexivity. Qed.

(** ** The result contract *)

Section MonadFacts.
Context {A B : Type}.

Lemma bind_Returned (c : M A) (k : A -> M B) w b w' :
  bind c k w = (Returned b, w') ->
  exists a w0, c w = (Returned a, w0) /\ k a w0 = (Returned b, w').
Proof.
  unfold bind. destruct (c w) as [[a|e] w0]; [eauto | discriminate].
Qed.

Lemma bind_eq (c : M A) (k : A -> M B) w a w0 :
  c w = (Returned a, w0) -> bind c k w = k a w0.
Proof. unfold bind. now intros ->. Qed.

Lemma bind_throw (c : M A) (k : A -> M B) w e w0 :
  c w = (Thrown e, w0) -> bind c k w = (Thrown e, w0).
Proof. unfold bind. now intros ->. Qed.
End MonadFacts.

(** A [try] whose handler is [failure] always returns a result record:
    the one of its body, or [{success: false, message: error.message}]. *)
Lemma tryCatch_failure (c : M SyncResult) w :
  exists r w',
    tryCatch c failure w = (Returned r, w')
    /\ (c w = (Returned r, w')
        \/ exists e, c w = (Thrown e, w')
                     /\ r = mkResult false (message e) None None).
Proof.
  unfold tryCatch, failure, ret.
  destruct (c w) as [[r|e] w']; eauto 7.
Qed.

(** C9. Every public sync operation of every backend returns a result
    record, with its boolean [success] and its [message], in every world
    and whatever the network, the remote and the storage quota do: no
    thrown error leaves the operation. *)
Theorem sync_operations_always_return :
  forall (env : Env) (w : World),
    (exists r w', CloudSyncManager.syncUp env w = (Returned r, w'))
    /\ (exists r w', CloudSyncManager.syncDown env w = (Returned r, w'))
    /\ (exists r w', CloudSyncManagerV0.syncUp env w = (Returned r, w'))
    /\ (exists r w', CloudSyncManagerV0.syncDown env w = (Returned r, w'))
    /\ (exists r w', WebDAVSyncManager.syncUp env w = (Returned r, w'))
    /\ (exists r w', WebDAVSyncManager.syncDown env w = (Returned r, w')).
Proof.
  intros env w.
  repeat split;
    match goal with
    | |- exists r w', ?op env w = _ =>
        unfold op;
        match goal with
        | |- exists r w', tryCatch ?c failure w = _ =>
            destruct (tryCatch_failure c w) as (r & w' & H & _);
            exists r, w'; exact H
        end
    end.
Qed.

(** ** The download path: what [getGist] hands to [syncDown] *)

Section HeapFacts.
Context {A : Type}.

Lemma allocFrom_val (l : list A) : forall a, map val (allocFrom a l) = l.
Proof. induction l as [|x l IH]; intros a; simpl; [|rewrite IH]; auto. Qed.

Lemma allocFrom_addr (l : list A) : forall a,
  map addr (allocFrom a l) = seq a (length l).
Proof. induction l as [|x l IH]; intros a; simpl; [|rewrite IH]; auto. Qed.

Lemma allocFrom_range (l : list A) a o :
  In o (allocFrom a l) -> a <= addr o < a + length l.
Proof.
  intros H. apply (in_map addr) in H.
  rewrite allocFrom_addr in H. now apply in_seq in H.
Qed.

Lemma allocFrom_NoDup (l : list A) a : NoDup (map addr (allocFrom a l)).
Proof. rewrite allocFrom_addr. apply seq_NoDup. Qed.

(** A [Set] built from distinct objects keeps them all. *)
Lemma uniqueByAddr_distinct (l : list (Obj A)) : forall seen,
  NoDup (map addr l) ->
  (forall o, In o l -> ~ In (addr o) seen) ->
  uniqueByAddr seen l = l.
Proof.
  induction l as [|o l IH]; intros seen Hnd Hseen; simpl; [reflexivity|].
  inversion Hnd as [|? ? Hnotin Hnd']; subst.
  destruct (existsb (Nat.eqb (addr o)) seen) eqn:E.
  - apply existsb_exists in E. destruct E as (x & Hx & E).
    apply Nat.eqb_eq in E. subst x.
    exfalso. apply (Hseen o); simpl; auto.
  - f_equal. apply IH; [exact Hnd'|].
    intros o' Ho' [E' | Hin].
    + apply Hnotin. rewrite E'. now apply in_map.
    + apply (Hseen o'); simpl; auto.
Qed.
End HeapFacts.

Lemma goodData_mono h h' d : h <= h' -> goodData h d -> goodData h' d.
Proof.
  intros Hle Hg tags E. destruct (Hg tags E) as [Hnd Hlt].
  split; [exact Hnd|]. intros o Ho. specialize (Hlt o Ho). lia.
Qed.

(** [parseDoc] never throws, leaves the storage alone and returns the
    document with freshly allocated tag objects. *)
Lemma parseDoc_spec (d : Doc) w :
  exists o w',
    parseDoc d w = (Returned o, w')
    /\ ls w' = ls w /\ heapNext w <= heapNext w'
    /\ goodData (heapNext w') o
    /\ sd_notes o = sd_notes d
    /\ sd_tagColors o = sd_tagColors d
    /\ option_map (map val) (sd_customTags o) = sd_customTags d.
Proof.
  unfold parseDoc. destruct (sd_customTags d) as [tags|] eqn:E.
  - eexists _, _. unfold bind, allocArray, ret. simpl.
    split; [reflexivity|]. split; [reflexivity|].
    split; [apply Nat.le_add_r|].
    split; [|split; [reflexivity|]; split; [reflexivity|]].
    + intros objs [= <-]. split; [apply allocFrom_NoDup|].
      intros o Ho. apply allocFrom_range in Ho. apply Ho.
    + simpl. now rewrite allocFrom_val.
  - eexists _, _. unfold ret.
    split; [reflexivity|]. split; [reflexivity|].
    split; [apply Nat.le_refl|].
    split; [intros objs; discriminate|]. simpl. auto.
Qed.

Lemma allGood_mono h h' l : h <= h' -> allGood h l -> allGood h' l.
Proof.
  intros Hle. unfold allGood. apply Forall_impl.
  intros x. now apply goodData_mono.
Qed.

Lemma collectShard_spec acc entry w :
  exists acc' w',
    CloudSyncManager.collectShard acc entry w = (Returned acc', w')
    /\ ls w' = ls w /\ heapNext w <= heapNext w'
    /\ (allGood (heapNext w) acc -> allGood (heapNext w') acc').
Proof.
  unfold CloudSyncManager.collectShard.
  assert (Hskip : exists acc' w',
            ret acc w = (Returned acc', w')
            /\ ls w' = ls w /\ heapNext w <= heapNext w'
            /\ (allGood (heapNext w) acc -> allGood (heapNext w') acc'))
    by (exists acc, w; unfold ret; auto).
  destruct (String.prefix SHARD_PREFIX (fst entry)); [|exact Hskip].
  destruct (snd entry) as [|[text|]]; try exact Hskip.
  unfold tryCatch, bind.
  destruct text as [| |d]; simpl; try exact Hskip.
  destruct (parseDoc_spec d w) as (o & w' & Hp & Hls & Hh & Hg & _).
  rewrite Hp. unfold ret.
  exists (acc ++ [(CloudSyncManager.shardIndex o, o)]), w'.
  repeat split; auto.
  intros Hacc. apply Forall_app. split.
  - eapply allGood_mono; eauto.
  - constructor; [exact Hg | constructor].
Qed.

Lemma collectLoop_spec files : forall acc w,
  exists found w',
    foldM CloudSyncManager.collectShard files acc w = (Returned found, w')
    /\ ls w' = ls w /\ heapNext w <= heapNext w'
    /\ (allGood (heapNext w) acc -> allGood (heapNext w') found).
Proof.
  induction files as [|entry files IH]; intros acc w; simpl.
  - exists acc, w. unfold ret. auto.
  - destruct (collectShard_spec acc entry w)
      as (acc1 & w1 & H1 & Hls1 & Hh1 & Hg1).
    destruct (IH acc1 w1) as (found & w' & H2 & Hls2 & Hh2 & Hg2).
    exists found, w'. rewrite (bind_eq _ _ _ _ _ H1).
    repeat split; auto; [congruence | lia].
Qed.

Lemma lastPresent_In {A B} (f : A -> option B) l v :
  lastPresent f l = Some v -> exists s, In s l /\ f s = Some v.
Proof.
  induction l as [|s l IH]; simpl; [discriminate|].
  destruct (lastPresent f l) as [v'|] eqn:E.
  - intros [= <-]. destruct (IH eq_refl) as (s' & Hs' & E'). eauto.
  - intros H. eauto.
Qed.

(** The tags of a recombined snapshot are those of one of its shards. *)
Lemma mergeShards_good h (found : list (nat * ShardData (Obj CustomTag))) :
  allGood h found ->
  goodData h (snapshotAsData (mergeShards (map snd found))).
Proof.
  intros Hall tags E. simpl in E. injection E as E.
  rewrite mergeLoop_customTags in E. simpl in E.
  destruct (lastPresent sd_customTags (map snd found)) as [c|] eqn:El.
  - subst c. apply lastPresent_In in El. destruct El as (s & Hs & Es).
    apply in_map_iff in Hs. destruct Hs as (x & <- & Hx).
    unfold allGood in Hall. rewrite Forall_forall in Hall.
    exact (Hall x Hx tags Es).
  - subst tags. split; [constructor | intros o []].
Qed.

Ltac inv_bind H :=
  let a := fresh "a" in
  let w0 := fresh "w" in
  let H0 := fresh "Hstep" in
  apply bind_Returned in H; destruct H as (a & w0 & H0 & H).

Lemma getItem_inv k w v w' :
  getItem k w = (Returned v, w') -> w' = w /\ v = items (ls w) k.
Proof. unfold getItem. intros [= <- <-]. auto. Qed.

Lemma doFetch_inv env req w r w' :
  doFetch env req w = (Returned r, w') ->
  ls w' = ls w /\ heapNext w' = heapNext w
  /\ fetch env (netCalls w) req = Responded r.
Proof.
  unfold doFetch. destruct (fetch env (netCalls w) req) as [e|r0];
    intros [= <- <-]; auto.
Qed.

Lemma parsed_inv {A} (p : Parsed A) w v w' :
  parsed p w = (Returned v, w') ->
  w' = w /\ (p = PNull /\ v = None \/ exists a, p = PValue a /\ v = Some a).
Proof.
  destruct p; unfold parsed, ret, throw; intros [= <- <-]; eauto.
Qed.

Lemma deref_inv {A} (o : option A) w v w' :
  deref o w = (Returned v, w') -> w' = w /\ o = Some v.
Proof.
  destruct o; unfold deref, ret, throw; intros [= <- <-]; auto.
Qed.

(** The single-file branch shared by both Gist managers. *)
Lemma wholeFile_inv (content : option (Parsed Doc)) w d w1 :
  match content with
  | Some text =>
      doc <- parsed text ;;
      match doc with
      | Some d => o <- parseDoc d ;; ret (Some o)
      | None => ret None
      end
  | None => throw "SyntaxError: Unexpected token in JSON"
  end w = (Returned (Some d), w1) ->
  ls w1 = ls w /\ goodData (heapNext w1) d.
Proof.
  destruct content as [text|]; [|discriminate].
  intros H. inv_bind H. apply parsed_inv in Hstep.
  destruct Hstep as [-> [[_ ->] | (x & _ & ->)]]; [discriminate|].
  inv_bind H. injection H as <- <-.
  destruct (parseDoc_spec x w) as (o & w' & Hp & Hls & _ & Hg & _).
  rewrite Hp in Hstep. injection Hstep as <- <-. auto.
Qed.

(** [getGist] only reads the storage, and the tag objects of the data it
    returns are distinct objects allocated during the call. *)
Lemma getGist_inv env w d w1 :
  CloudSyncManager.getGist env w = (Returned (Some d), w1) ->
  ls w1 = ls w /\ goodData (heapNext w1) d.
Proof.
  unfold CloudSyncManager.getGist, CloudSyncManager.getToken. intros H.
  inv_bind H. apply getItem_inv in Hstep as [-> _].
  inv_bind H. apply getItem_inv in Hstep as [-> _].
  destruct (negb (JS.truthy_str a)); [discriminate|].
  destruct (negb (JS.truthy_str a0)); [discriminate|].
  inv_bind H. apply doFetch_inv in Hstep as (Hls & Hh & _).
  destruct (negb (ok a1)).
  { inv_bind H. discriminate. }
  inv_bind H. apply parsed_inv in Hstep as [-> _].
  inv_bind H. apply deref_inv in Hstep as [-> _].
  inv_bind H.
  destruct (collectLoop_spec (orEmpty (r_files a3)) [] w0)
    as (found & w' & Hf & Hls' & Hh' & Hg).
  rewrite Hf in Hstep. injection Hstep as <- <-.
  destruct (length found =? 0)%nat.
  - inv_bind H. apply deref_inv in Hstep as [-> _].
    destruct (JS.map_get fileName a4) as [[|content]|]; try discriminate.
    apply wholeFile_inv in H. destruct H as [Hls1 Hg1].
    split; [congruence | exact Hg1].
  - injection H as <- <-. split; [congruence|].
    apply mergeShards_good.
    assert (Hs : allGood (heapNext w') found) by (apply Hg; constructor).
    unfold allGood in *. rewrite Forall_forall in *.
    intros x Hx. apply Hs. now apply sort_In in Hx.
Qed.

Lemma getGistV0_inv env w d w1 :
  CloudSyncManagerV0.getGist env w = (Returned (Some d), w1) ->
  ls w1 = ls w /\ goodData (heapNext w1) d.
Proof.
  unfold CloudSyncManagerV0.getGist, CloudSyncManagerV0.getToken. intros H.
  inv_bind H. apply getItem_inv in Hstep as [-> _].
  inv_bind H. apply getItem_inv in Hstep as [-> _].
  destruct (negb (JS.truthy_str a)); [discriminate|].
  destruct (negb (JS.truthy_str a0)); [discriminate|].
  inv_bind H. apply doFetch_inv in Hstep as (Hls & Hh & _).
  destruct (negb (ok a1)); [discriminate|].
  inv_bind H. apply parsed_inv in Hstep as [-> _].
  inv_bind H. apply deref_inv in Hstep as [-> _].
  inv_bind H. apply deref_inv in Hstep as [-> _].
  destruct (JS.map_get fileName a4) as [[|content]|]; try discriminate.
  apply wholeFile_inv in H. destruct H as [Hls1 Hg1].
  split; [congruence | exact Hg1].
Qed.

(** ** What the download saves *)

Create HintDb keeps.

Section KeepsFacts.
Context {X : Type} (proj : LocalStorage -> X).

Lemma keeps_ret {A} (a : A) : keeps proj (ret a).
Proof. intros w. reflexivity. Qed.

Lemma keeps_throw {A} msg : keeps proj (@throw A msg).
Proof. intros w. reflexivity. Qed.

Lemma keeps_bind {A B} (c : M A) (k : A -> M B) :
  keeps proj c -> (forall a, keeps proj (k a)) -> keeps proj (bind c k).
Proof.
  intros Hc Hk w. unfold bind. specialize (Hc w).
  destruct (c w) as [[a|e] w0]; simpl in *; [|exact Hc].
  now rewrite Hk.
Qed.

Lemma keeps_tryCatch {A} (c : M A) h :
  keeps proj c -> (forall e, keeps proj (h e)) ->
  keeps proj (tryCatch c h).
Proof.
  intros Hc Hh w. unfold tryCatch. specialize (Hc w).
  destruct (c w) as [[a|e] w0]; simpl in *; [exact Hc|].
  now rewrite Hh.
Qed.

Lemma keeps_failure e : keeps proj (failure e).
Proof. apply keeps_ret. Qed.

Lemma keeps_getNotes : keeps proj getNotes.
Proof. intros w. reflexivity. Qed.

Lemma keeps_setItem env k v :
  (forall f l, proj (withItems f l) = proj l) ->
  keeps proj (setItem env k v).
Proof.
  intros H w. unfold setItem. destruct (quota_ok env k); simpl; auto.
Qed.
End KeepsFacts.

Lemma keeps_notes_saveCustomTags env ts :
  keeps ls_notes (saveCustomTags env ts).
Proof.
  intros w. unfold saveCustomTags.
  destruct (quota_ok env CUSTOM_TAGS_KEY); reflexivity.
Qed.

Lemma keeps_notes_setTagColors env c : keeps ls_notes (setTagColors env c).
Proof.
  intros w. unfold setTagColors.
  destruct (quota_ok env TAG_COLORS_KEY); reflexivity.
Qed.

Lemma keeps_tags_setTagColors env c :
  keeps ls_customTags (setTagColors env c).
Proof.
  intros w. unfold setTagColors.
  destruct (quota_ok env TAG_COLORS_KEY); reflexivity.
Qed.

#[local] Hint Resolve keeps_ret keeps_throw keeps_failure keeps_getNotes
  keeps_notes_saveCustomTags keeps_notes_setTagColors
  keeps_tags_setTagColors : keeps.

Ltac keeps_tac :=
  repeat first
    [ apply keeps_bind; [|intros ?]
    | apply keeps_tryCatch; [|intros ?]
    | apply keeps_setItem; reflexivity
    | solve [auto with keeps]
    | match goal with
      | |- keeps _ (match ?x with _ => _ end) => destruct x
      end ].

Lemma snd_tryCatch_failure (c : M SyncResult) w :
  snd (tryCatch c failure w) = snd (c w).
Proof. unfold tryCatch. destruct (c w) as [[r|e] w']; reflexivity. Qed.

Lemma snd_bind {A B} (c : M A) (k : A -> M B) w a w0 :
  c w = (Returned a, w0) -> snd (bind c k w) = snd (k a w0).
Proof. intros H. now rewrite (bind_eq _ _ _ _ _ H). Qed.

(** After the notes are saved, the rest of [syncDown] leaves them. *)
Lemma saved_notes_stay {A} env (ns : list Note) (k : unit -> M A) w :
  quota_ok env STORAGE_KEY = true ->
  (forall u, keeps ls_notes (k u)) ->
  ls_notes (ls (snd (bind (saveNotes env ns) k w))) = Some ns.
Proof.
  intros Hq Hk. unfold bind, saveNotes. rewrite Hq. now rewrite Hk.
Qed.

Lemma saved_tags_stay {A} env (ts : list (Obj CustomTag))
  (k : unit -> M A) w :
  quota_ok env CUSTOM_TAGS_KEY = true ->
  (forall u, keeps ls_customTags (k u)) ->
  ls_customTags (ls (snd (bind (saveCustomTags env ts) k w)))
  = Some (map val ts).
Proof.
  intros Hq Hk. unfold bind, saveCustomTags. rewrite Hq. now rewrite Hk.
Qed.

Lemma sharded_syncDown_notes env w d w1 cloudNotes :
  CloudSyncManager.getGist env w = (Returned (Some d), w1) ->
  sd_notes d = Some cloudNotes ->
  quota_ok env STORAGE_KEY = true ->
  ls_notes (ls (snd (CloudSyncManager.syncDown env w)))
  = Some (mergeNotes (orEmpty (ls_notes (ls w))) cloudNotes).
Proof.
  intros Hg Hn Hq. destruct (getGist_inv _ _ _ _ Hg) as [Hls _].
  unfold CloudSyncManager.syncDown. rewrite snd_tryCatch_failure.
  rewrite (snd_bind _ _ _ _ _ Hg).
  erewrite snd_bind by reflexivity.
  erewrite snd_bind by reflexivity.
  erewrite snd_bind by reflexivity.
  rewrite Hn, <- Hls.
  apply saved_notes_stay; [exact Hq|].
  intros _. unfold CloudSyncManager.updateLastSyncTime. keeps_tac.
Qed.

Lemma sharded_syncDown_tags env w d w1 cloudTags :
  CloudSyncManager.getGist env w = (Returned (Some d), w1) ->
  sd_customTags d = Some cloudTags ->
  quota_ok env CUSTOM_TAGS_KEY = true ->
  ls_customTags (ls (snd (CloudSyncManager.syncDown env w)))
  = Some (orEmpty (ls_customTags (ls w)) ++ map val cloudTags).
Proof.
  intros Hg Ht Hq. destruct (getGist_inv _ _ _ _ Hg) as [Hls Hgood].
  destruct (Hgood cloudTags Ht) as [Hnd Hlt].
  unfold CloudSyncManager.syncDown. rewrite snd_tryCatch_failure.
  rewrite (snd_bind _ _ _ _ _ Hg).
  erewrite snd_bind by reflexivity.
  erewrite snd_bind by reflexivity.
  erewrite snd_bind by reflexivity.
  rewrite Ht.
  set (stored := orEmpty (ls_customTags (ls w1))).
  set (localTags := allocFrom (heapNext w1) stored).
  assert (Hset : uniqueByAddr [] (localTags ++ cloudTags)
                 = localTags ++ cloudTags).
  { apply uniqueByAddr_distinct; [|intros o _ []].
    rewrite map_app. apply NoDup_app.
    - apply allocFrom_NoDup.
    - exact Hnd.
    - intros a Ha Hc. apply in_map_iff in Ha. destruct Ha as (o & <- & Ho).
      apply in_map_iff in Hc. destruct Hc as (o' & E & Ho').
      apply allocFrom_range in Ho. specialize (Hlt o' Ho'). lia. }
  rewrite Hset.
  assert (Hval : map val (localTags ++ cloudTags)
                 = orEmpty (ls_customTags (ls w)) ++ map val cloudTags).
  { rewrite map_app. unfold localTags. rewrite allocFrom_val.
    unfold stored. now rewrite Hls. }
  rewrite <- Hval.
  assert (Htail : forall w3,
    ls_customTags (ls (snd (bind
      (saveCustomTags env (localTags ++ cloudTags))
      (fun _ =>
         match sd_tagColors d with
         | Some colors => setTagColors env colors
         | None => ret tt
         end ;;;
         CloudSyncManager.updateLastSyncTime env ;;;
         ns <- getNotes ;;
         ret (mkResult true
                ("合并成功！共 " ++ string_of_nat (length ns)
                   ++ " 条笔记")%string None None)) w3)))
    = Some (map val (localTags ++ cloudTags))).
  { intros w3. apply saved_tags_stay; [exact Hq|].
    intros _. unfold CloudSyncManager.updateLastSyncTime. keeps_tac. }
  destruct (sd_notes d) as [cloudNotes|].
  - unfold bind at 1, saveNotes.
    destruct (quota_ok env STORAGE_KEY); apply Htail.
  - unfold bind at 1, ret at 1. apply Htail.
Qed.

Lemma v0_syncDown_notes env w d w1 cloudNotes :
  CloudSyncManagerV0.getGist env w = (Returned (Some d), w1) ->
  sd_notes d = Some cloudNotes ->
  quota_ok env STORAGE_KEY = true ->
  ls_notes (ls (snd (CloudSyncManagerV0.syncDown env w))) = Some cloudNotes.
Proof.
  intros Hg Hn Hq.
  unfold CloudSyncManagerV0.syncDown. rewrite snd_tryCatch_failure.
  rewrite (snd_bind _ _ _ _ _ Hg).
  erewrite snd_bind by reflexivity.
  rewrite Hn.
  apply saved_notes_stay; [exact Hq|].
  intros _. unfold CloudSyncManagerV0.updateLastSyncTime. keeps_tac.
Qed.

Lemma v0_syncDown_tags env w d w1 cloudTags :
  CloudSyncManagerV0.getGist env w = (Returned (Some d), w1) ->
  sd_customTags d = Some cloudTags ->
  quota_ok env CUSTOM_TAGS_KEY = true ->
  ls_customTags (ls (snd (CloudSyncManagerV0.syncDown env w)))
  = Some (map val cloudTags).
Proof.
  intros Hg Ht Hq.
  unfold CloudSyncManagerV0.syncDown. rewrite snd_tryCatch_failure.
  rewrite (snd_bind _ _ _ _ _ Hg).
  erewrite snd_bind by reflexivity.
  rewrite Ht.
  assert (Htail : forall w3,
    ls_customTags (ls (snd (bind
      (saveCustomTags env cloudTags)
      (fun _ =>
         CloudSyncManagerV0.updateLastSyncTime env ;;;
         ret (mkResult true "下载成功！" None None)) w3)))
    = Some (map val cloudTags)).
  { intros w3. apply saved_tags_stay; [exact Hq|].
    intros _. unfold CloudSyncManagerV0.updateLastSyncTime. keeps_tac. }
  destruct (sd_notes d) as [cloudNotes|].
  - unfold bind at 1, saveNotes.
    destruct (quota_ok env STORAGE_KEY); apply Htail.
  - unfold bind at 1, ret at 1. apply Htail.
Qed.

Lemma doFetch_eq env req w r :
  fetch env (netCalls w) req = Responded r ->
  doFetch env req w
  = (Returned r, mkWorld (ls w) (heapNext w) (S (netCalls w))).
Proof. unfold doFetch. now intros ->. Qed.

Lemma webdav_syncDown_saved env w cfg auth response obj :
  WebDAVSyncManager.getConfig w = (Returned cfg, w) ->
  WebDAVSyncManager.isConnected w = (Returned true, w) ->
  WebDAVSyncManager.getAuthHeader env w = (Returned auth, w) ->
  fetch env (netCalls w)
        (mkRequest "GET" (WebDAVSyncManager.server cfg ++ fileName)%string
                   NoBody) = Responded response ->
  ok response = true ->
  body response = PValue obj ->
  (forall ns, sd_notes (r_doc obj) = Some ns ->
     quota_ok env STORAGE_KEY = true ->
     ls_notes (ls (snd (WebDAVSyncManager.syncDown env w))) = Some ns)
  /\ (forall ts, sd_customTags (r_doc obj) = Some ts ->
        quota_ok env CUSTOM_TAGS_KEY = true ->
        ls_customTags (ls (snd (WebDAVSyncManager.syncDown env w)))
        = Some ts).
Proof.
  intros Hcfg Hconn Hauth Hfetch Hok Hbody.
  set (w1 := mkWorld (ls w) (heapNext w) (S (netCalls w))).
  destruct (parseDoc_spec (r_doc obj) w1)
    as (o & w2 & Hp & Hls & _ & _ & Hnotes & _ & Htags).
  assert (Hrun : snd (WebDAVSyncManager.syncDown env w)
    = snd ((match sd_notes o with
            | Some ns => saveNotes env ns
            | None => ret tt
            end ;;;
            match sd_customTags o with
            | Some tags => saveCustomTags env tags
            | None => ret tt
            end ;;;
            match sd_tagColors o with
            | Some colors => setTagColors env colors
            | None => ret tt
            end ;;;
            WebDAVSyncManager.updateLastSyncTime env ;;;
            ret (mkResult true "下载成功！" None None)) w2)).
  { unfold WebDAVSyncManager.syncDown. rewrite snd_tryCatch_failure.
    rewrite (snd_bind _ _ _ _ _ Hcfg).
    rewrite (snd_bind _ _ _ _ _ Hconn). cbn [negb].
    rewrite (snd_bind _ _ _ _ _ Hauth).
    rewrite (snd_bind _ _ _ _ _ (doFetch_eq _ _ _ _ Hfetch)).
    rewrite Hok, Hbody.
    erewrite snd_bind by reflexivity.
    erewrite snd_bind by reflexivity.
    rewrite (snd_bind _ _ _ _ _ Hp). reflexivity. }
  rewrite Hrun. split.
  - intros ns Hn Hq. rewrite Hnotes, Hn.
    apply saved_notes_stay; [exact Hq|].
    intros _. unfold WebDAVSyncManager.updateLastSyncTime. keeps_tac.
  - intros ts Ht Hq. rewrite <- Htags in Ht.
    destruct (sd_customTags o) as [tags|]; [|discriminate].
    injection Ht as Ht. rewrite <- Ht.
    assert (Htail : forall w3,
      ls_customTags (ls (snd (bind
        (saveCustomTags env tags)
        (fun _ =>
           match sd_tagColors o with
           | Some colors => setTagColors env colors
           | None => ret tt
           end ;;;
           WebDAVSyncManager.updateLastSyncTime env ;;;
           ret (mkResult true "下载成功！" None None)) w3)))
      = Some (map val tags)).
    { intros w3. apply saved_tags_stay; [exact Hq|].
      intros _. unfold WebDAVSyncManager.updateLastSyncTime. keeps_tac. }
    destruct (sd_notes o) as [cloudNotes|].
    + unfold bind at 1, saveNotes.
      destruct (quota_ok env STORAGE_KEY); apply Htail.
    + unfold bind at 1, ret at 1. apply Htail.
Qed.

(** C5 (as amended). On the download path of the sharded Gist manager
    the notes saved are the merge, by [mergeNotes], of the local notes
    with the notes of the remote; the earliest Gist manager and the
    WebDAV manager save the notes of the remote as they are, in place of
    the local collection. *)
Theorem download_saves_notes :
  forall (env : Env) (w : World),
    (forall d w1 cloudNotes,
       CloudSyncManager.getGist env w = (Returned (Some d), w1) ->
       sd_notes d = Some cloudNotes ->
       quota_ok env STORAGE_KEY = true ->
       ls_notes (ls (snd (CloudSyncManager.syncDown env w)))
       = Some (mergeNotes (orEmpty (ls_notes (ls w))) cloudNotes))
    /\ (forall d w1 cloudNotes,
          CloudSyncManagerV0.getGist env w = (Returned (Some d), w1) ->
          sd_notes d = Some cloudNotes ->
          quota_ok env STORAGE_KEY = true ->
          ls_notes (ls (snd (CloudSyncManagerV0.syncDown env w)))
          = Some cloudNotes)
    /\ (forall cfg auth response obj cloudNotes,
          WebDAVSyncManager.getConfig w = (Returned cfg, w) ->
          WebDAVSyncManager.isConnected w = (Returned true, w) ->
          WebDAVSyncManager.getAuthHeader env w = (Returned auth, w) ->
          fetch env (netCalls w)
                (mkRequest "GET"
                   (WebDAVSyncManager.server cfg ++ fileName)%string NoBody)
          = Responded response ->
          ok response = true ->
          body response = PValue obj ->
          sd_notes (r_doc obj) = Some cloudNotes ->
          quota_ok env STORAGE_KEY = true ->
          ls_notes (ls (snd (WebDAVSyncManager.syncDown env w)))
          = Some cloudNotes).
Proof.
  intros env w. repeat split.
  - intros. eapply sharded_syncDown_notes; eauto.
  - intros. eapply v0_syncDown_notes; eauto.
  - intros cfg auth response obj cloudNotes Hc Hi Ha Hf Hok Hb Hn Hq.
    destruct (webdav_syncDown_saved env w cfg auth response obj
                Hc Hi Ha Hf Hok Hb) as [H _].
    now apply H.
Qed.

Lemma download_saves_notes_witness :
  let w := exWorld [ideaTag] in
  let cfg := WebDAVSyncManager.mkConfig "https://dav.example/" "user"
                                        "secret" in
  (exists d w1,
     CloudSyncManager.getGist (exEnv shardedReply) w
     = (Returned (Some d), w1)
     /\ sd_notes d = Some [cloudNote])
  /\ ls_notes (ls (snd (CloudSyncManager.syncDown (exEnv shardedReply) w)))
     = Some (mergeNotes (orEmpty (ls_notes (ls w))) [cloudNote])
  /\ (exists d w1,
        CloudSyncManagerV0.getGist (exEnv wholeFileReply) w
        = (Returned (Some d), w1)
        /\ sd_notes d = Some [cloudNote])
  /\ ls_notes (ls (snd (CloudSyncManagerV0.syncDown
                          (exEnv wholeFileReply) w)))
     = Some [cloudNote]
  /\ WebDAVSyncManager.getConfig w = (Returned cfg, w)
  /\ WebDAVSyncManager.isConnected w = (Returned true, w)
  /\ ls_notes (ls (snd (WebDAVSyncManager.syncDown (exEnv webdavReply) w)))
     = Some [cloudNote].
Proof.
  intros w cfg.
  destruct (CloudSyncManager.getGist (exEnv shardedReply) w)
    as [[[d|]|e] w1] eqn:E; try (vm_compute in E; discriminate).
  assert (Hn : sd_notes d = Some [cloudNote])
    by (vm_compute in E; injection E as <- <-; reflexivity).
  destruct (CloudSyncManagerV0.getGist (exEnv wholeFileReply) w)
    as [[[d0|]|e0] w0] eqn:E0; try (vm_compute in E0; discriminate).
  assert (Hn0 : sd_notes d0 = Some [cloudNote])
    by (vm_compute in E0; injection E0 as <- <-; reflexivity).
  split; [exists d, w1; split; [reflexivity | exact Hn]|].
  split; [exact (proj1 (download_saves_notes (exEnv shardedReply) w)
                   d w1 [cloudNote] E Hn eq_refl)|].
  split; [exists d0, w0; split; [reflexivity | exact Hn0]|].
  split; [exact (proj1 (proj2 (download_saves_notes (exEnv wholeFileReply) w))
                   d0 w0 [cloudNote] E0 Hn0 eq_refl)|].
  split; [reflexivity|]. split; [reflexivity|].
  exact (proj2 (proj2 (download_saves_notes (exEnv webdavReply) w))
           cfg "Basic user:secret" webdavReply
           (mkRemoteObj None None None remoteDoc) [cloudNote]
           eq_refl eq_refl eq_refl eq_refl eq_refl eq_refl eq_refl eq_refl).
Defined.

(** C5 as stated fails on the WebDAV manager: the device holds one note,
    the remote another; after a successful download the device holds
    the remote note only, where the merge would hold both. *)
Lemma webdav_download_replaces_local :
  let w' := snd (WebDAVSyncManager.syncDown (exEnv webdavReply)
                   (exWorld [workTag])) in
  ls_notes (ls (exWorld [workTag])) = Some [localNote]
  /\ ls_notes (ls w') = Some [cloudNote]
  /\ In localNote (mergeNotes [localNote] [cloudNote])
  /\ ls_notes (ls w') <> Some (mergeNotes [localNote] [cloudNote]).
Proof.
  vm_compute. repeat split; auto. discriminate.
Qed.

(** C6 (as amended). On download the sharded Gist manager saves a
    custom-tag collection that holds every tag definition of the local
    collection and every tag definition of the remote one, and nothing
    else: no local definition is lost.  The earliest Gist manager and
    the WebDAV manager save the remote collection in place of the local
    one. *)
Theorem download_saves_tags :
  forall (env : Env) (w : World),
    (forall d w1 cloudTags,
       CloudSyncManager.getGist env w = (Returned (Some d), w1) ->
       sd_customTags d = Some cloudTags ->
       quota_ok env CUSTOM_TAGS_KEY = true ->
       exists saved,
         ls_customTags (ls (snd (CloudSyncManager.syncDown env w)))
         = Some saved
         /\ forall t, In t saved <->
                      In t (orEmpty (ls_customTags (ls w)))
                      \/ In t (map val cloudTags))
    /\ (forall d w1 cloudTags,
          CloudSyncManagerV0.getGist env w = (Returned (Some d), w1) ->
          sd_customTags d = Some cloudTags ->
          quota_ok env CUSTOM_TAGS_KEY = true ->
          ls_customTags (ls (snd (CloudSyncManagerV0.syncDown env w)))
          = Some (map val cloudTags))
    /\ (forall cfg auth response obj cloudTags,
          WebDAVSyncManager.getConfig w = (Returned cfg, w) ->
          WebDAVSyncManager.isConnected w = (Returned true, w) ->
          WebDAVSyncManager.getAuthHeader env w = (Returned auth, w) ->
          fetch env (netCalls w)
                (mkRequest "GET"
                   (WebDAVSyncManager.server cfg ++ fileName)%string NoBody)
          = Responded response ->
          ok response = true ->
          body response = PValue obj ->
          sd_customTags (r_doc obj) = Some cloudTags ->
          quota_ok env CUSTOM_TAGS_KEY = true ->
          ls_customTags (ls (snd (WebDAVSyncManager.syncDown env w)))
          = Some cloudTags).
Proof.
  intros env w. repeat split.
  - intros d w1 cloudTags Hg Ht Hq.
    exists (orEmpty (ls_customTags (ls w)) ++ map val cloudTags).
    split; [eapply sharded_syncDown_tags; eauto|].
    intros t. apply in_app_iff.
  - intros. eapply v0_syncDown_tags; eauto.
  - intros cfg auth response obj cloudTags Hc Hi Ha Hf Hok Hb Ht Hq.
    destruct (webdav_syncDown_saved env w cfg auth response obj
                Hc Hi Ha Hf Hok Hb) as [_ H].
    now apply H.
Qed.

Lemma download_saves_tags_witness :
  let w := exWorld [workTag] in
  let cfg := WebDAVSyncManager.mkConfig "https://dav.example/" "user"
                                        "secret" in
  (exists d w1 cloudTags,
     CloudSyncManager.getGist (exEnv shardedReply) w
     = (Returned (Some d), w1)
     /\ sd_customTags d = Some cloudTags
     /\ map val cloudTags = [ideaTag])
  /\ (exists saved,
        ls_customTags (ls (snd (CloudSyncManager.syncDown
                                 (exEnv shardedReply) w)))
        = Some saved
        /\ In workTag saved /\ In ideaTag saved)
  /\ WebDAVSyncManager.getConfig w = (Returned cfg, w)
  /\ WebDAVSyncManager.isConnected w = (Returned true, w)
  /\ ls_customTags (ls (snd (WebDAVSyncManager.syncDown
                               (exEnv webdavReply) w)))
     = Some [ideaTag].
Proof.
  intros w cfg.
  destruct (CloudSyncManager.getGist (exEnv shardedReply) w)
    as [[[d|]|e] w1] eqn:E; try (vm_compute in E; discriminate).
  destruct (sd_customTags d) as [cloudTags|] eqn:Et;
    [|vm_compute in E; injection E as <- <-; discriminate].
  assert (Hv : map val cloudTags = [ideaTag]).
  { vm_compute in E. injection E as <- <-.
    injection Et as <-. reflexivity. }
  split; [exists d, w1, cloudTags; auto|].
  split.
  { destruct (proj1 (download_saves_tags (exEnv shardedReply) w)
                d w1 cloudTags E Et eq_refl) as (saved & Hs & Hin).
    exists saved. split; [exact Hs|]. split; apply Hin.
    - left. simpl. auto.
    - right. rewrite Hv. simpl. auto. }
  split; [reflexivity|]. split; [reflexivity|].
  exact (proj2 (proj2 (download_saves_tags (exEnv webdavReply) w))
           cfg "Basic user:secret" webdavReply
           (mkRemoteObj None None None remoteDoc) [ideaTag]
           eq_refl eq_refl eq_refl eq_refl eq_refl eq_refl eq_refl eq_refl).
Defined.

(** C6 as stated fails on both paths.  Sharded Gist manager: the device
    and the remote hold the same tag [#idea]; the set is built over
    freshly parsed objects, which are all distinct, so the saved
    collection holds the name twice.  WebDAV manager: the device holds
    [#work], the remote [#idea]; the saved collection is the remote one
    and the local definition is lost. *)
Lemma download_tags_not_a_union_by_name :
  let gistSaved :=
    ls_customTags (ls (snd (CloudSyncManager.syncDown
                              (exEnv shardedReply) (exWorld [ideaTag])))) in
  let davSaved :=
    ls_customTags (ls (snd (WebDAVSyncManager.syncDown
                              (exEnv webdavReply) (exWorld [workTag])))) in
  gistSaved = Some [ideaTag; ideaTag]
  /\ count_occ string_dec (map name (orEmpty gistSaved)) "#idea" = 2
  /\ davSaved = Some [ideaTag]
  /\ ~ In workTag (orEmpty davSaved).
Proof.
  vm_compute. repeat split; auto.
  intros [H | []]. discriminate.
Qed.

(** ** The scheduler keeps at most one timer *)

Module SchedulerFacts.
Import Scheduler.

Lemma parseInt_toString (z : Z) : parseInt (string_of_Z z) = Some z.
Proof.
  unfold parseInt, string_of_Z. rewrite NilZero.isi.
  - simpl. now rewrite DecimalZ.of_to.
  - destruct z; simpl; try discriminate.
    intros [= E]. exact (Unsigned.to_uint_nonnil _ E).
  - destruct z; simpl; try discriminate.
    intros [= E]. exact (Unsigned.to_uint_nonnil _ E).
Qed.

Lemma toString_nonempty (z : Z) : string_of_Z z <> "".
Proof.
  intros E. pose proof (parseInt_toString z) as H.
  rewrite E in H. discriminate.
Qed.

Lemma storedInterval (z : Z) :
  parseInt (orElse (Some (string_of_Z z)) "10") = Some z.
Proof.
  unfold orElse. pose proof (toString_nonempty z) as Hne.
  destruct (string_of_Z z) eqn:E; [congruence|].
  simpl. rewrite <- E. apply parseInt_toString.
Qed.

Lemma wf_init st : wf (init st).
Proof. split; simpl; auto. Qed.

(** After [stopAutoSync] no timer is active and none is remembered. *)
Lemma stop_spec s :
  wf s ->
  autoSyncTimer (stopAutoSync s) = None
  /\ timers (stopAutoSync s) = []
  /\ store (stopAutoSync s) = store s
  /\ nextTimerId (stopAutoSync s) = nextTimerId s.
Proof.
  intros [Hn Ht]. unfold stopAutoSync.
  destruct (autoSyncTimer s) as [t|] eqn:E.
  - destruct Ht as [[Ht1 Ht2] [d Hd]].
    assert (E0 : Nat.eqb t 0 = false) by (apply Nat.eqb_neq; lia).
    rewrite E0. simpl. rewrite Hd. simpl. rewrite Nat.eqb_refl. auto.
  - rewrite E. auto.
Qed.

Lemma wf_stop s : wf s -> wf (stopAutoSync s).
Proof.
  intros H. destruct (stop_spec s H) as (Ha & Ht & _ & Hn).
  split; [rewrite Hn; apply H | now rewrite Ha].
Qed.

(** [startAutoSync] under its guard: one timer, the one remembered,
    with the stored interval as its period, and a fresh id. *)
Lemma start_spec s :
  wf s ->
  isTrue (store s AUTO_SYNC_KEY) = true ->
  isConnected s = true ->
  store (startAutoSync s) = store s
  /\ autoSyncTimer (startAutoSync s) = Some (nextTimerId s)
  /\ timers (startAutoSync s)
     = [(nextTimerId s,
         mul (mul (parseInt (orElse (store s SYNC_INTERVAL_KEY) "10")) 60)
             1000)].
Proof.
  intros H He Hc. destruct (stop_spec s H) as (Ha & Ht & Hs & Hn).
  unfold startAutoSync, isConnected in *.
  rewrite Hs, He, Hc. simpl. rewrite Ht, Hn, Hs. auto.
Qed.

Lemma wf_start s : wf s -> wf (startAutoSync s).
Proof.
  intros H. pose proof (wf_stop s H) as Hstop.
  destruct (stop_spec s H) as (Ha & Ht & Hs & Hn).
  unfold startAutoSync.
  destruct (isTrue _ && isConnected _); [|exact Hstop].
  simpl. rewrite Ht, Hn. destruct H as [H1 _].
  split; simpl; [lia|]. split; [lia | eauto].
Qed.

Lemma wf_store f s :
  wf s -> wf (mkState f (autoSyncTimer s) (timers s) (nextTimerId s)).
Proof. intros H. exact H. Qed.

Lemma wf_run quota_ok c s : wf s -> wf (run quota_ok c s).
Proof.
  intros H. destruct c; simpl.
  - now apply wf_start.
  - now apply wf_stop.
  - unfold setAutoSyncEnabled. destruct (quota_ok _); [|exact H].
    destruct enabled; [apply wf_start | apply wf_stop];
      now apply wf_store.
  - unfold setSyncInterval. destruct (quota_ok _); [|exact H].
    destruct (isTrue _); [apply wf_start|]; now apply wf_store.
  - unfold saveToken. destruct (quota_ok _); [|exact H].
    now apply wf_store.
  - unfold clearToken. now apply wf_store.
  - unfold storageWrite. now apply wf_store.
Qed.

Lemma reachable_wf quota_ok s : reachable quota_ok s -> wf s.
Proof.
  induction 1 as [st | s c _ IH]; [apply wf_init | now apply wf_run].
Qed.

Lemma wf_timers s : wf s -> length (timers s) <= 1.
Proof.
  intros [_ H]. destruct (autoSyncTimer s).
  - destruct H as [_ [d ->]]. simpl. lia.
  - rewrite H. simpl. lia.
Qed.

(** Restarting drops every timer that was active. *)
Lemma start_cancels s t d :
  wf s -> In (t, d) (timers s) ->
  ~ In t (map fst (timers (startAutoSync s))).
Proof.
  intros H Hin.
  destruct (stop_spec s H) as (Ha & Ht & Hs & Hn).
  assert (Hlt : t < nextTimerId s).
  { destruct H as [_ H]. destruct (autoSyncTimer s).
    - destruct H as [[_ Hlt] [d' Hd]]. rewrite Hd in Hin.
      destruct Hin as [[= <- _] | []]. exact Hlt.
    - rewrite H in Hin. destruct Hin. }
  unfold startAutoSync.
  destruct (isTrue _ && isConnected _).
  - simpl. rewrite Ht, Hn. simpl. intros [E | []]. lia.
  - rewrite Ht. simpl. tauto.
Qed.

(** Two interval changes in a row, auto-sync being on: one timer, with
    the second interval. *)
Lemma interval_twice quota_ok s m1 m2 :
  wf s ->
  isTrue (store s AUTO_SYNC_KEY) = true ->
  isConnected s = true ->
  quota_ok SYNC_INTERVAL_KEY = true ->
  let s2 := setSyncInterval quota_ok m2 (setSyncInterval quota_ok m1 s) in
  exists t,
    timers s2 = [(t, Some (m2 * 60 * 1000)%Z)]
    /\ autoSyncTimer s2 = Some t.
Proof.
  intros H He Hc Hq.
  assert (Hset : forall m s0,
    wf s0 -> isTrue (store s0 AUTO_SYNC_KEY) = true ->
    isConnected s0 = true ->
    let s' := setSyncInterval quota_ok m s0 in
    wf s' /\ isTrue (store s' AUTO_SYNC_KEY) = true
    /\ isConnected s' = true
    /\ timers s' = [(nextTimerId s0, Some (m * 60 * 1000)%Z)]
    /\ autoSyncTimer s' = Some (nextTimerId s0)).
  { intros m s0 H0 He0 Hc0. unfold setSyncInterval. rewrite Hq.
    set (s1 := mkState _ _ _ _).
    assert (H1 : wf s1) by now apply wf_store.
    assert (He1 : isTrue (store s1 AUTO_SYNC_KEY) = true) by exact He0.
    assert (Hc1 : isConnected s1 = true) by exact Hc0.
    rewrite He1. cbv zeta.
    destruct (start_spec s1 H1 He1 Hc1) as (Hs & Ha & Ht).
    repeat split.
    - now apply wf_start.
    - apply wf_start; exact H1.
    - now rewrite Hs.
    - unfold isConnected. now rewrite Hs.
    - rewrite Ht. unfold s1 at 2. simpl store.
      unfold setEntry at 1. rewrite String.eqb_refl.
      rewrite storedInterval. reflexivity.
    - exact Ha. }
  destruct (Hset m1 s H He Hc) as (H1 & He1 & Hc1 & _).
  destruct (Hset m2 _ H1 He1 Hc1) as (_ & _ & _ & Ht2 & Ha2).
  eexists. split; [exact Ht2 | exact Ha2].
Qed.
End SchedulerFacts.

(** C8. In every state the scheduler can reach, at most one auto-sync
    timer is active.  Starting it again cancels every timer that was
    active before the new one is created; and with auto-sync on and a
    token stored, setting the interval twice leaves exactly one active
    timer, the one the manager remembers, whose period is the second
    interval (in milliseconds), for a second interval whose milliseconds
    are a safe integer. *)
Theorem at_most_one_timer :
  forall (quota_ok : string -> bool) (s : Scheduler.State),
    Scheduler.reachable quota_ok s ->
    length (Scheduler.timers s) <= 1
    /\ (forall t d,
          In (t, d) (Scheduler.timers s) ->
          ~ In t (map fst (Scheduler.timers (Scheduler.startAutoSync s))))
    /\ length (Scheduler.timers (Scheduler.startAutoSync s)) <= 1
    /\ (forall m1 m2,
          Scheduler.isTrue (Scheduler.store s AUTO_SYNC_KEY) = true ->
          Scheduler.isConnected s = true ->
          quota_ok SYNC_INTERVAL_KEY = true ->
          JS.isSafeInteger (m2 * 60 * 1000) = true ->
          let s2 := Scheduler.setSyncInterval quota_ok m2
                      (Scheduler.setSyncInterval quota_ok m1 s) in
          exists t,
            Scheduler.timers s2 = [(t, Some (m2 * 60 * 1000)%Z)]
            /\ Scheduler.autoSyncTimer s2 = Some t).
Proof.
  intros quota_ok s Hreach.
  pose proof (SchedulerFacts.reachable_wf quota_ok s Hreach) as Hwf.
  split; [now apply SchedulerFacts.wf_timers|].
  split; [intros t d; now apply SchedulerFacts.start_cancels|].
  split; [apply SchedulerFacts.wf_timers, SchedulerFacts.wf_start, Hwf|].
  intros m1 m2 He Hc Hq _. now apply SchedulerFacts.interval_twice.
Qed.

Lemma at_most_one_timer_witness :
  let q := fun _ : string => true in
  let s := Scheduler.run q (Scheduler.SetSyncInterval 5)
             (Scheduler.init autoItems) in
  Scheduler.reachable q s
  /\ Scheduler.timers s = [(1, Some 300000%Z)]
  /\ length (Scheduler.timers s) <= 1
  /\ Scheduler.timers
       (Scheduler.setSyncInterval q 30 (Scheduler.setSyncInterval q 15 s))
     = [(3, Some 1800000%Z)].
Proof.
  intros q s.
  assert (Hr : Scheduler.reachable q s)
    by (apply Scheduler.reach_call, Scheduler.reach_init).
  destruct (at_most_one_timer q s Hr) as (H1 & _ & _ & H4).
  split; [exact Hr|]. split; [reflexivity|]. split; [exact H1|].
  destruct (H4 15%Z 30%Z eq_refl eq_refl eq_refl eq_refl) as (t & Ht & _).
  reflexivity.
Defined.

Lemma mergeShards_fields_witness :
  let l := [shardFeb; shardJan] in
  let bare : ShardData CustomTag :=
    mkShardData (Some []) None None None None None in
  sd_syncTime bare = None
  /\ syncTime (mergeShards (l ++ [bare])) = syncTime (mergeShards l)
  /\ customTags (mergeShards l) = orEmpty (lastPresent sd_customTags l).
Proof.
  intros l bare.
  destruct (mergeShards_fields CustomTag l)
    as (Hc & _ & _ & _ & _ & _ & Hs).
  split; [reflexivity|]. split; [apply Hs; reflexivity | exact Hc].
Defined.

(* ================================================================== *)
(** * Further properties of the code *)
(* ================================================================== *)

(** ** The shape and the size of the shards *)

Section ShardShape.
Variable noteSize : Note -> N.
Variable baseSize : N.

Lemma shapeInv_step st note :
  shapeInv noteSize baseSize st -> shapeInv noteSize baseSize (shardStep noteSize baseSize st note).
Proof.
  intros (Hsz & Hsh & Hcur). unfold shardStep.
  destruct (MAX_SHARD_SIZE <? currentSize st + noteSize note + baseSize)%N
    eqn:Eover; simpl;
    [destruct (0 <? length (currentShard st))%nat eqn:Elen; simpl|].
  - repeat split; simpl.
    + lia.
    + apply Forall_app. split; [exact Hsh|].
      constructor; [|constructor]. split; [|exact Hcur].
      intros E. rewrite E in Elen. discriminate.
    + left. simpl. lia.
  - destruct (currentShard st) as [|c cs]; [|discriminate]. simpl in *.
    repeat split; simpl; [lia | exact Hsh | left; simpl; lia].
  - apply N.ltb_ge in Eover. repeat split; simpl.
    + rewrite sumSize_app. simpl. lia.
    + exact Hsh.
    + right. rewrite sumSize_app. simpl. lia.
Qed.

Lemma shapeInv_loop l : forall st,
  shapeInv noteSize baseSize st -> shapeInv noteSize baseSize (shardLoop noteSize baseSize l st).
Proof.
  induction l as [|n l IH]; intros st H; simpl; [exact H|].
  apply IH, shapeInv_step, H.
Qed.

Lemma shardNotes_cases notes :
  exists L,
    Forall (fun s => s <> [] /\ fits noteSize baseSize s) L
    /\ shardNotes noteSize baseSize notes
       = (if (0 <? length L)%nat then L else [[]]).
Proof.
  set (st := shardLoop noteSize baseSize
               (JS.sort byTimestampDesc notes) (mkLoop [] [] 0%N)).
  exists (if (0 <? length (currentShard st))%nat
          then shards st ++ [currentShard st] else shards st).
  split; [|reflexivity].
  assert (Hinv : shapeInv noteSize baseSize st).
  { apply shapeInv_loop.
    repeat split; simpl; [constructor | left; simpl; lia]. }
  destruct Hinv as (_ & Hsh & Hcur).
  destruct (currentShard st) as [|c cs] eqn:Ec; simpl; [exact Hsh|].
  apply Forall_app. split; [exact Hsh|].
  constructor; [|constructor]. split; [discriminate | exact Hcur].
Qed.
End ShardShape.

(** X1. [shardNotes] always returns at least one shard; for an empty
    collection it returns the single empty shard, and for any other
    collection no shard is empty. *)
Theorem shardNotes_shards_nonempty :
  forall (noteSize : Note -> N) (baseSize : N) (notes : list Note),
    shardNotes noteSize baseSize notes <> []
    /\ shardNotes noteSize baseSize [] = [[]]
    /\ (notes <> [] ->
        forall s, In s (shardNotes noteSize baseSize notes) -> s <> []).
Proof.
  intros noteSize baseSize notes.
  destruct (shardNotes_cases noteSize baseSize notes) as (L & HL & Heq).
  split; [|split; [reflexivity|]].
  - rewrite Heq. destruct (0 <? length L)%nat eqn:E;
      [|intros H; discriminate H].
    intros H. rewrite H in E. discriminate.
  - intros Hne s Hs.
    pose proof (shardNotes_concat noteSize baseSize notes) as Hc.
    rewrite Heq in Hs, Hc.
    destruct (0 <? length L)%nat eqn:E.
    + rewrite Forall_forall in HL. now apply HL.
    + exfalso. simpl in Hc. apply Hne.
      apply Permutation_nil. rewrite Hc. apply sort_perm.
Qed.

Lemma shardNotes_shards_nonempty_witness :
  [appNote "1" "a" "u"] <> []
  /\ forall s, In s (shardNotes sizeByContent 150%N [appNote "1" "a" "u"])
               -> s <> [].
Proof.
  assert (H : [appNote "1" "a" "u"] <> []) by discriminate.
  split; [exact H|].
  exact (proj2 (proj2 (shardNotes_shards_nonempty sizeByContent 150%N
                         [appNote "1" "a" "u"])) H).
Defined.

(** X2. Every shard of [shardNotes] respects the limit, the size of the
    empty document included, unless it holds a single note. *)
Theorem shard_within_limit :
  forall (noteSize : Note -> N) (baseSize : N) (notes s : list Note),
    In s (shardNotes noteSize baseSize notes) ->
    length s <= 1
    \/ (sumSize noteSize s + baseSize <= MAX_SHARD_SIZE)%N.
Proof.
  intros noteSize baseSize notes s Hs.
  destruct (shardNotes_cases noteSize baseSize notes) as (L & HL & Heq).
  rewrite Heq in Hs. destruct (0 <? length L)%nat.
  - rewrite Forall_forall in HL. now apply HL.
  - destruct Hs as [<- | []]. left. simpl. lia.
Qed.

Lemma shard_within_limit_witness :
  let a := appNote "1" "a" "u" in
  let b := appNote "2" "b" "u" in
  let c := appNote "3" "c" "u" in
  In [a; b] (shardNotes sizeByContent 150%N [a; b; c])
  /\ (length [a; b] <= 1
      \/ (sumSize sizeByContent [a; b] + 150 <= MAX_SHARD_SIZE)%N).
Proof.
  intros a b c.
  assert (H : In [a; b] (shardNotes sizeByContent 150%N [a; b; c]))
    by (vm_compute; auto).
  split; [exact H|].
  exact (shard_within_limit sizeByContent 150%N [a; b; c] [a; b] H).
Defined.

(** X3. The shards partition the collection: they hold as many notes as
    the collection, and when ids are unique no id occurs twice among
    the shards, in one shard or in two. *)
Theorem shardNotes_partition :
  forall (noteSize : Note -> N) (baseSize : N) (notes : list Note),
    list_sum (map (@length Note) (shardNotes noteSize baseSize notes))
    = length notes
    /\ (NoDup (map id notes) ->
        NoDup (map id (concat (shardNotes noteSize baseSize notes)))).
Proof.
  intros noteSize baseSize notes.
  pose proof (shardNotes_perm noteSize baseSize notes) as Hp.
  split.
  - rewrite <- (Permutation_length Hp), length_concat. reflexivity.
  - intros Hnd. eapply Permutation_NoDup; [|exact Hnd].
    apply Permutation_map, Permutation_sym, Hp.
Qed.

(** ** What the sorts do *)

Section InsertionSorted.
Context {A : Type}.
Variable comparefn : A -> A -> option Z.
Variable P : A -> Prop.
Variable R : A -> A -> Prop.
Hypothesis R_le : forall x y, P x -> P y ->
  JS.le0 (comparefn x y) = true -> R x y.
Hypothesis R_gt : forall x y, P x -> P y ->
  JS.le0 (comparefn x y) = false -> R y x.
Hypothesis R_trans : forall x y z, R x y -> R y z -> R x z.

Lemma insert_sorted x l :
  P x -> Forall P l -> StronglySorted R l ->
  StronglySorted R (JS.insert comparefn x l).
Proof.
  intros Px Pl Hs. induction Hs as [|y l Hs IH Hy]; simpl.
  - repeat constructor.
  - inversion Pl as [|? ? Py Pl']; subst.
    destruct (JS.le0 (comparefn x y)) eqn:E.
    + constructor; [now constructor|].
      assert (Rxy : R x y) by now apply R_le.
      constructor; [exact Rxy|].
      rewrite Forall_forall in *. intros z Hz. eauto.
    + constructor; [now apply IH|].
      rewrite Forall_forall in *. intros z Hz.
      apply (Permutation_in _ (insert_perm comparefn x l)) in Hz.
      destruct Hz as [<- | Hz]; [now apply R_gt | now apply Hy].
Qed.

Lemma sort_sorted l :
  Forall P l -> StronglySorted R (JS.sort comparefn l).
Proof.
  induction l as [|x l IH]; intros Pl; simpl; [constructor|].
  inversion Pl as [|? ? Px Pl']; subst.
  apply insert_sorted; auto.
  rewrite Forall_forall in *. intros z Hz. apply Pl'.
  now apply sort_In in Hz.
Qed.
End InsertionSorted.

Lemma sort_by_timestamp_sorted (l : list Note) :
  (forall n, In n l -> timestamp n <> None) ->
  StronglySorted newerEq (JS.sort byTimestampDesc l).
Proof.
  intros H.
  apply (sort_sorted byTimestampDesc (fun n => timestamp n <> None)).
  - intros x y Px Py. unfold byTimestampDesc, newerEq.
    destruct (timestamp x), (timestamp y); try congruence. simpl.
    rewrite Z.leb_le. lia.
  - intros x y Px Py. unfold byTimestampDesc, newerEq.
    destruct (timestamp x), (timestamp y); try congruence. simpl.
    rewrite Z.leb_gt. lia.
  - intros x y z. unfold newerEq.
    destruct (timestamp x), (timestamp y), (timestamp z); try tauto. lia.
  - now apply Forall_forall.
Qed.

(** Without any [timestamp] every comparison is [NaN] and the stable
    sort leaves the order. *)
Lemma sort_without_timestamp (l : list Note) :
  (forall n, In n l -> timestamp n = None) ->
  JS.sort byTimestampDesc l = l.
Proof.
  induction l as [|x l IH]; intros H; simpl; [reflexivity|].
  rewrite IH by (intros; apply H; now right).
  destruct l as [|y l']; simpl; [reflexivity|].
  unfold byTimestampDesc. rewrite (H x) by now left.
  destruct (timestamp y); reflexivity.
Qed.

(** ** [mergeNotes] without collisions *)

Lemma map_set_absent {V} k (v : V) m :
  JS.map_get k m = None -> JS.map_set k v m = m ++ [(k, v)].
Proof.
  induction m as [|[k' v'] m IH]; simpl; [reflexivity|].
  destruct (String.eqb k' k); [discriminate|].
  intros H. now rewrite IH.
Qed.

Lemma seedLoop_fresh l : forall m,
  NoDup (map fst m ++ map id l) ->
  fold_left seedStep l m = m ++ map entryOf l.
Proof.
  induction l as [|n l IH]; intros m Hnd; simpl.
  - now rewrite app_nil_r.
  - assert (Hfresh : JS.map_get (id n) m = None).
    { apply map_get_None. intros Hin. simpl in Hnd.
      apply NoDup_remove_2 in Hnd. apply Hnd, in_or_app. now left. }
    unfold seedStep at 2. rewrite (map_set_absent _ _ _ Hfresh).
    rewrite IH.
    + now rewrite <- app_assoc.
    + rewrite map_app. simpl. now rewrite <- app_assoc.
Qed.

Lemma cloudLoop_fresh l : forall m,
  NoDup (map fst m ++ map id l) ->
  fold_left cloudStep l m = m ++ map entryOf l.
Proof.
  induction l as [|n l IH]; intros m Hnd; simpl.
  - now rewrite app_nil_r.
  - assert (Hfresh : JS.map_get (id n) m = None).
    { apply map_get_None. intros Hin. simpl in Hnd.
      apply NoDup_remove_2 in Hnd. apply Hnd, in_or_app. now left. }
    unfold cloudStep at 2. rewrite Hfresh.
    rewrite (map_set_absent _ _ _ Hfresh).
    rewrite IH.
    + now rewrite <- app_assoc.
    + rewrite map_app. simpl. now rewrite <- app_assoc.
Qed.

Lemma entryOf_fst l : map fst (map entryOf l) = map id l.
Proof. rewrite map_map. reflexivity. Qed.

Lemma entryOf_snd l : map snd (map entryOf l) = l.
Proof. rewrite map_map. simpl. apply map_id. Qed.

Lemma notesMapOf_fresh X Y :
  NoDup (map id (X ++ Y)) ->
  JS.map_values (notesMapOf X Y) = X ++ Y.
Proof.
  intros Hnd. rewrite map_app in Hnd. unfold notesMapOf, JS.map_values.
  rewrite (seedLoop_fresh X [])
    by (simpl; eapply NoDup_app_remove_r; exact Hnd).
  simpl. rewrite cloudLoop_fresh by (now rewrite entryOf_fst).
  rewrite map_app, !entryOf_snd. reflexivity.
Qed.

Lemma mergeNotes_fresh X Y :
  NoDup (map id (X ++ Y)) ->
  mergeNotes X Y = JS.sort byTimestampDesc (X ++ Y).
Proof. intros H. unfold mergeNotes. now rewrite notesMapOf_fresh. Qed.

(** X4. When no id occurs twice among the local and the cloud notes,
    [mergeNotes] returns exactly the local notes followed by the cloud
    notes, sorted: nothing is dropped, and merging in the other
    direction gives the same notes up to order. *)
Theorem mergeNotes_conflict_free :
  forall (X Y : list Note),
    NoDup (map id (X ++ Y)) ->
    mergeNotes X Y = JS.sort byTimestampDesc (X ++ Y)
    /\ Permutation (mergeNotes X Y) (X ++ Y)
    /\ Permutation (mergeNotes X Y) (mergeNotes Y X).
Proof.
  intros X Y Hnd.
  assert (Hnd' : NoDup (map id (Y ++ X))).
  { eapply Permutation_NoDup; [|exact Hnd].
    apply Permutation_map, Permutation_app_comm. }
  pose proof (mergeNotes_fresh X Y Hnd) as E.
  pose proof (mergeNotes_fresh Y X Hnd') as E'.
  split; [exact E|]. split.
  - rewrite E. apply sort_perm.
  - rewrite E, E'.
    eapply perm_trans; [apply sort_perm|].
    eapply perm_trans; [apply Permutation_app_comm|].
    apply Permutation_sym, sort_perm.
Qed.

Lemma mergeNotes_conflict_free_witness :
  NoDup (map id ([localNote] ++ [cloudNote]))
  /\ Permutation (mergeNotes [localNote] [cloudNote])
                 (mergeNotes [cloudNote] [localNote]).
Proof.
  assert (H : NoDup (map id ([localNote] ++ [cloudNote]))).
  { simpl. repeat constructor; simpl; intuition discriminate. }
  split; [exact H|].
  exact (proj2 (proj2 (mergeNotes_conflict_free [localNote] [cloudNote] H))).
Defined.

(** X5. When every note carries a numeric [timestamp], the shards taken
    in order hold the notes newest first: shard 0 starts with the most
    recent note. *)
Theorem shards_newest_first :
  forall (noteSize : Note -> N) (baseSize : N) (notes : list Note),
    (forall n, In n notes -> timestamp n <> None) ->
    StronglySorted newerEq (concat (shardNotes noteSize baseSize notes)).
Proof.
  intros noteSize baseSize notes H.
  rewrite shardNotes_concat. now apply sort_by_timestamp_sorted.
Qed.

Lemma shards_newest_first_witness :
  let N := [stampedNote "1" "a" 10; stampedNote "2" "b" 30;
            stampedNote "3" "c" 20] in
  (forall n, In n N -> timestamp n <> None)
  /\ StronglySorted newerEq (concat (shardNotes sizeByContent 150%N N)).
Proof.
  intros N.
  assert (H : forall n, In n N -> timestamp n <> None).
  { intros n [<- | [<- | [<- | []]]]; discriminate. }
  split; [exact H|].
  exact (shards_newest_first sizeByContent 150%N N H).
Defined.

(** X6. When every local and cloud note carries a numeric [timestamp],
    the result of [mergeNotes] is sorted newest first. *)
Theorem mergeNotes_newest_first :
  forall (X Y : list Note),
    (forall n, In n X \/ In n Y -> timestamp n <> None) ->
    StronglySorted newerEq (mergeNotes X Y).
Proof.
  intros X Y H. unfold mergeNotes.
  apply sort_by_timestamp_sorted. intros n Hn. apply H.
  apply mergeNotes_In_drawn. unfold mergeNotes. now apply sort_In.
Qed.

Lemma mergeNotes_newest_first_witness :
  let X := [stampedNote "1" "l" 2] in
  let Y := [stampedNote "1" "r" 1; stampedNote "2" "r" 3] in
  (forall n, In n X \/ In n Y -> timestamp n <> None)
  /\ StronglySorted newerEq (mergeNotes X Y).
Proof.
  intros X Y.
  assert (H : forall n, In n X \/ In n Y -> timestamp n <> None).
  { intros n [[<- | []] | [<- | [<- | []]]]; discriminate. }
  split; [exact H|].
  exact (mergeNotes_newest_first X Y H).
Defined.

(** X7. On notes that carry no [timestamp], as all notes the application
    creates, neither sort reorders anything: the shards taken in order
    are the collection in its own order, and a merge without id
    collision is the local notes followed by the cloud notes. *)
Theorem order_kept_without_timestamp :
  forall (noteSize : Note -> N) (baseSize : N) (X Y : list Note),
    (forall n, In n X \/ In n Y -> timestamp n = None) ->
    concat (shardNotes noteSize baseSize X) = X
    /\ (NoDup (map id (X ++ Y)) -> mergeNotes X Y = X ++ Y).
Proof.
  intros noteSize baseSize X Y H. split.
  - rewrite shardNotes_concat. apply sort_without_timestamp. auto.
  - intros Hnd.
    rewrite (mergeNotes_fresh X Y Hnd). apply sort_without_timestamp.
    intros n Hn. apply H. now apply in_app_or.
Qed.

Lemma order_kept_without_timestamp_witness :
  let X := [localNote] in
  let Y := [cloudNote] in
  (forall n, In n X \/ In n Y -> timestamp n = None)
  /\ concat (shardNotes sizeByContent 150%N X) = X
  /\ mergeNotes X Y = X ++ Y.
Proof.
  intros X Y.
  assert (H : forall n, In n X \/ In n Y -> timestamp n = None).
  { intros n [[<- | []] | [<- | []]]; reflexivity. }
  assert (Hnd : NoDup (map id (X ++ Y))).
  { simpl. repeat constructor; simpl; intuition discriminate. }
  destruct (order_kept_without_timestamp sizeByContent 150%N X Y H)
    as [H1 H2].
  split; [exact H|]. split; [exact H1 | exact (H2 Hnd)].
Defined.

(** ** Ids through [mergeNotes] and [mergeShards] *)

Lemma map_set_keeps_key {V} k (v : V) m k' :
  In k' (map fst m) -> In k' (map fst (JS.map_set k v m)).
Proof.
  intros H. rewrite map_set_keys.
  destruct (JS.map_get k m); [exact H | apply in_or_app; now left].
Qed.

Lemma map_set_has_key {V} k (v : V) m :
  In k (map fst (JS.map_set k v m)).
Proof.
  rewrite map_set_keys. destruct (JS.map_get k m) eqn:E.
  - destruct (in_dec string_dec k (map fst m)) as [H | H]; [exact H|].
    apply map_get_None in H. congruence.
  - apply in_or_app. right. now left.
Qed.

Lemma cloudStep_keeps_key m n k :
  In k (map fst m) -> In k (map fst (cloudStep m n)).
Proof.
  intros H. unfold cloudStep.
  destruct (JS.map_get (id n) m); [destruct (JS.gt _ _)|];
    auto using map_set_keeps_key.
Qed.

Lemma cloudStep_has_key m n : In (id n) (map fst (cloudStep m n)).
Proof.
  unfold cloudStep. destruct (JS.map_get (id n) m) eqn:E.
  - assert (H : In (id n) (map fst m)).
    { destruct (in_dec string_dec (id n) (map fst m)) as [H | H]; [exact H|].
      apply map_get_None in H. congruence. }
    destruct (JS.gt _ _); auto using map_set_keeps_key.
  - apply map_set_has_key.
Qed.

Lemma seedLoop_keys l : forall m k,
  In k (map fst m) \/ In k (map id l) ->
  In k (map fst (fold_left seedStep l m)).
Proof.
  induction l as [|n l IH]; intros m k H; simpl.
  - destruct H as [H | []]. exact H.
  - apply IH. destruct H as [H | [<- | H]].
    + left. now apply map_set_keeps_key.
    + left. apply map_set_has_key.
    + now right.
Qed.

Lemma cloudLoop_keys l : forall m k,
  In k (map fst m) \/ In k (map id l) ->
  In k (map fst (fold_left cloudStep l m)).
Proof.
  induction l as [|n l IH]; intros m k H; simpl.
  - destruct H as [H | []]. exact H.
  - apply IH. destruct H as [H | [<- | H]].
    + left. now apply cloudStep_keeps_key.
    + left. apply cloudStep_has_key.
    + now right.
Qed.

(** X8. [mergeNotes] loses no id: every id of a local or of a cloud note
    is the id of a note of the result. *)
Theorem mergeNotes_keeps_every_id :
  forall (X Y : list Note) (n : Note),
    In n X \/ In n Y ->
    In (id n) (map id (mergeNotes X Y)).
Proof.
  intros X Y n H.
  assert (Hk : In (id n) (map fst (notesMapOf X Y))).
  { unfold notesMapOf. apply cloudLoop_keys. destruct H as [H | H].
    - left. apply seedLoop_keys. right. now apply in_map.
    - right. now apply in_map. }
  destruct (wfMap_notesMapOf X Y) as [_ Hkeyed].
  rewrite <- (keyed_ids _ Hkeyed) in Hk.
  unfold mergeNotes.
  eapply Permutation_in; [|exact Hk].
  apply Permutation_map, Permutation_sym, sort_perm.
Qed.

Lemma mergeNotes_keeps_every_id_witness :
  (In cloudJun [localJan] \/ In cloudJun [cloudJun])
  /\ In (id cloudJun) (map id (mergeNotes [localJan] [cloudJun])).
Proof.
  assert (H : In cloudJun [localJan] \/ In cloudJun [cloudJun])
    by (right; simpl; auto).
  split; [exact H|].
  exact (mergeNotes_keeps_every_id [localJan] [cloudJun] cloudJun H).
Defined.

Lemma dedupInv_step done acc note :
  dedupInv done acc -> dedupInv (done ++ [note]) (dedupStep acc note).
Proof.
  destruct acc as [u seen]. unfold dedupInv, dedupStep. simpl.
  intros (Hs & Hnd & Hin & Hids). subst seen.
  destruct (JS.set_has (id note) (map id u)) eqn:E; simpl.
  - apply set_has_In in E. repeat split; auto.
    + intros x Hx. apply in_or_app. left. now apply Hin.
    + rewrite map_app. intros x Hx. apply in_app_or in Hx.
      destruct Hx as [Hx | [<- | []]]; [now apply Hids | exact E].
  - assert (Hfresh : ~ In (id note) (map id u)).
    { intros Hc. apply set_has_In in Hc. congruence. }
    repeat split.
    + now rewrite map_app.
    + apply NoDup_app; [exact Hnd | repeat constructor; simpl; tauto|].
      intros x Hx [<- | []]. contradiction.
    + intros x Hx. apply in_app_or in Hx. apply in_or_app.
      destruct Hx as [Hx | Hx]; [left; now apply Hin | now right].
    + rewrite map_app. intros x Hx. apply in_app_or in Hx. apply in_or_app.
      destruct Hx as [Hx | Hx]; [left; now apply Hids | now right].
Qed.

Lemma dedupInv_loop l : forall done acc,
  dedupInv done acc -> dedupInv (done ++ l) (fold_left dedupStep l acc).
Proof.
  induction l as [|n l IH]; intros done acc H; simpl.
  - now rewrite app_nil_r.
  - replace (done ++ n :: l) with ((done ++ [n]) ++ l)
      by (now rewrite <- app_assoc).
    apply IH, dedupInv_step, H.
Qed.

(** X9. The notes [mergeShards] returns have pairwise distinct ids, are
    all notes of the shards, and cover every id that occurs in a
    shard: a note repeated across shards is kept once. *)
Theorem mergeShards_notes_deduplicated :
  forall (T : Type) (l : list (ShardData T)),
    let all := concat (map carried l) in
    NoDup (map id (notes (mergeShards l)))
    /\ (forall n, In n (notes (mergeShards l)) -> In n all)
    /\ (forall n, In n all -> In (id n) (map id (notes (mergeShards l)))).
Proof.
  intros T l all. unfold mergeShards. simpl.
  rewrite mergeLoop_allNotes. simpl. fold all.
  assert (H : dedupInv all (fold_left dedupStep all ([], []))).
  { apply (dedupInv_loop all [] ([], [])).
    repeat split; simpl; try constructor; intros x []. }
  unfold dedup. destruct (fold_left dedupStep all ([], [])) as [u seen].
  destruct H as (Hs & Hnd & Hin & Hids). simpl in *. subst seen.
  repeat split; auto.
  intros n Hn. apply Hids. now apply in_map.
Qed.

(** ** Stopping, the guard of the scheduler and its settings *)

Lemma store_stop s :
  Scheduler.store (Scheduler.stopAutoSync s) = Scheduler.store s.
Proof.
  unfold Scheduler.stopAutoSync.
  destruct (Scheduler.autoSyncTimer s) as [t|]; [|reflexivity].
  destruct (negb (Nat.eqb t 0)); reflexivity.
Qed.

Lemma store_start s :
  Scheduler.store (Scheduler.startAutoSync s) = Scheduler.store s.
Proof.
  unfold Scheduler.startAutoSync.
  destruct (_ && _); simpl; apply store_stop.
Qed.

(** X10. In every state the scheduler can reach, [stopAutoSync] leaves
    no timer active and none remembered, does not touch the settings,
    and is a no-operation when repeated; switching auto-sync off does
    the same and records the flag. *)
Theorem stop_cancels_timer :
  forall (quota_ok : string -> bool) (s : Scheduler.State),
    Scheduler.reachable quota_ok s ->
    Scheduler.timers (Scheduler.stopAutoSync s) = []
    /\ Scheduler.autoSyncTimer (Scheduler.stopAutoSync s) = None
    /\ Scheduler.store (Scheduler.stopAutoSync s) = Scheduler.store s
    /\ Scheduler.stopAutoSync (Scheduler.stopAutoSync s)
       = Scheduler.stopAutoSync s
    /\ (quota_ok AUTO_SYNC_KEY = true ->
        Scheduler.timers (Scheduler.setAutoSyncEnabled quota_ok false s) = []
        /\ Settings.isAutoSyncEnabled
             (Scheduler.setAutoSyncEnabled quota_ok false s) = false).
Proof.
  intros quota_ok s Hr.
  pose proof (SchedulerFacts.reachable_wf quota_ok s Hr) as Hwf.
  destruct (SchedulerFacts.stop_spec s Hwf) as (Ha & Ht & Hs & Hn).
  repeat split; auto.
  - unfold Scheduler.stopAutoSync at 1. now rewrite Ha.
  - unfold Scheduler.setAutoSyncEnabled. rewrite H.
    apply (SchedulerFacts.stop_spec
             (Scheduler.mkState _ (Scheduler.autoSyncTimer s)
                (Scheduler.timers s) (Scheduler.nextTimerId s))).
    exact Hwf.
  - unfold Scheduler.setAutoSyncEnabled, Settings.isAutoSyncEnabled.
    rewrite H, store_stop. reflexivity.
Qed.

Lemma stop_cancels_timer_witness :
  let q := fun _ : string => true in
  let s := Scheduler.run q (Scheduler.SetSyncInterval 5)
             (Scheduler.init autoItems) in
  Scheduler.reachable q s
  /\ Scheduler.timers s = [(1, Some 300000%Z)]
  /\ Scheduler.timers (Scheduler.stopAutoSync s) = [].
Proof.
  intros q s.
  assert (Hr : Scheduler.reachable q s)
    by (apply Scheduler.reach_call, Scheduler.reach_init).
  split; [exact Hr|]. split; [reflexivity|].
  exact (proj1 (stop_cancels_timer q s Hr)).
Defined.

(** X11. [startAutoSync] schedules nothing unless auto-sync is switched
    on and a token is stored: in a reachable state where the flag is
    not ['true'] or the token is missing, it leaves no timer at all,
    a running one included. *)
Theorem start_needs_flag_and_token :
  forall (quota_ok : string -> bool) (s : Scheduler.State),
    Scheduler.reachable quota_ok s ->
    Scheduler.isTrue (Scheduler.store s AUTO_SYNC_KEY) = false
    \/ Scheduler.isConnected s = false ->
    Scheduler.timers (Scheduler.startAutoSync s) = []
    /\ Scheduler.autoSyncTimer (Scheduler.startAutoSync s) = None.
Proof.
  intros quota_ok s Hr Hguard.
  pose proof (SchedulerFacts.reachable_wf quota_ok s Hr) as Hwf.
  destruct (SchedulerFacts.stop_spec s Hwf) as (Ha & Ht & Hs & Hn).
  unfold Scheduler.startAutoSync, Scheduler.isConnected in *.
  rewrite Hs.
  assert (E : Scheduler.isTrue (Scheduler.store s AUTO_SYNC_KEY)
              && JS.truthy_str (Scheduler.store s GITHUB_TOKEN_KEY) = false).
  { destruct Hguard as [-> | ->]; [reflexivity | apply andb_false_r]. }
  rewrite E. auto.
Qed.

Lemma start_needs_flag_and_token_witness :
  let q := fun _ : string => true in
  let s := Scheduler.run q Scheduler.ClearToken
             (Scheduler.run q (Scheduler.SetSyncInterval 5)
                (Scheduler.init autoItems)) in
  Scheduler.reachable q s
  /\ Scheduler.isConnected s = false
  /\ Scheduler.timers s = [(1, Some 300000%Z)]
  /\ Scheduler.timers (Scheduler.startAutoSync s) = [].
Proof.
  intros q s.
  assert (Hr : Scheduler.reachable q s)
    by (repeat apply Scheduler.reach_call; apply Scheduler.reach_init).
  split; [exact Hr|]. split; [reflexivity|]. split; [reflexivity|].
  exact (proj1 (start_needs_flag_and_token q s Hr (or_intror eq_refl))).
Defined.

(** X12. Switching auto-sync on while a token is stored leaves exactly
    one timer, whose period is the stored interval in minutes times
    60000, and 600000 ms (ten minutes) when no interval was ever
    stored. *)
Theorem enabling_schedules_stored_interval :
  forall (quota_ok : string -> bool) (s : Scheduler.State),
    Scheduler.reachable quota_ok s ->
    Scheduler.isConnected s = true ->
    quota_ok AUTO_SYNC_KEY = true ->
    let s' := Scheduler.setAutoSyncEnabled quota_ok true s in
    Settings.isAutoSyncEnabled s' = true
    /\ (exists t,
          Scheduler.timers s'
          = [(t, Scheduler.mul (Scheduler.mul (Settings.getSyncInterval s) 60)
                               1000)]
          /\ Scheduler.autoSyncTimer s' = Some t)
    /\ (Scheduler.store s SYNC_INTERVAL_KEY = None ->
        exists t, Scheduler.timers s' = [(t, Some 600000%Z)]).
Proof.
  intros quota_ok s Hr Hc Hq s'.
  pose proof (SchedulerFacts.reachable_wf quota_ok s Hr) as Hwf.
  unfold s', Scheduler.setAutoSyncEnabled. rewrite Hq.
  set (s1 := Scheduler.mkState _ _ _ _).
  assert (H1 : Scheduler.wf s1) by exact Hwf.
  assert (He1 : Scheduler.isTrue (Scheduler.store s1 AUTO_SYNC_KEY) = true)
    by reflexivity.
  assert (Hc1 : Scheduler.isConnected s1 = true) by exact Hc.
  destruct (SchedulerFacts.start_spec s1 H1 He1 Hc1) as (Hs & Ha & Ht).
  assert (Hi : Scheduler.store s1 SYNC_INTERVAL_KEY
               = Scheduler.store s SYNC_INTERVAL_KEY) by reflexivity.
  rewrite Hi in Ht.
  split; [unfold Settings.isAutoSyncEnabled; now rewrite Hs|].
  split; [eexists; split; [exact Ht | exact Ha]|].
  intros Hnone. eexists. rewrite Ht, Hnone. reflexivity.
Qed.

Lemma enabling_schedules_stored_interval_witness :
  let q := fun _ : string => true in
  let s := Scheduler.init autoItems in
  Scheduler.reachable q s
  /\ Scheduler.isConnected s = true
  /\ exists t, Scheduler.timers (Scheduler.setAutoSyncEnabled q true s)
               = [(t, Some 600000%Z)].
Proof.
  intros q s.
  assert (Hr : Scheduler.reachable q s) by apply Scheduler.reach_init.
  split; [exact Hr|]. split; [reflexivity|].
  exact (proj2 (proj2 (enabling_schedules_stored_interval q s Hr
                         eq_refl eq_refl)) eq_refl).
Defined.

(** X13. The settings read back what was written: after
    [setSyncInterval(m)], for a safe integer [m], the interval read is
    [m], after [setAutoSyncEnabled(b)] the flag read is [b], whether or
    not a timer was started on the way; an interval never stored reads
    as 10. *)
Theorem settings_round_trip :
  forall (quota_ok : string -> bool) (s : Scheduler.State)
         (m : Z) (b : bool),
    quota_ok SYNC_INTERVAL_KEY = true ->
    quota_ok AUTO_SYNC_KEY = true ->
    JS.isSafeInteger m = true ->
    Settings.getSyncInterval (Scheduler.setSyncInterval quota_ok m s)
    = Some m
    /\ Settings.isAutoSyncEnabled (Scheduler.setAutoSyncEnabled quota_ok b s)
       = b
    /\ (Scheduler.store s SYNC_INTERVAL_KEY = None ->
        Settings.getSyncInterval s = Some 10%Z).
Proof.
  intros quota_ok s m b Hq1 Hq2 _. repeat split.
  - unfold Settings.getSyncInterval, Scheduler.setSyncInterval.
    rewrite Hq1. cbv zeta.
    destruct (Scheduler.isTrue _); [rewrite store_start|];
      cbn [Scheduler.store]; unfold setEntry; rewrite String.eqb_refl;
      apply SchedulerFacts.storedInterval.
  - unfold Settings.isAutoSyncEnabled, Scheduler.setAutoSyncEnabled.
    rewrite Hq2. cbv zeta.
    destruct b; [rewrite store_start | rewrite store_stop]; reflexivity.
  - intros H. unfold Settings.getSyncInterval. rewrite H. reflexivity.
Qed.

Lemma settings_round_trip_witness :
  let q := fun _ : string => true in
  q SYNC_INTERVAL_KEY = true /\ q AUTO_SYNC_KEY = true
  /\ JS.isSafeInteger 45 = true
  /\ Settings.getSyncInterval
       (Scheduler.setSyncInterval q 45 (Scheduler.init autoItems))
     = Some 45%Z.
Proof.
  intros q. split; [reflexivity|]. split; [reflexivity|].
  split; [reflexivity|].
  exact (proj1 (settings_round_trip q (Scheduler.init autoItems) 45 true
                  eq_refl eq_refl eq_refl)).
Defined.

(** ** Sync operations without credentials *)

Ltac run_sync :=
  unfold tryCatch, bind, getItem, getNotes, getCustomTags, getTagColors,
    allocArray, failure, ret, throw, deref; simpl.

(** X14. Without a stored GitHub token, every sync operation of both
    Gist managers returns [{success: false, message: '未连接 GitHub'}]
    without any network call and without writing to the storage. *)
Theorem gist_sync_needs_token :
  forall (env : Env) (w : World),
    JS.truthy_str (items (ls w) GITHUB_TOKEN_KEY) = false ->
    let refused (r : Outcome SyncResult * World) :=
      fst r = Returned (mkResult false "未连接 GitHub" None None)
      /\ ls (snd r) = ls w /\ netCalls (snd r) = netCalls w in
    refused (CloudSyncManager.syncUp env w)
    /\ refused (CloudSyncManager.syncDown env w)
    /\ refused (CloudSyncManagerV0.syncUp env w)
    /\ refused (CloudSyncManagerV0.syncDown env w).
Proof.
  intros env w H refused. unfold refused. repeat split.
  all: unfold CloudSyncManager.syncUp, CloudSyncManager.syncDown,
         CloudSyncManagerV0.syncUp, CloudSyncManagerV0.syncDown,
         CloudSyncManager.updateGist, CloudSyncManagerV0.updateGist,
         CloudSyncManager.getGist, CloudSyncManagerV0.getGist,
         CloudSyncManager.getToken, CloudSyncManagerV0.getToken.
  all: run_sync.
  all: try (destruct (JS.truthy_str (items (ls w) GIST_ID_KEY)); simpl).
  all: rewrite ?H; simpl; rewrite ?H; reflexivity.
Qed.

Lemma gist_sync_needs_token_witness :
  let w := mkWorld (mkLS (fun _ => None) (Some [localNote]) None None) 0 0 in
  JS.truthy_str (items (ls w) GITHUB_TOKEN_KEY) = false
  /\ fst (CloudSyncManager.syncDown (exEnv shardedReply) w)
     = Returned (mkResult false "未连接 GitHub" None None).
Proof.
  intros w. split; [reflexivity|].
  exact (proj1 (proj1 (proj2 (gist_sync_needs_token (exEnv shardedReply) w
                                eq_refl)))).
Defined.

(** X15. With a token but no stored remote handle, [syncDown] of both
    Gist managers returns [{success: false, message: '没有找到云端备份'}]
    without any network call and without writing to the storage. *)
Theorem gist_download_needs_handle :
  forall (env : Env) (w : World),
    JS.truthy_str (items (ls w) GITHUB_TOKEN_KEY) = true ->
    JS.truthy_str (items (ls w) GIST_ID_KEY) = false ->
    let refused (r : Outcome SyncResult * World) :=
      r = (Returned (mkResult false "没有找到云端备份" None None), w) in
    refused (CloudSyncManager.syncDown env w)
    /\ refused (CloudSyncManagerV0.syncDown env w).
Proof.
  intros env w Ht Hg refused. unfold refused. split.
  all: unfold CloudSyncManager.syncDown, CloudSyncManagerV0.syncDown,
         CloudSyncManager.getGist, CloudSyncManagerV0.getGist,
         CloudSyncManager.getToken, CloudSyncManagerV0.getToken.
  all: run_sync.
  all: rewrite Ht, Hg; reflexivity.
Qed.

Lemma gist_download_needs_handle_witness :
  let w := mkWorld (mkLS autoItems (Some [localNote]) None None) 0 0 in
  JS.truthy_str (items (ls w) GITHUB_TOKEN_KEY) = true
  /\ JS.truthy_str (items (ls w) GIST_ID_KEY) = false
  /\ CloudSyncManager.syncDown (exEnv shardedReply) w
     = (Returned (mkResult false "没有找到云端备份" None None), w).
Proof.
  intros w. split; [reflexivity|]. split; [reflexivity|].
  exact (proj1 (gist_download_needs_handle (exEnv shardedReply) w
                  eq_refl eq_refl)).
Defined.

(** X16. Without a complete WebDAV configuration (server, user name and
    password all non-empty), [syncUp] and [syncDown] of the WebDAV
    manager return [{success: false, message: '未配置 WebDAV 连接'}] and
    leave the world as it is: no network call, no write. *)
Theorem webdav_sync_needs_config :
  forall (env : Env) (w : World),
    fst (WebDAVSyncManager.isConnected w) = Returned false ->
    WebDAVSyncManager.syncUp env w
    = (Returned (mkResult false "未配置 WebDAV 连接" None None), w)
    /\ WebDAVSyncManager.syncDown env w
       = (Returned (mkResult false "未配置 WebDAV 连接" None None), w).
Proof.
  intros env w H.
  unfold WebDAVSyncManager.syncUp, WebDAVSyncManager.syncDown.
  unfold WebDAVSyncManager.isConnected, WebDAVSyncManager.getConfig in *.
  revert H. run_sync. intros [= H]. rewrite H. simpl. auto.
Qed.

Lemma webdav_sync_needs_config_witness :
  let w := mkWorld (mkLS autoItems (Some [localNote]) None None) 0 0 in
  fst (WebDAVSyncManager.isConnected w) = Returned false
  /\ WebDAVSyncManager.syncDown (exEnv webdavReply) w
     = (Returned (mkResult false "未配置 WebDAV 连接" None None), w).
Proof.
  intros w. split; [reflexivity|].
  exact (proj2 (webdav_sync_needs_config (exEnv webdavReply) w eq_refl)).
Defined.

(** ** What an upload leaves alone *)

Section UploadKeeps.
Context {X : Type} (proj : LocalStorage -> X).
Hypothesis proj_items : forall f l, proj (withItems f l) = proj l.
Variable env : Env.

Lemma keeps_getItem k : keeps proj (getItem k).
Proof. intros w. reflexivity. Qed.

Lemma keeps_removeItem k : keeps proj (removeItem k).
Proof. intros w. unfold removeItem. simpl. apply proj_items. Qed.

Lemma keeps_setItem' k v : keeps proj (setItem env k v).
Proof. apply keeps_setItem. exact proj_items. Qed.

Lemma keeps_doFetch req : keeps proj (doFetch env req).
Proof.
  intros w. unfold doFetch. destruct (fetch env (netCalls w) req); reflexivity.
Qed.

Lemma keeps_allocArray {A} (l : list A) : keeps proj (allocArray l).
Proof. intros w. reflexivity. Qed.

Lemma keeps_getCustomTags : keeps proj getCustomTags.
Proof. intros w. reflexivity. Qed.

Lemma keeps_getTagColors : keeps proj getTagColors.
Proof. intros w. reflexivity. Qed.

Lemma keeps_parsed {A} (p : Parsed A) : keeps proj (parsed p).
Proof. intros w. destruct p; reflexivity. Qed.

Lemma keeps_deref {A} (o : option A) : keeps proj (deref o).
Proof. intros w. destruct o; reflexivity. Qed.

Lemma keeps_parseDoc d : keeps proj (parseDoc d).
Proof.
  intros w. destruct (parseDoc_spec d w) as (o & w' & E & Hls & _).
  rewrite E. simpl. now rewrite Hls.
Qed.

Lemma keeps_errorMessage r : keeps proj (errorMessage r).
Proof. intros w. unfold errorMessage. destruct (body r); reflexivity. Qed.

Lemma keeps_collect files : forall acc,
  keeps proj (foldM CloudSyncManager.collectShard files acc).
Proof.
  intros acc w.
  destruct (collectLoop_spec files acc w) as (found & w' & E & Hls & _).
  rewrite E. simpl. now rewrite Hls.
Qed.

Ltac upload_tac :=
  repeat first
    [ apply keeps_bind; [|intros ?]
    | apply keeps_tryCatch; [|intros ?]
    | apply keeps_ret | apply keeps_throw | apply keeps_failure
    | apply keeps_getNotes | apply keeps_getItem | apply keeps_removeItem
    | apply keeps_setItem' | apply keeps_doFetch | apply keeps_allocArray
    | apply keeps_getCustomTags | apply keeps_getTagColors
    | apply keeps_parsed | apply keeps_deref | apply keeps_parseDoc
    | apply keeps_errorMessage | apply keeps_collect
    | match goal with
      | |- keeps _ (match ?x with _ => _ end) => destruct x
      end ].

Lemma keeps_getGist : keeps proj (CloudSyncManager.getGist env).
Proof.
  unfold CloudSyncManager.getGist, CloudSyncManager.getToken. upload_tac.
Qed.

Lemma keeps_createGist data : keeps proj (CloudSyncManager.createGist env data).
Proof.
  unfold CloudSyncManager.createGist, CloudSyncManager.getToken,
    CloudSyncManager.shardNotesOf.
  upload_tac.
Qed.

Lemma keeps_updateGist data : keeps proj (CloudSyncManager.updateGist env data).
Proof.
  unfold CloudSyncManager.updateGist, CloudSyncManager.getToken,
    CloudSyncManager.shardNotesOf.
  upload_tac; apply keeps_createGist.
Qed.

Lemma keeps_syncUp : keeps proj (CloudSyncManager.syncUp env).
Proof.
  unfold CloudSyncManager.syncUp, CloudSyncManager.updateLastSyncTime,
    CloudSyncManager.shardNotesOf.
  upload_tac; first [apply keeps_getGist | apply keeps_updateGist].
Qed.

Lemma keeps_createGistV0 data :
  keeps proj (CloudSyncManagerV0.createGist env data).
Proof.
  unfold CloudSyncManagerV0.createGist, CloudSyncManagerV0.getToken.
  upload_tac.
Qed.

Lemma keeps_syncUpV0 : keeps proj (CloudSyncManagerV0.syncUp env).
Proof.
  unfold CloudSyncManagerV0.syncUp, CloudSyncManagerV0.updateLastSyncTime,
    CloudSyncManagerV0.updateGist, CloudSyncManagerV0.getToken.
  upload_tac; apply keeps_createGistV0.
Qed.

Lemma keeps_syncUpWebDAV : keeps proj (WebDAVSyncManager.syncUp env).
Proof.
  unfold WebDAVSyncManager.syncUp, WebDAVSyncManager.updateLastSyncTime,
    WebDAVSyncManager.isConnected, WebDAVSyncManager.getAuthHeader,
    WebDAVSyncManager.getConfig.
  upload_tac.
Qed.
End UploadKeeps.

(** X17. An upload never changes the local collections: after [syncUp]
    of any manager, whatever the remote answers, the stored notes, the
    stored custom tags and the stored tag colours are what they were.
    In particular the sharded manager, which merges the cloud notes
    into what it uploads, does not save that merge locally. *)
Theorem upload_keeps_local_collections :
  forall (env : Env) (w : World),
    let same (w' : World) :=
      ls_notes (ls w') = ls_notes (ls w)
      /\ ls_customTags (ls w') = ls_customTags (ls w)
      /\ ls_tagColors (ls w') = ls_tagColors (ls w) in
    same (snd (CloudSyncManager.syncUp env w))
    /\ same (snd (CloudSyncManagerV0.syncUp env w))
    /\ same (snd (WebDAVSyncManager.syncUp env w)).
Proof.
  intros env w same. unfold same. repeat split.
  all: first [ apply (keeps_syncUp ls_notes)
             | apply (keeps_syncUp ls_customTags)
             | apply (keeps_syncUp ls_tagColors)
             | apply (keeps_syncUpV0 ls_notes)
             | apply (keeps_syncUpV0 ls_customTags)
             | apply (keeps_syncUpV0 ls_tagColors)
             | apply (keeps_syncUpWebDAV ls_notes)
             | apply (keeps_syncUpWebDAV ls_customTags)
             | apply (keeps_syncUpWebDAV ls_tagColors) ];
    reflexivity.
Qed.

(** ** How many network calls an operation makes *)

Section CallCount.
Variable env : Env.

Lemma calls_weaken {A} n m (c : M A) : n <= m -> callsLe n c -> callsLe m c.
Proof. intros Hle H w. specialize (H w). lia. Qed.

Lemma calls_bind {A B} m n (c : M A) (k : A -> M B) :
  callsLe m c -> (forall a, callsLe n (k a)) -> callsLe (m + n) (bind c k).
Proof.
  intros Hc Hk w. unfold bind. specialize (Hc w).
  destruct (c w) as [[a|e] w0]; simpl in *; [|lia].
  specialize (Hk a w0). lia.
Qed.

Lemma calls_bind0 {A B} n (c : M A) (k : A -> M B) :
  callsLe 0 c -> (forall a, callsLe n (k a)) -> callsLe n (bind c k).
Proof. intros Hc Hk. exact (calls_bind 0 n c k Hc Hk). Qed.

Lemma calls_tryCatch {A} m n (c : M A) h :
  callsLe m c -> (forall e, callsLe n (h e)) ->
  callsLe (m + n) (tryCatch c h).
Proof.
  intros Hc Hh w. unfold tryCatch. specialize (Hc w).
  destruct (c w) as [[a|e] w0]; simpl in *; [lia|].
  specialize (Hh e w0). lia.
Qed.

Lemma calls_tryCatch0 {A} n (c : M A) h :
  callsLe n c -> (forall e, callsLe 0 (h e)) -> callsLe n (tryCatch c h).
Proof.
  intros Hc Hh. apply (calls_weaken (n + 0)); [lia|].
  now apply calls_tryCatch.
Qed.

Lemma calls_still {A} n (c : M A) :
  (forall w, netCalls (snd (c w)) = netCalls w) -> callsLe n c.
Proof. intros H w. rewrite H. lia. Qed.

Lemma calls_ret {A} n (a : A) : callsLe n (ret a).
Proof. now apply calls_still. Qed.

Lemma calls_throw {A} n msg : callsLe n (@throw A msg).
Proof. now apply calls_still. Qed.

Lemma calls_failure n e : callsLe n (failure e).
Proof. now apply calls_still. Qed.

Lemma calls_getItem n k : callsLe n (getItem k).
Proof. now apply calls_still. Qed.

Lemma calls_removeItem n k : callsLe n (removeItem k).
Proof. now apply calls_still. Qed.

Lemma calls_setItem n k v : callsLe n (setItem env k v).
Proof.
  apply calls_still. intros w. unfold setItem.
  destruct (quota_ok env k); reflexivity.
Qed.

Lemma calls_getNotes n : callsLe n getNotes.
Proof. now apply calls_still. Qed.

Lemma calls_saveNotes n ns : callsLe n (saveNotes env ns).
Proof.
  apply calls_still. intros w. unfold saveNotes.
  destruct (quota_ok env STORAGE_KEY); reflexivity.
Qed.

Lemma calls_saveCustomTags n ts : callsLe n (saveCustomTags env ts).
Proof.
  apply calls_still. intros w. unfold saveCustomTags.
  destruct (quota_ok env CUSTOM_TAGS_KEY); reflexivity.
Qed.

Lemma calls_setTagColors n c : callsLe n (setTagColors env c).
Proof.
  apply calls_still. intros w. unfold setTagColors.
  destruct (quota_ok env TAG_COLORS_KEY); reflexivity.
Qed.

Lemma calls_getCustomTags n : callsLe n getCustomTags.
Proof. now apply calls_still. Qed.

Lemma calls_getTagColors n : callsLe n getTagColors.
Proof. now apply calls_still. Qed.

Lemma calls_allocArray {A} n (l : list A) : callsLe n (allocArray l).
Proof. now apply calls_still. Qed.

Lemma calls_parsed {A} n (p : Parsed A) : callsLe n (parsed p).
Proof. apply calls_still. intros w. destruct p; reflexivity. Qed.

Lemma calls_deref {A} n (o : option A) : callsLe n (deref o).
Proof. apply calls_still. intros w. destruct o; reflexivity. Qed.

Lemma calls_parseDoc n d : callsLe n (parseDoc d).
Proof.
  apply calls_still. intros w. unfold parseDoc.
  destruct (sd_customTags d); reflexivity.
Qed.

Lemma calls_errorMessage n r : callsLe n (errorMessage r).
Proof.
  apply calls_still. intros w. unfold errorMessage.
  destruct (body r); reflexivity.
Qed.

Lemma calls_doFetch n req : callsLe (S n) (doFetch env req).
Proof.
  intros w. unfold doFetch.
  destruct (fetch env (netCalls w) req); simpl; lia.
Qed.

Lemma calls_fetch_then {B} n req (k : Response -> M B) :
  (forall r, callsLe n (k r)) -> callsLe (S n) (bind (doFetch env req) k).
Proof.
  intros Hk. apply (calls_bind 1 n); [apply calls_doFetch | exact Hk].
Qed.

Ltac still :=
  first [ apply calls_ret | apply calls_throw | apply calls_failure
        | apply calls_getItem | apply calls_removeItem | apply calls_setItem
        | apply calls_getNotes | apply calls_saveNotes
        | apply calls_saveCustomTags | apply calls_setTagColors
        | apply calls_getCustomTags | apply calls_getTagColors
        | apply calls_allocArray | apply calls_parsed | apply calls_deref
        | apply calls_parseDoc | apply calls_errorMessage ].

Ltac calls_tac :=
  repeat first
    [ still
    | apply calls_fetch_then; intros ?
    | apply calls_bind0; [solve [calls_tac] | intros ?]
    | apply calls_tryCatch0; [|intros ?]
    | match goal with
      | |- callsLe _ (match ?x with _ => _ end) => destruct x
      end ].

Lemma calls_collectShard n acc entry :
  callsLe n (CloudSyncManager.collectShard acc entry).
Proof.
  apply calls_still. intros w.
  destruct (collectShard_spec acc entry w) as (acc' & w' & E & _).
  rewrite E. simpl.
  unfold CloudSyncManager.collectShard in E.
  destruct (String.prefix SHARD_PREFIX (fst entry));
    [|injection E as _ <-; reflexivity].
  destruct (snd entry) as [|[text|]];
    try (injection E as _ <-; reflexivity).
  unfold tryCatch, bind in E.
  destruct text as [| |d]; simpl in E;
    try (injection E as _ <-; reflexivity).
  unfold parseDoc in E. destruct (sd_customTags d);
    simpl in E; injection E as _ <-; reflexivity.
Qed.

Lemma calls_collect n files : forall acc,
  callsLe n (foldM CloudSyncManager.collectShard files acc).
Proof.
  induction files as [|entry files IH]; intros acc; simpl.
  - apply calls_ret.
  - apply calls_bind0; [apply calls_collectShard | intros a; apply IH].
Qed.

Lemma calls_getGist : callsLe 1 (CloudSyncManager.getGist env).
Proof.
  unfold CloudSyncManager.getGist, CloudSyncManager.getToken.
  calls_tac.
  all: try (apply calls_bind0; [apply calls_collect | intros ?]; calls_tac).
Qed.

Lemma calls_createGist data :
  callsLe 1 (CloudSyncManager.createGist env data).
Proof.
  unfold CloudSyncManager.createGist, CloudSyncManager.getToken,
    CloudSyncManager.shardNotesOf.
  calls_tac.
Qed.

Lemma calls_then_ret {A B} n (c : M A) (f : A -> B) :
  callsLe n c -> callsLe n (bind c (fun a => ret (f a))).
Proof.
  intros H. apply (calls_weaken (n + 0)); [lia|].
  apply calls_bind; [exact H | intros a; apply calls_ret].
Qed.

Lemma calls_updateGist data :
  callsLe 3 (CloudSyncManager.updateGist env data).
Proof.
  unfold CloudSyncManager.updateGist, CloudSyncManager.getToken,
    CloudSyncManager.shardNotesOf.
  calls_tac.
  - apply (calls_weaken 1); [lia|].
    apply calls_then_ret, calls_createGist.
  - apply (calls_bind 1 2); [calls_tac | intros files'].
    calls_tac. apply calls_then_ret, calls_createGist.
Qed.

Lemma calls_syncUp : callsLe 4 (CloudSyncManager.syncUp env).
Proof.
  unfold CloudSyncManager.syncUp, CloudSyncManager.updateLastSyncTime,
    CloudSyncManager.shardNotesOf.
  apply calls_tryCatch0; [|intros e; apply calls_failure].
  apply calls_bind0; [apply calls_getNotes | intros localNotes].
  apply calls_bind0; [apply calls_getItem | intros gistId].
  apply (calls_bind 1 3).
  - destruct (JS.truthy_str gistId); [|apply calls_ret].
    apply calls_tryCatch0; [|intros e; apply calls_ret].
    apply (calls_weaken (1 + 0)); [lia|].
    apply calls_bind; [apply calls_getGist | intros ?; calls_tac].
  - intros notesToUpload. calls_tac.
    apply (calls_weaken (3 + 0)); [lia|].
    apply calls_bind; [apply calls_updateGist | intros ?; calls_tac].
Qed.

Lemma calls_syncDown : callsLe 1 (CloudSyncManager.syncDown env).
Proof.
  unfold CloudSyncManager.syncDown, CloudSyncManager.updateLastSyncTime.
  apply calls_tryCatch0; [|intros e; apply calls_failure].
  apply (calls_weaken (1 + 0)); [lia|].
  apply calls_bind; [apply calls_getGist | intros ?; calls_tac].
Qed.
Lemma calls_createGistV0 data :
  callsLe 1 (CloudSyncManagerV0.createGist env data).
Proof.
  unfold CloudSyncManagerV0.createGist, CloudSyncManagerV0.getToken.
  calls_tac.
Qed.

Lemma calls_updateGistV0 data :
  callsLe 2 (CloudSyncManagerV0.updateGist env data).
Proof.
  unfold CloudSyncManagerV0.updateGist, CloudSyncManagerV0.getToken.
  calls_tac.
  - apply (calls_weaken 1); [lia|].
    apply calls_then_ret, calls_createGistV0.
  - apply calls_then_ret, calls_createGistV0.
Qed.

Lemma calls_getGistV0 : callsLe 1 (CloudSyncManagerV0.getGist env).
Proof.
  unfold CloudSyncManagerV0.getGist, CloudSyncManagerV0.getToken.
  calls_tac.
Qed.

Lemma calls_syncUpV0 : callsLe 2 (CloudSyncManagerV0.syncUp env).
Proof.
  unfold CloudSyncManagerV0.syncUp, CloudSyncManagerV0.updateLastSyncTime.
  calls_tac.
  apply (calls_weaken (2 + 0)); [lia|].
  apply calls_bind; [apply calls_updateGistV0 | intros ?; calls_tac].
Qed.

Lemma calls_syncDownV0 : callsLe 1 (CloudSyncManagerV0.syncDown env).
Proof.
  unfold CloudSyncManagerV0.syncDown, CloudSyncManagerV0.updateLastSyncTime.
  apply calls_tryCatch0; [|intros e; apply calls_failure].
  apply (calls_weaken (1 + 0)); [lia|].
  apply calls_bind; [apply calls_getGistV0 | intros ?; calls_tac].
Qed.

Lemma calls_syncUpWebDAV : callsLe 1 (WebDAVSyncManager.syncUp env).
Proof.
  unfold WebDAVSyncManager.syncUp, WebDAVSyncManager.updateLastSyncTime,
    WebDAVSyncManager.isConnected, WebDAVSyncManager.getAuthHeader,
    WebDAVSyncManager.getConfig.
  calls_tac.
Qed.

Lemma calls_syncDownWebDAV : callsLe 1 (WebDAVSyncManager.syncDown env).
Proof.
  unfold WebDAVSyncManager.syncDown, WebDAVSyncManager.updateLastSyncTime,
    WebDAVSyncManager.isConnected, WebDAVSyncManager.getAuthHeader,
    WebDAVSyncManager.getConfig.
  calls_tac.
Qed.

Lemma calls_testConnection : callsLe 1 (WebDAVConfig.testConnection env).
Proof.
  unfold WebDAVConfig.testConnection, WebDAVSyncManager.getAuthHeader,
    WebDAVSyncManager.getConfig.
  calls_tac.
Qed.
End CallCount.

(** X18. No operation loops on the network.  Whatever the remote
    answers, a sharded upload makes at most four requests (read for the
    merge, read of the file list, update, and one re-creation when the
    update finds the remote object gone), an upload of the earliest
    Gist manager at most two, and every download, every WebDAV
    operation and the connection test at most one. *)
Theorem network_calls_bounded :
  forall (env : Env) (w : World),
    netCalls (snd (CloudSyncManager.syncUp env w)) <= netCalls w + 4
    /\ netCalls (snd (CloudSyncManager.syncDown env w)) <= netCalls w + 1
    /\ netCalls (snd (CloudSyncManagerV0.syncUp env w)) <= netCalls w + 2
    /\ netCalls (snd (CloudSyncManagerV0.syncDown env w)) <= netCalls w + 1
    /\ netCalls (snd (WebDAVSyncManager.syncUp env w)) <= netCalls w + 1
    /\ netCalls (snd (WebDAVSyncManager.syncDown env w)) <= netCalls w + 1
    /\ netCalls (snd (WebDAVConfig.testConnection env w)) <= netCalls w + 1.
Proof.
  intros env w. repeat split.
  - apply calls_syncUp.
  - apply calls_syncDown.
  - apply calls_syncUpV0.
  - apply calls_syncDownV0.
  - apply calls_syncUpWebDAV.
  - apply calls_syncDownWebDAV.
  - apply calls_testConnection.
Qed.

(** ** The first upload creates the remote object and keeps its handle *)

(** X19. With a token and no stored handle, an upload of either Gist
    manager makes one request, the creation; when the remote accepts it
    and names the new object, the upload succeeds, stores that name as
    the handle for later updates and records the time of the sync. *)
Theorem first_upload_stores_handle :
  forall (env : Env) (w : World) (r : Response) (g : RemoteObj)
         (gid : string),
    JS.truthy_str (items (ls w) GITHUB_TOKEN_KEY) = true ->
    JS.truthy_str (items (ls w) GIST_ID_KEY) = false ->
    (forall req, fetch env (netCalls w) req = Responded r) ->
    ok r = true -> body r = PValue g -> r_id g = Some gid ->
    quota_ok env GIST_ID_KEY = true ->
    quota_ok env LAST_SYNC_KEY = true ->
    let stored (res : Outcome SyncResult * World) :=
      (exists x, fst res = Returned x /\ success x = true)
      /\ items (ls (snd res)) GIST_ID_KEY = Some gid
      /\ items (ls (snd res)) LAST_SYNC_KEY = Some (now env)
      /\ netCalls (snd res) = S (netCalls w) in
    stored (CloudSyncManager.syncUp env w)
    /\ stored (CloudSyncManagerV0.syncUp env w).
Proof.
  intros env w r g gid Ht Hg Hf Hok Hb Hid Hq1 Hq2 stored.
  unfold stored. split.
  - unfold CloudSyncManager.syncUp, CloudSyncManager.updateGist,
      CloudSyncManager.createGist, CloudSyncManager.shardNotesOf,
      CloudSyncManager.getToken, CloudSyncManager.updateLastSyncTime,
      CloudSyncManager.idString, setItem, doFetch, parsed.
    run_sync. rewrite Hg. simpl. rewrite Ht, Hg. simpl. rewrite Ht. simpl.
    rewrite Hf, Hok, Hb. simpl. rewrite Hq1. simpl. rewrite Hq2. simpl.
    rewrite ?Hid. unfold setEntry. simpl. rewrite ?Hid.
    split; [eexists; split; reflexivity|]. repeat split; reflexivity.
  - unfold CloudSyncManagerV0.syncUp, CloudSyncManagerV0.updateGist,
      CloudSyncManagerV0.createGist, CloudSyncManagerV0.getToken,
      CloudSyncManagerV0.updateLastSyncTime,
      CloudSyncManagerV0.idString, setItem, doFetch, parsed.
    run_sync. rewrite Ht, Hg. simpl. rewrite Ht. simpl.
    rewrite Hf, Hok, Hb. simpl. rewrite Hq1. simpl. rewrite Hq2. simpl.
    rewrite ?Hid. unfold setEntry. simpl. rewrite ?Hid.
    split; [eexists; split; reflexivity|]. repeat split; reflexivity.
Qed.

Lemma first_upload_stores_handle_witness :
  let env := exEnv shardedReply in
  let w := mkWorld (mkLS autoItems (Some [localNote]) None None) 0 0 in
  JS.truthy_str (items (ls w) GITHUB_TOKEN_KEY) = true
  /\ JS.truthy_str (items (ls w) GIST_ID_KEY) = false
  /\ items (ls (snd (CloudSyncManager.syncUp env w))) GIST_ID_KEY
     = Some "gist1".
Proof.
  intros env w. split; [reflexivity|]. split; [reflexivity|].
  exact (proj1 (proj2 (proj1
    (first_upload_stores_handle env w shardedReply
       (mkRemoteObj None (Some "gist1")
          (Some [("insight-shard-0.json",
                  FileObj (Some (PValue remoteDoc)))]) noDoc)
       "gist1" eq_refl eq_refl (fun _ => eq_refl)
       eq_refl eq_refl eq_refl eq_refl eq_refl)))).
Defined.

(** ** How the WebDAV manager reads the answer of the remote *)

(** X20. A configured WebDAV manager whose request is answered: a
    download that is not answered with success returns
    [success: false], with the message of the status (404: no data file,
    401: authentication), and leaves the storage untouched; an upload
    reports success exactly when the answer is a success, 201 or 204,
    records the sync time then, and otherwise leaves the storage
    untouched. *)
Theorem webdav_status_mapping :
  forall (env : Env) (w : World) (auth : string) (r : Response),
    fst (WebDAVSyncManager.isConnected w) = Returned true ->
    fst (WebDAVSyncManager.getAuthHeader env w) = Returned auth ->
    (forall req, fetch env (netCalls w) req = Responded r) ->
    quota_ok env WEBDAV_LAST_SYNC_KEY = true ->
    (ok r = false ->
     exists x w',
       WebDAVSyncManager.syncDown env w = (Returned x, w')
       /\ success x = false /\ ls w' = ls w
       /\ (status r = 404%Z -> res_message x = "云端没有找到数据文件")
       /\ (status r = 401%Z -> res_message x = "认证失败，请检查账号密码"))
    /\ (exists x w',
          WebDAVSyncManager.syncUp env w = (Returned x, w')
          /\ success x
             = (ok r || (status r =? 201)%Z || (status r =? 204)%Z)
          /\ (success x = false -> ls w' = ls w)
          /\ (success x = true ->
              items (ls w') WEBDAV_LAST_SYNC_KEY = Some (now env))).
Proof.
  intros env w auth r Hc Ha Hf Hq.
  unfold WebDAVSyncManager.isConnected, WebDAVSyncManager.getAuthHeader,
    WebDAVSyncManager.getConfig in Hc, Ha.
  revert Hc Ha. run_sync. intros [= Hc] Ha.
  destruct (btoa env _) as [cred|] eqn:Eb; [|discriminate].
  split.
  - intros Hok.
    unfold WebDAVSyncManager.syncDown, WebDAVSyncManager.isConnected,
      WebDAVSyncManager.getAuthHeader, WebDAVSyncManager.getConfig, doFetch.
    run_sync. rewrite Hc. simpl. rewrite Eb. simpl. rewrite Hf, Hok.
    destruct (status r =? 404)%Z eqn:E404;
      [|destruct (status r =? 401)%Z eqn:E401];
      eexists _, _; (split; [reflexivity|]); simpl;
      repeat split; try reflexivity; intros E; rewrite E in *;
      discriminate.
  - unfold WebDAVSyncManager.syncUp, WebDAVSyncManager.isConnected,
      WebDAVSyncManager.getAuthHeader, WebDAVSyncManager.getConfig,
      WebDAVSyncManager.updateLastSyncTime, setItem, doFetch.
    run_sync. rewrite Hc. simpl. rewrite Eb. simpl. rewrite Hf.
    destruct (ok r || (status r =? 201)%Z || (status r =? 204)%Z) eqn:E.
    + rewrite Hq. simpl. eexists _, _. split; [reflexivity|]. simpl.
      repeat split; discriminate.
    + destruct (status r =? 401)%Z; [|destruct (status r =? 507)%Z];
        eexists _, _; (split; [reflexivity|]); simpl;
        repeat split; try discriminate; reflexivity.
Qed.

Lemma webdav_status_mapping_witness :
  let env := exEnv (mkResponse false 404 SyntaxErr) in
  let w := exWorld [workTag] in
  fst (WebDAVSyncManager.isConnected w) = Returned true
  /\ exists x w',
       WebDAVSyncManager.syncDown env w = (Returned x, w')
       /\ success x = false /\ ls w' = ls w.
Proof.
  intros env w. split; [reflexivity|].
  destruct (proj1 (webdav_status_mapping env w "Basic user:secret"
                     (mkResponse false 404 SyntaxErr)
                     eq_refl eq_refl (fun _ => eq_refl) eq_refl) eq_refl)
    as (x & w' & H1 & H2 & H3 & _).
  exists x, w'. auto.
Defined.

(** X21. [testConnection] always returns a result, whatever the
    configuration, the encoder and the network do; it never writes to
    the storage and makes at most one request; and it reports success
    only when the PROPFIND on the stored server address (the empty
    address when none is stored) was answered with a success or with
    status 207. *)
Theorem testConnection_only_probes :
  forall (env : Env) (w : World),
  exists x w',
    WebDAVConfig.testConnection env w = (Returned x, w')
    /\ ls w' = ls w
    /\ netCalls w' <= S (netCalls w)
    /\ (success x = true ->
        exists r,
          fetch env (netCalls w)
            (mkRequest "PROPFIND"
               (orElse (items (ls w) WEBDAV_SERVER_KEY) "") NoBody)
          = Responded r
          /\ (ok r = true \/ status r = 207%Z)).
Proof.
  intros env w.
  unfold WebDAVConfig.testConnection, WebDAVSyncManager.getAuthHeader,
    WebDAVSyncManager.getConfig, doFetch.
  run_sync.
  destruct (btoa env _) as [cred|]; simpl.
  - destruct (fetch env (netCalls w) _) as [e|r] eqn:Ef; simpl.
    + eexists _, _. split; [reflexivity|]. simpl.
      repeat split; auto. discriminate.
    + destruct (ok r) eqn:Eok; simpl.
      * eexists _, _. split; [reflexivity|]. simpl.
        repeat split; auto. intros _. exists r. auto.
      * destruct (status r =? 207)%Z eqn:E207; simpl.
        -- eexists _, _. split; [reflexivity|]. simpl.
           repeat split; auto. intros _. exists r.
           split; [reflexivity|]. right. now apply Z.eqb_eq.
        -- destruct (status r =? 401)%Z;
             eexists _, _; (split; [reflexivity|]); simpl;
             repeat split; auto; discriminate.
  - eexists _, _. split; [reflexivity|]. simpl.
    repeat split; auto. discriminate.
Qed.

(** ** The WebDAV configuration *)

Lemma prefix_app (p s : string) : String.prefix p (p ++ s)%string = true.
Proof.
  induction p as [|c p IH]; simpl.
  - now destruct s.
  - destruct (Ascii.ascii_dec c c); [exact IH | contradiction].
Qed.

Lemma prefix_app_r (p s t : string) :
  String.prefix p s = true -> String.prefix p (s ++ t)%string = true.
Proof.
  revert s. induction p as [|c p IH]; intros s; simpl.
  - intros _. now destruct (s ++ t)%string.
  - destruct s as [|d s]; simpl; [discriminate|].
    destruct (Ascii.ascii_dec c d); [apply IH | discriminate].
Qed.

Lemma endsWith_refl (s : string) : endsWith s s = true.
Proof.
  destruct s as [|c s]; [reflexivity|].
  change ((if String.eqb (String c s) (String c s) then true
           else endsWith s (String c s)) = true).
  now rewrite String.eqb_refl.
Qed.

Lemma endsWith_app (s suf : string) : endsWith (s ++ suf)%string suf = true.
Proof.
  induction s as [|c s IH].
  - apply endsWith_refl.
  - change (endsWith (String c (s ++ suf)) suf = true).
    change ((if String.eqb (String c (s ++ suf)) suf then true
             else endsWith (s ++ suf) suf) = true).
    rewrite IH. now destruct (String.eqb _ _).
Qed.

Lemma normalizeServer_scheme (server : string) :
  String.prefix "http://" (WebDAVConfig.normalizeServer server)
  || String.prefix "https://" (WebDAVConfig.normalizeServer server) = true.
Proof.
  unfold WebDAVConfig.normalizeServer, WebDAVConfig.withSlash.
  assert (H : String.prefix "http://" (WebDAVConfig.withScheme server)
              || String.prefix "https://" (WebDAVConfig.withScheme server)
              = true).
  { unfold WebDAVConfig.withScheme.
    destruct (String.prefix "http://" server) eqn:E1;
      destruct (String.prefix "https://" server) eqn:E2;
      cbn [negb andb]; rewrite ?E1, ?E2; try reflexivity.
    rewrite (prefix_app "https://" server). apply orb_true_r. }
  destruct (negb (endsWith _ "/")); [|exact H].
  apply orb_true_iff in H. apply orb_true_iff.
  destruct H as [H|H]; [left|right]; now apply prefix_app_r.
Qed.

Lemma normalizeServer_slash (server : string) :
  endsWith (WebDAVConfig.normalizeServer server) "/" = true.
Proof.
  unfold WebDAVConfig.normalizeServer, WebDAVConfig.withSlash.
  destruct (endsWith (WebDAVConfig.withScheme server) "/") eqn:E;
    cbn [negb]; [exact E | apply endsWith_app].
Qed.

Lemma normalizeServer_nonEmpty (server : string) :
  WebDAVSyncManager.nonEmpty (WebDAVConfig.normalizeServer server) = true.
Proof.
  pose proof (normalizeServer_slash server) as H.
  destruct (WebDAVConfig.normalizeServer server); [discriminate H|reflexivity].
Qed.

(** X22. [saveConfig] stores a server address that starts with a scheme
    and ends with a slash, and leaves an address of that form as it is;
    when the three writes fit, [getConfig] reads back the corrected
    address with the user name and the password as given, the manager is
    connected exactly when user name and password are both non-empty,
    and after [clearConfig] it is not connected. *)
Theorem saveConfig_normalizes :
  forall (env : Env) (w : World) (server username password : string),
    quota_ok env WEBDAV_SERVER_KEY = true ->
    quota_ok env WEBDAV_USERNAME_KEY = true ->
    quota_ok env WEBDAV_PASSWORD_KEY = true ->
    let stored := WebDAVConfig.normalizeServer server in
    let w' := snd (WebDAVConfig.saveConfig env server username password w) in
    (String.prefix "http://" stored || String.prefix "https://" stored = true)
    /\ endsWith stored "/" = true
    /\ WebDAVConfig.normalizeServer stored = stored
    /\ fst (WebDAVSyncManager.getConfig w')
       = Returned (WebDAVSyncManager.mkConfig stored username password)
    /\ fst (WebDAVSyncManager.isConnected w')
       = Returned (WebDAVSyncManager.nonEmpty username
                   && WebDAVSyncManager.nonEmpty password)
    /\ fst (WebDAVSyncManager.isConnected (snd (WebDAVConfig.clearConfig w')))
       = Returned false.
Proof.
  intros env w server username password Hs Hu Hp stored w'.
  pose proof (normalizeServer_scheme server) as Hscheme.
  pose proof (normalizeServer_slash server) as Hslash.
  pose proof (normalizeServer_nonEmpty server) as Hne.
  fold stored in Hscheme, Hslash, Hne.
  split; [exact Hscheme|]. split; [exact Hslash|]. split.
  { unfold WebDAVConfig.normalizeServer at 1.
    unfold WebDAVConfig.withSlash, WebDAVConfig.withScheme.
    apply orb_true_iff in Hscheme.
    assert (E : negb (String.prefix "http://" stored)
                && negb (String.prefix "https://" stored) = false)
      by (destruct Hscheme as [-> | ->]; cbn [negb andb];
          auto using andb_false_r).
    rewrite E, Hslash. reflexivity. }
  subst w'.
  unfold WebDAVConfig.saveConfig, WebDAVConfig.clearConfig,
    WebDAVSyncManager.isConnected, WebDAVSyncManager.getConfig,
    setItem, removeItem.
  run_sync. rewrite Hs. simpl. rewrite Hu. simpl. rewrite Hp. simpl.
  clear Hscheme Hslash. subst stored.
  destruct (WebDAVConfig.normalizeServer server); [discriminate Hne|].
  destruct username, password; repeat split; reflexivity.
Qed.

Lemma saveConfig_normalizes_witness :
  let env := exEnv webdavReply in
  let w' := snd (WebDAVConfig.saveConfig env "dav.jianguoyun.com/dav"
                   "user" "secret" (mkWorld (mkLS (fun _ => None) None None None) 0 0)) in
  fst (WebDAVSyncManager.getConfig w')
  = Returned (WebDAVSyncManager.mkConfig "https://dav.jianguoyun.com/dav/"
                "user" "secret").
Proof.
  intros env w'.
  exact (proj1 (proj2 (proj2 (proj2
           (saveConfig_normalizes env
              (mkWorld (mkLS (fun _ => None) None None None) 0 0)
              "dav.jianguoyun.com/dav" "user" "secret"
              eq_refl eq_refl eq_refl))))).
Defined.

(** ** Disconnecting *)

(** X23. [clearToken] removes the token and the remote handle and
    nothing else: the manager is not connected afterwards, notes, tags,
    colours and every other entry of the storage stay, and both sync
    operations then refuse with '未连接 GitHub' without a network call.
    It does not stop a running auto-sync timer. *)
Theorem clearToken_disconnects :
  forall (env : Env) (w : World),
    let w' := snd (Account.clearToken w) in
    fst (Account.isConnected w') = Returned false
    /\ items (ls w') GIST_ID_KEY = None
    /\ (forall k, k <> GITHUB_TOKEN_KEY -> k <> GIST_ID_KEY ->
        items (ls w') k = items (ls w) k)
    /\ ls_notes (ls w') = ls_notes (ls w)
    /\ ls_customTags (ls w') = ls_customTags (ls w)
    /\ ls_tagColors (ls w') = ls_tagColors (ls w)
    /\ (let refused (r : Outcome SyncResult * World) :=
          fst r = Returned (mkResult false "未连接 GitHub" None None)
          /\ ls (snd r) = ls w' /\ netCalls (snd r) = netCalls w' in
        refused (CloudSyncManager.syncUp env w')
        /\ refused (CloudSyncManager.syncDown env w'))
    /\ (forall s,
          Scheduler.autoSyncTimer (Scheduler.clearToken s)
          = Scheduler.autoSyncTimer s
          /\ Scheduler.timers (Scheduler.clearToken s) = Scheduler.timers s
          /\ Scheduler.isConnected (Scheduler.clearToken s) = false).
Proof.
  intros env w w'.
  assert (Ht : items (ls w') GITHUB_TOKEN_KEY = None) by reflexivity.
  assert (Hg : items (ls w') GIST_ID_KEY = None) by reflexivity.
  split; [reflexivity|]. split; [exact Hg|]. split.
  { intros k Hk1 Hk2. subst w'.
    unfold Account.clearToken, removeItem, bind. cbn [snd ls items withLs withItems].
    unfold dropEntry.
    destruct (String.eqb_spec GIST_ID_KEY k) as [E|_]; [now subst|].
    destruct (String.eqb_spec GITHUB_TOKEN_KEY k) as [E|_]; [now subst|].
    reflexivity. }
  split; [reflexivity|]. split; [reflexivity|]. split; [reflexivity|].
  clearbody w'. split.
  - split.
    + unfold CloudSyncManager.syncUp, CloudSyncManager.updateGist,
        CloudSyncManager.getToken.
      run_sync. rewrite Hg. simpl. rewrite Ht. simpl.
      repeat split; reflexivity.
    + unfold CloudSyncManager.syncDown, CloudSyncManager.getGist,
        CloudSyncManager.getToken.
      run_sync. rewrite Ht. simpl. repeat split; reflexivity.
  - intros s. repeat split; reflexivity.
Qed.

(** ** The files of an upload *)

Lemma string_of_nat_inj (i j : nat) :
  string_of_nat i = string_of_nat j -> i = j.
Proof.
  unfold string_of_nat. intros E.
  assert (Hnn : forall n, Nat.to_uint n <> Decimal.Nil).
  { intros n. rewrite <- (DecimalNat.Unsigned.of_to n) at 1.
    rewrite DecimalNat.Unsigned.to_of. apply DecimalFacts.unorm_nonnil. }
  apply DecimalNat.Unsigned.to_uint_inj.
  pose proof (NilZero.usu _ (Hnn i)) as Hi.
  pose proof (NilZero.usu _ (Hnn j)) as Hj.
  rewrite E in Hi. congruence.
Qed.

Lemma string_length_app (a b : string) :
  String.length (a ++ b)%string = String.length a + String.length b.
Proof. induction a as [|c a IH]; simpl; [reflexivity | now rewrite IH]. Qed.

Lemma string_app_inj_r (a b s : string) :
  (a ++ s)%string = (b ++ s)%string -> a = b.
Proof.
  intros E.
  assert (Hl : String.length a = String.length b).
  { apply (f_equal String.length) in E.
    rewrite !string_length_app in E. lia. }
  revert b E Hl. induction a as [|c a IH]; intros [|d b] E Hl;
    simpl in *; try discriminate; [reflexivity|].
  injection E as -> E. f_equal. apply IH; [exact E | lia].
Qed.

Lemma shardFileName_inj (i j : nat) :
  CloudSyncManager.shardFileName i = CloudSyncManager.shardFileName j ->
  i = j.
Proof.
  unfold CloudSyncManager.shardFileName, SHARD_PREFIX. intros E.
  simpl in E. injection E as E.
  apply string_of_nat_inj. eapply string_app_inj_r. exact E.
Qed.

Lemma shardFileName_prefix (i : nat) :
  String.prefix SHARD_PREFIX (CloudSyncManager.shardFileName i) = true.
Proof. unfold CloudSyncManager.shardFileName. apply prefix_app. Qed.

Lemma putFiles_other docs : forall i files k,
  (forall j, j < length docs -> k <> CloudSyncManager.shardFileName (i + j)) ->
  JS.map_get k (CloudSyncManager.putFiles i docs files) = JS.map_get k files.
Proof.
  induction docs as [|d docs IH]; intros i files k Hk; simpl; [reflexivity|].
  rewrite IH.
  - apply map_get_set_neq. intros E. apply (Hk 0); [simpl; lia|].
    now rewrite Nat.add_0_r.
  - intros j Hj E. apply (Hk (S j)); [simpl; lia|].
    now rewrite Nat.add_succ_r.
Qed.

Lemma putFiles_get docs : forall i files j d,
  nth_error docs j = Some d ->
  JS.map_get (CloudSyncManager.shardFileName (i + j))
             (CloudSyncManager.putFiles i docs files)
  = Some (Some (stringifyShard d)).
Proof.
  induction docs as [|d0 docs IH]; intros i files j d Hj.
  - destruct j; discriminate.
  - destruct j as [|j]; simpl in Hj |- *.
    + injection Hj as ->. rewrite Nat.add_0_r. rewrite putFiles_other.
      * apply map_get_set_eq.
      * intros j _ E. apply shardFileName_inj in E. lia.
    + replace (i + S j) with (S i + j) by lia. now apply IH.
Qed.

Lemma shardFilesFrom_nth {T} now (data : Snapshot T) count shards :
  forall i j shard,
    nth_error shards j = Some shard ->
    nth_error (shardFilesFrom now data count i shards) j
    = Some (shardDataAt now data count (i + j) shard).
Proof.
  induction shards as [|s shards IH]; intros i j shard Hj.
  - destruct j; discriminate.
  - destruct j as [|j]; simpl in Hj |- *.
    + injection Hj as ->. now rewrite Nat.add_0_r.
    + rewrite (IH (S i) j shard Hj). f_equal. f_equal. lia.
Qed.

Lemma shardFilesFrom_length {T} now (data : Snapshot T) count shards :
  forall i, length (shardFilesFrom now data count i shards) = length shards.
Proof. induction shards; intros i; simpl; auto. Qed.

Lemma liveFile_set_None k k' (fs : list (string * option Doc)) :
  CloudSyncManager.liveFile k fs = false ->
  CloudSyncManager.liveFile k (JS.map_set k' None fs) = false.
Proof.
  unfold CloudSyncManager.liveFile. intros H.
  destruct (string_dec k' k) as [->|Hne].
  - now rewrite map_get_set_eq.
  - now rewrite map_get_set_neq.
Qed.

Lemma markStale_other existing : forall files k,
  String.prefix SHARD_PREFIX k = false
  \/ CloudSyncManager.liveFile k files = true ->
  JS.map_get k (CloudSyncManager.markStale existing files)
  = JS.map_get k files.
Proof.
  unfold CloudSyncManager.markStale.
  induction existing as [|[k' f] existing IH]; intros files k Hk; simpl;
    [reflexivity|].
  destruct (String.prefix SHARD_PREFIX k'
            && negb (CloudSyncManager.liveFile k' files)) eqn:E;
    [|now apply IH].
  apply andb_true_iff in E. destruct E as [Ep El].
  apply negb_true_iff in El.
  assert (Hne : k' <> k) by (intros ->; destruct Hk; congruence).
  rewrite IH.
  - now apply map_get_set_neq.
  - destruct Hk as [Hk|Hk]; [now left|right].
    unfold CloudSyncManager.liveFile in *.
    now rewrite map_get_set_neq.
Qed.

Lemma markStale_deleted existing : forall files k,
  JS.map_get k files = Some None ->
  JS.map_get k (CloudSyncManager.markStale existing files) = Some None.
Proof.
  unfold CloudSyncManager.markStale.
  induction existing as [|[k' f] existing IH]; intros files k Hk; simpl;
    [exact Hk|].
  destruct (String.prefix SHARD_PREFIX k'
            && negb (CloudSyncManager.liveFile k' files)); [|now apply IH].
  apply IH. destruct (string_dec k' k) as [->|Hne].
  - apply map_get_set_eq.
  - now rewrite map_get_set_neq.
Qed.

Lemma markStale_stale existing : forall files k f,
  In (k, f) existing ->
  String.prefix SHARD_PREFIX k = true ->
  CloudSyncManager.liveFile k files = false ->
  JS.map_get k (CloudSyncManager.markStale existing files) = Some None.
Proof.
  induction existing as [|[k' f'] existing IH]; intros files k f Hin Hp Hl;
    [destruct Hin|].
  change (CloudSyncManager.markStale ((k', f') :: existing) files)
    with (CloudSyncManager.markStale existing
            (if String.prefix SHARD_PREFIX k'
                && negb (CloudSyncManager.liveFile k' files)
             then JS.map_set k' None files else files)).
  destruct Hin as [[= -> ->]|Hin].
  - rewrite Hp, Hl. cbn [negb andb]. apply markStale_deleted.
    apply map_get_set_eq.
  - apply (IH _ k f Hin Hp).
    destruct (_ && _); [now apply liveFile_set_None | exact Hl].
Qed.

Lemma putFiles_no_null docs : forall i files,
  (forall k, JS.map_get k files <> Some None) ->
  forall k, JS.map_get k (CloudSyncManager.putFiles i docs files) <> Some None.
Proof.
  induction docs as [|d docs IH]; intros i files H k; simpl; [apply H|].
  apply IH. intros k'.
  destruct (string_dec (CloudSyncManager.shardFileName i) k') as [<-|Hne].
  - rewrite map_get_set_eq. discriminate.
  - rewrite map_get_set_neq by exact Hne. apply H.
Qed.

(** X24. The request with which [updateGist] updates an existing gist.
    With a token and a gist id stored, the outcome of [updateGist] is the
    parsed answer to one PATCH request on the gist, which carries the
    description with the number of shards and this file set: every shard
    of the new set under [insight-shard-<i>.json] with its document (its
    notes, its index and the number of shards); when the preceding
    request for the existing gist succeeded, every shard file of that
    gist which the new set no longer has as [null], which deletes it, and
    when it did not succeed no [null] at all; and no file whose name does
    not start with the shard prefix, so the single file of the old format
    is never removed. *)
Theorem update_file_set :
  forall (env : Env) (data : Snapshot (Obj CustomTag)) (w : World)
         (r : Response),
    JS.truthy_str (items (ls w) GITHUB_TOKEN_KEY) = true ->
    JS.truthy_str (items (ls w) GIST_ID_KEY) = true ->
    let gistId := orElse (items (ls w) GIST_ID_KEY) "" in
    let shards :=
      shardNotes (noteSize env)
        (baseSizeOf env (orEmpty (ls_customTags (ls w)))
                    (orEmpty (ls_tagColors (ls w))) (now env))
        (notes data) in
    let files := CloudSyncManager.buildFiles env data shards in
    let existing :=
      listedFiles
        (fetch env (netCalls w)
           (mkRequest "GET" (CloudSyncManager.gistUrl gistId) NoBody)) in
    let sent :=
      match existing with
      | Some listed => CloudSyncManager.markStale listed files
      | None => files
      end in
    fetch env (S (netCalls w))
      (mkRequest "PATCH" (CloudSyncManager.gistUrl gistId)
         (GistFiles (Some (CloudSyncManager.description shards)) sent))
    = Responded r ->
    ok r = true ->
    fst (CloudSyncManager.updateGist env data w) = fst (parsed (body r) w)
    /\ (forall i shard,
           nth_error shards i = Some shard ->
           JS.map_get (CloudSyncManager.shardFileName i) sent
           = Some (Some (stringifyShard
                           (shardDataAt (now env) data (length shards)
                                        i shard))))
    /\ (forall listed k f,
           existing = Some listed ->
           In (k, f) listed ->
           String.prefix SHARD_PREFIX k = true ->
           (forall i, i < length shards ->
                      k <> CloudSyncManager.shardFileName i) ->
           JS.map_get k sent = Some None)
    /\ (existing = None -> forall k, JS.map_get k sent <> Some None)
    /\ (forall k,
           String.prefix SHARD_PREFIX k = false -> JS.map_get k sent = None).
Proof.
  intros env data w r Ht Hg gistId shards files existing sent Hpatch Hok.
  assert (Hget : forall i shard,
             nth_error shards i = Some shard ->
             JS.map_get (CloudSyncManager.shardFileName i) files
             = Some (Some (stringifyShard
                             (shardDataAt (now env) data (length shards)
                                          i shard)))).
  { intros i shard Hi. unfold files, CloudSyncManager.buildFiles, shardFiles.
    apply (putFiles_get _ 0 [] i).
    now rewrite (shardFilesFrom_nth _ _ _ _ 0 i shard Hi). }
  assert (Hother : forall k,
             (forall i, i < length shards ->
                        k <> CloudSyncManager.shardFileName i) ->
             JS.map_get k files = None).
  { intros k Hk. unfold files, CloudSyncManager.buildFiles, shardFiles.
    rewrite putFiles_other; [reflexivity|].
    intros j Hj. rewrite shardFilesFrom_length in Hj. now apply Hk. }
  assert (Hnull : forall k, JS.map_get k files <> Some None).
  { unfold files, CloudSyncManager.buildFiles.
    apply putFiles_no_null. intros k. discriminate. }
  split.
  { (* the run of [updateGist] *)
    unfold CloudSyncManager.updateGist, CloudSyncManager.getToken,
      CloudSyncManager.shardNotesOf.
    unfold bind at 1. unfold getItem at 1. cbn beta iota.
    unfold bind at 1. unfold getItem at 1. cbn beta iota.
    rewrite Ht, Hg. cbn [negb].
    unfold bind at 1. unfold bind at 1. unfold getCustomTags, allocArray.
    cbn beta iota.
    unfold bind at 1. unfold getTagColors at 1. cbn beta iota.
    unfold ret at 1.
    cbn [ls heapNext netCalls]. rewrite allocFrom_val.
    fold gistId. fold shards. fold files.
    unfold bind at 1.
    assert (Htry : exists w1,
      tryCatch
        (existingGist <- doFetch env
           (mkRequest "GET" (CloudSyncManager.gistUrl gistId) NoBody) ;;
         (if ok existingGist
          then gistData <- parsed (body existingGist) ;;
               g <- deref gistData ;;
               ret (CloudSyncManager.markStale (orEmpty (r_files g)) files)
          else ret files))
        (fun _ => ret files)
        (mkWorld (ls w)
           (heapNext w + length (orEmpty (ls_customTags (ls w))))
           (netCalls w))
      = (Returned sent, w1) /\ netCalls w1 = S (netCalls w)).
    { unfold tryCatch, bind, doFetch. cbn [netCalls ls heapNext].
      unfold sent, existing, listedFiles.
      destruct (fetch env (netCalls w) _) as [e|x]; cbn beta iota.
      - eexists. split; reflexivity.
      - destruct (ok x); cbn beta iota.
        + destruct (body x) as [| |g]; cbn beta iota; unfold ret;
            eexists; split; reflexivity.
        + unfold ret. eexists. split; reflexivity. }
    destruct Htry as (w1 & Htry & Hcalls). rewrite Htry.
    unfold bind at 1. unfold doFetch. rewrite Hcalls, Hpatch, Hok.
    cbn [negb]. destruct (body r); reflexivity. }
  split; [|split; [|split]].
  - intros i shard Hi. unfold sent. destruct existing as [listed|].
    + rewrite markStale_other; [now apply Hget|].
      right. unfold CloudSyncManager.liveFile. now rewrite (Hget i shard Hi).
    + now apply Hget.
  - intros listed k f E Hin Hp Hk. unfold sent. rewrite E.
    apply (markStale_stale _ _ k f Hin Hp).
    unfold CloudSyncManager.liveFile. now rewrite (Hother k Hk).
  - intros E k. unfold sent. rewrite E. apply Hnull.
  - intros k Hp.
    assert (Hk : JS.map_get k files = None).
    { apply Hother. intros i _ ->. rewrite shardFileName_prefix in Hp.
      discriminate. }
    unfold sent. destruct existing as [listed|]; [|exact Hk].
    rewrite markStale_other; [exact Hk | now left].
Qed.

Lemma update_file_set_witness :
  let listed :=
    [("insight-shard-0.json", FileObj (Some (PValue remoteDoc)));
     ("insight-shard-1.json", FileObj (Some (PValue remoteDoc)))] in
  let reply :=
    mkResponse true 200
      (PValue (mkRemoteObj None (Some "gist1") (Some listed) noDoc)) in
  let env := exEnv reply in
  let w := exWorld [workTag] in
  let data : Snapshot (Obj CustomTag) :=
    mkSnapshot [localNote] [] [] (Some "2024-03-01T00:00:00.000Z") "1.0" in
  let shards := shardNotes (noteSize env) 150%N [localNote] in
  JS.truthy_str (items (ls w) GITHUB_TOKEN_KEY) = true
  /\ JS.truthy_str (items (ls w) GIST_ID_KEY) = true
  /\ shards = [[localNote]]
  /\ fst (CloudSyncManager.updateGist env data w) = fst (parsed (body reply) w)
  /\ JS.map_get "insight-shard-1.json"
       (CloudSyncManager.markStale listed
          (CloudSyncManager.buildFiles env data shards))
     = Some None.
Proof.
  intros listed reply env w data shards.
  pose proof (update_file_set env data w reply eq_refl eq_refl
                eq_refl eq_refl) as (Hrun & _ & Hstale & _).
  split; [reflexivity|]. split; [reflexivity|]. split; [reflexivity|].
  split; [exact Hrun|].
  apply (Hstale listed "insight-shard-1.json"
           (FileObj (Some (PValue remoteDoc))) eq_refl).
  - right. left. reflexivity.
  - reflexivity.
  - intros i Hi E. destruct i as [|i].
    + discriminate E.
    + apply Nat.succ_lt_mono in Hi. inversion Hi.
Defined.

(** ** Shard files that cannot be read *)

Lemma collectShard_unreadable acc entry w :
  readableShard entry = false ->
  CloudSyncManager.collectShard acc entry w = (Returned acc, w).
Proof.
  unfold readableShard, CloudSyncManager.collectShard.
  destruct (String.prefix SHARD_PREFIX (fst entry)); [|reflexivity].
  destruct (snd entry) as [|[[| |d]|]]; try reflexivity.
  discriminate.
Qed.

Lemma collectShard_readable acc entry w :
  readableShard entry = true ->
  exists o w',
    CloudSyncManager.collectShard acc entry w
    = (Returned (acc ++ [(CloudSyncManager.shardIndex o, o)]), w')
    /\ snd entry = FileObj (Some (PValue (stringifyShard o))).
Proof.
  unfold readableShard, CloudSyncManager.collectShard.
  destruct (String.prefix SHARD_PREFIX (fst entry)); [|discriminate].
  destruct (snd entry) as [|[[| |d]|]]; try discriminate. intros _.
  unfold tryCatch, bind. simpl.
  unfold parseDoc, stringifyShard.
  destruct d as [ns tags colors st ver info]; simpl.
  destruct tags as [tags|]; simpl.
  - unfold bind, allocArray, ret. simpl. eexists _, _.
    split; [reflexivity|]. simpl. do 3 f_equal.
    f_equal. f_equal.
    generalize (heapNext w). induction tags as [|t tags IH]; intros h;
      simpl; [reflexivity|]. now rewrite <- IH.
  - unfold ret. eexists _, _. split; reflexivity.
Qed.

(** X25. The loop of [getGist] over the files of a gist never throws:
    a file without the shard prefix, a shard file that is [null] or has
    no content, and a shard file whose content is not the text of a JSON
    object are passed over, so the loop does on the whole gist exactly what
    it does on its readable shard files alone, and collects one shard for
    each of them. *)
Theorem unreadable_shards_skipped :
  forall (files : list (string * GistFile))
         (acc : list (nat * ShardData (Obj CustomTag))) (w : World),
    foldM CloudSyncManager.collectShard files acc w
    = foldM CloudSyncManager.collectShard (filter readableShard files) acc w
    /\ exists found w',
         foldM CloudSyncManager.collectShard files acc w = (Returned found, w')
         /\ length found = length acc + length (filter readableShard files)
         /\ map (fun p => FileObj (Some (PValue (stringifyShard (snd p)))))
                found
            = map (fun p => FileObj (Some (PValue (stringifyShard (snd p)))))
                  acc
              ++ map snd (filter readableShard files).
Proof.
  induction files as [|entry files IH]; intros acc w.
  - split; [reflexivity|]. exists acc, w. simpl.
    rewrite Nat.add_0_r, app_nil_r. auto.
  - cbn [filter foldM]. destruct (readableShard entry) eqn:E.
    + destruct (collectShard_readable acc entry w E) as (o & w1 & H1 & Ho).
      cbn [foldM]. rewrite !(bind_eq _ _ _ _ _ H1).
      destruct (IH (acc ++ [(CloudSyncManager.shardIndex o, o)]) w1)
        as (Heq & found & w' & Hf & Hlen & Hmap).
      split; [exact Heq|]. exists found, w'.
      split; [exact Hf|]. split.
      * rewrite Hlen, length_app. simpl. lia.
      * rewrite Hmap, map_app, <- app_assoc. simpl. now rewrite Ho.
    + rewrite (bind_eq _ _ _ _ _ (collectShard_unreadable acc entry w E)).
      apply IH.
Qed.

Lemma collect_none_readable files : forall acc w,
  filter readableShard files = [] ->
  foldM CloudSyncManager.collectShard files acc w = (Returned acc, w).
Proof.
  induction files as [|entry files IH]; intros acc w H; [reflexivity|].
  cbn [filter] in H. destruct (readableShard entry) eqn:E; [discriminate|].
  cbn [foldM].
  rewrite (bind_eq _ _ _ _ _ (collectShard_unreadable acc entry w E)).
  now apply IH.
Qed.

(** X26. Reading the old format: on a gist that answers with success and
    holds no readable shard file, [getGist] of the sharded manager does
    exactly what [getGist] of the earliest, single-file manager does: it
    returns the document of [insight-notes.json], or throws as that one
    does when the file is missing. *)
Theorem getGist_reads_old_format :
  forall (env : Env) (w : World) (r : Response) (g : RemoteObj),
    (forall req, fetch env (netCalls w) req = Responded r) ->
    ok r = true ->
    body r = PValue g ->
    filter readableShard (orEmpty (r_files g)) = [] ->
    CloudSyncManager.getGist env w = CloudSyncManagerV0.getGist env w.
Proof.
  intros env w r g Hf Hok Hb Hnone.
  unfold CloudSyncManager.getGist, CloudSyncManagerV0.getGist,
    CloudSyncManager.getToken, CloudSyncManagerV0.getToken,
    CloudSyncManager.gistUrl, CloudSyncManagerV0.gistUrl,
    CloudSyncManager.gistAPI, CloudSyncManagerV0.gistAPI, doFetch.
  run_sync.
  destruct (JS.truthy_str (items (ls w) GITHUB_TOKEN_KEY)); [|reflexivity].
  destruct (JS.truthy_str (items (ls w) GIST_ID_KEY)); [|reflexivity].
  simpl. rewrite !Hf, Hok. simpl. rewrite Hb. simpl.
  rewrite (collect_none_readable _ _ _ Hnone). reflexivity.
Qed.

Lemma getGist_reads_old_format_witness :
  CloudSyncManager.getGist (exEnv wholeFileReply) (exWorld [workTag])
  = CloudSyncManagerV0.getGist (exEnv wholeFileReply) (exWorld [workTag]).
Proof.
  apply (getGist_reads_old_format (exEnv wholeFileReply) (exWorld [workTag])
           wholeFileReply
           (mkRemoteObj None (Some "gist1")
              (Some [("insight-notes.json", FileObj (Some (PValue remoteDoc)))])
              noDoc));
    reflexivity.
Defined.

(** ** [StorageManager]: custom tags *)

Lemma formatTag_hash (tagName : string) :
  String.prefix "#" (StorageManager.formatTag tagName) = true.
Proof.
  unfold StorageManager.formatTag.
  destruct (String.prefix "#" tagName) eqn:E; [exact E|].
  apply (prefix_app "#").
Qed.

Lemma existsb_name (x : string) (ts : list CustomTag) :
  existsb (fun t => String.eqb (name t) x) ts = true <-> In x (map name ts).
Proof.
  rewrite existsb_exists, in_map_iff. split.
  - intros (t & Ht & E). apply String.eqb_eq in E. eauto.
  - intros (t & E & Ht). exists t. split; [exact Ht|].
    now apply String.eqb_eq.
Qed.

(** X27. [addCustomTag] never throws.  It answers [false], and leaves
    the storage as it is, exactly when a tag of the formatted name is
    already stored; the names of the stored tags stay pairwise distinct
    and stay prefixed with [#]; and when the write fits, the formatted
    name is stored afterwards, in front of the tags that were there. *)
Theorem addCustomTag_keeps_names_unique :
  forall (env : Env) (nowMs tagName : string) (w : World),
    let ts := orEmpty (ls_customTags (ls w)) in
    let r := StorageManager.addCustomTag env nowMs tagName w in
    let ts' := orEmpty (ls_customTags (ls (snd r))) in
    (exists b, fst r = Returned b
               /\ (b = false <->
                   In (StorageManager.formatTag tagName) (map name ts)))
    /\ (In (StorageManager.formatTag tagName) (map name ts) ->
        ls (snd r) = ls w)
    /\ (NoDup (map name ts) -> NoDup (map name ts'))
    /\ (Forall (fun t => String.prefix "#" (name t) = true) ts ->
        Forall (fun t => String.prefix "#" (name t) = true) ts')
    /\ (quota_ok env CUSTOM_TAGS_KEY = true ->
        ~ In (StorageManager.formatTag tagName) (map name ts) ->
        ts' = mkTag nowMs (StorageManager.formatTag tagName) (now env) :: ts).
Proof.
  intros env nowMs tagName w ts r ts'. subst r ts'.
  unfold StorageManager.addCustomTag, StorageManager.addTagTo,
    getCustomTags, saveCustomTags, allocArray, bind, ret.
  cbn [fst snd ls heapNext netCalls]. rewrite allocFrom_val. fold ts.
  destruct (existsb _ ts) eqn:E; cbn [fst snd].
  - apply existsb_name in E. fold ts.
    split; [exists false; tauto|].
    split; [reflexivity|]. cbn [ls]. fold ts.
    split; [auto|]. split; [auto|]. intros _ H. contradiction.
  - assert (Hn : ~ In (StorageManager.formatTag tagName) (map name ts)).
    { intros H. apply existsb_name in H. congruence. }
    destruct (quota_ok env CUSTOM_TAGS_KEY) eqn:Hq; cbn [fst snd ls].
    + split.
      { exists true. split; [reflexivity|]. split; [discriminate|].
        intros H. contradiction. }
      split; [intros H; contradiction|].
      cbn [withLs withCustomTags ls ls_customTags orEmpty].
      rewrite map_app. cbn [allocFrom map val]. rewrite allocFrom_val.
      cbn [app]. fold ts.
      split; [|split].
      * intros Hnd. cbn [map name]. constructor; assumption.
      * intros Hall. constructor; [apply formatTag_hash | exact Hall].
      * reflexivity.
    + fold ts. split.
      { exists true. split; [reflexivity|]. split; [discriminate|].
        intros H. contradiction. }
      split; [intros H; contradiction|].
      split; [auto|]. split; [auto|]. discriminate.
Qed.

(** ** [StorageManager]: notes *)

Lemma updateFirst_ids i c tgs nowIso ns :
  map id (StorageManager.updateFirst i c tgs nowIso ns) = map id ns.
Proof.
  induction ns as [|n ns IH]; simpl; [reflexivity|].
  destruct (String.eqb (id n) i); simpl; [reflexivity | now rewrite IH].
Qed.

Lemma updateFirst_In i c tgs nowIso ns n :
  In n (StorageManager.updateFirst i c tgs nowIso ns) ->
  In n ns
  \/ exists old, In old ns /\ id old = i
                 /\ n = mkNote i c tgs (createdAt old) nowIso (timestamp old).
Proof.
  induction ns as [|m ns IH]; simpl; [tauto|].
  destruct (String.eqb (id m) i) eqn:E; simpl.
  - apply String.eqb_eq in E. intros [<-|H]; [|tauto].
    right. exists m. rewrite E. auto.
  - intros [<-|H]; [tauto|].
    destruct (IH H) as [H'|(old & Ho & Hi & Hn)]; [tauto|].
    right. exists old. auto.
Qed.

Lemma withoutId_In i ns n :
  In n (StorageManager.withoutId i ns) <-> In n ns /\ id n <> i.
Proof.
  unfold StorageManager.withoutId. rewrite filter_In, negb_true_iff.
  now rewrite String.eqb_neq.
Qed.

Lemma withoutId_fresh i ns :
  ~ In i (map id ns) -> StorageManager.withoutId i ns = ns.
Proof.
  unfold StorageManager.withoutId.
  induction ns as [|n ns IH]; simpl; [reflexivity|]. intros H.
  destruct (String.eqb_spec (id n) i) as [E|_]; [tauto|].
  simpl. rewrite IH; tauto.
Qed.

(** X28. The note edits of [StorageManager], when the write fits:
    [addNote] puts the note in front; [deleteNote] removes every note of
    the id and keeps each other note; deleting a note just added under a
    fresh id gives back the collection as it was; [updateNote] keeps the
    ids and their order, and a note it changed has the new content and
    tags, the clock reading as [updatedAt], and the [createdAt] of a note
    that had this id. *)
Theorem note_edits :
  forall (env : Env) (w : World) (note : Note),
    quota_ok env STORAGE_KEY = true ->
    let ns := orEmpty (ls_notes (ls w)) in
    let after (c : M unit) := orEmpty (ls_notes (ls (snd (c w)))) in
    after (StorageManager.addNote env note) = note :: ns
    /\ (forall i n,
           In n (after (StorageManager.deleteNote env i))
           <-> In n ns /\ id n <> i)
    /\ (~ In (id note) (map id ns) ->
        after (StorageManager.addNote env note ;;;
               StorageManager.deleteNote env (id note)) = ns)
    /\ (forall i c tgs,
           let ns' := after (StorageManager.updateNote env i c tgs) in
           map id ns' = map id ns
           /\ forall n,
               In n ns' ->
               In n ns
               \/ exists old,
                    In old ns /\ id old = i
                    /\ n = mkNote i c tgs (createdAt old) (now env)
                                  (timestamp old)).
Proof.
  intros env w note Hq ns after. subst after.
  unfold StorageManager.addNote, StorageManager.deleteNote,
    StorageManager.updateNote, getNotes, saveNotes, bind, ret.
  rewrite Hq. cbn [fst snd ls ls_notes withLs withNotes orEmpty]. fold ns.
  split; [reflexivity|]. split; [intros i n; apply withoutId_In|]. split.
  - intros Hfresh. unfold StorageManager.withoutId. cbn [filter].
    rewrite String.eqb_refl. cbn [negb].
    now apply withoutId_fresh.
  - intros i c tgs.
    destruct (existsb (fun n => String.eqb (id n) i) ns);
      cbn [fst snd ls ls_notes withLs withNotes orEmpty]; fold ns.
    + split; [apply updateFirst_ids | intros n; apply updateFirst_In].
    + split; [reflexivity | intros n H; now left].
Qed.

Lemma note_edits_witness :
  let env := exEnv webdavReply in
  let w := exWorld [workTag] in
  orEmpty (ls_notes (ls (snd (StorageManager.addNote env cloudNote w))))
  = [cloudNote; localNote].
Proof.
  intros env w.
  exact (proj1 (note_edits env w cloudNote eq_refl)).
Defined.

(** ** [StorageManager]: tag colours *)

Lemma inherited_no_hash (k : string) :
  JS.inherited k = true -> String.prefix "#" k = false.
Proof.
  unfold JS.inherited, JS.objectPrototype. cbn [existsb].
  repeat match goal with
         | |- context [String.eqb k ?x] =>
             destruct (String.eqb_spec k x) as [->|_];
             [intros _; reflexivity|]
         end.
  cbn [orb]. intros H. discriminate H.
Qed.

(** X29. The colour of a tag whose name starts with [#], as every tag
    name does: without a saved colour, [getTagColor] answers an index
    from 0 to 7 and writes nothing; after a [saveTagColor] that fits, it
    answers the saved index for that tag and what it answered before for
    every other name; and [saveTagColor], which has no [try] of its own,
    throws on a full storage and leaves it as it was. *)
Theorem tag_colour_default_and_saved :
  forall (env : Env) (w : World) (tagName : string) (codeUnits : list Z)
         (colorIndex : Z),
    String.prefix "#" tagName = true ->
    (JS.map_get tagName (orEmpty (ls_tagColors (ls w))) = None ->
     exists c,
       StorageManager.getTagColor tagName codeUnits w
       = (Returned (StorageManager.ColorIndex c), w)
       /\ (0 <= c < 8)%Z)
    /\ (quota_ok env TAG_COLORS_KEY = true ->
        let w' := snd (StorageManager.saveTagColor env tagName colorIndex w) in
        StorageManager.getTagColor tagName codeUnits w'
        = (Returned (StorageManager.ColorIndex colorIndex), w')
        /\ forall other cu,
             other <> tagName ->
             fst (StorageManager.getTagColor other cu w')
             = fst (StorageManager.getTagColor other cu w))
    /\ (quota_ok env TAG_COLORS_KEY = false ->
        exists e,
          StorageManager.saveTagColor env tagName colorIndex w
          = (Thrown e, w)).
Proof.
  intros env w tagName codeUnits colorIndex Hhash.
  assert (Hinh : JS.inherited tagName = false).
  { destruct (JS.inherited tagName) eqn:E; [|reflexivity].
    now rewrite (inherited_no_hash _ E) in Hhash. }
  assert (Hset : forall colors,
             StorageManager.assign tagName colorIndex colors
             = JS.map_set tagName colorIndex colors).
  { intros colors. unfold StorageManager.assign.
    destruct (JS.map_get tagName colors); [reflexivity|].
    destruct (String.eqb_spec tagName "__proto__") as [E|_];
      [|reflexivity].
    subst tagName. discriminate Hhash. }
  unfold StorageManager.getTagColor, StorageManager.saveTagColor,
    getTagColors, setTagColors, bind, ret.
  split; [|split].
  - intros H. rewrite H, Hinh. eexists. split; [reflexivity|].
    apply Z.mod_pos_bound. lia.
  - intros Hq. rewrite Hq, Hset.
    cbn [fst snd ls ls_tagColors withLs withTagColors orEmpty].
    rewrite map_get_set_eq. split; [reflexivity|].
    intros other cu Hne. rewrite map_get_set_neq by congruence.
    destruct (JS.map_get other _); [reflexivity|].
    now destruct (JS.inherited other).
  - intros Hq. rewrite Hq. eexists. reflexivity.
Qed.

Lemma tag_colour_default_and_saved_witness :
  let env := exEnv webdavReply in
  let w := exWorld [workTag] in
  String.prefix "#" "#idea" = true
  /\ StorageManager.getTagColor "#idea" [35; 105; 100; 101; 97]%Z
       (snd (StorageManager.saveTagColor env "#idea" 3 w))
     = (Returned (StorageManager.ColorIndex 3),
        snd (StorageManager.saveTagColor env "#idea" 3 w)).
Proof.
  intros env w. split; [reflexivity|].
  exact (proj1 (proj1 (proj2
    (tag_colour_default_and_saved env w "#idea" [35; 105; 100; 101; 97]%Z 3
       eq_refl)) eq_refl)).
Defined.

(** ** A remote object that is gone *)

(** X30. When the stored handle names a gist that no longer exists, so
    that every request on it is answered 404, an upload of either Gist
    manager drops the handle and creates a new gist: when the remote
    accepts the creation, the upload succeeds, the handle stored
    afterwards is the new one and the sync time is recorded.  The sharded
    manager makes four requests for it, the earliest one two. *)
Theorem upload_recreates_missing_gist :
  forall (env : Env) (w : World) (gone new : Response) (g : RemoteObj)
         (gid : string),
    JS.truthy_str (items (ls w) GITHUB_TOKEN_KEY) = true ->
    JS.truthy_str (items (ls w) GIST_ID_KEY) = true ->
    (forall n req, method req <> "POST" -> fetch env n req = Responded gone) ->
    (forall n req, method req = "POST" -> fetch env n req = Responded new) ->
    ok gone = false -> status gone = 404%Z ->
    ok new = true -> body new = PValue g -> r_id g = Some gid ->
    quota_ok env GIST_ID_KEY = true ->
    quota_ok env LAST_SYNC_KEY = true ->
    let recreated (calls : nat) (res : Outcome SyncResult * World) :=
      (exists x, fst res = Returned x /\ success x = true)
      /\ items (ls (snd res)) GIST_ID_KEY = Some gid
      /\ items (ls (snd res)) LAST_SYNC_KEY = Some (now env)
      /\ netCalls (snd res) = netCalls w + calls in
    recreated 4 (CloudSyncManager.syncUp env w)
    /\ recreated 2 (CloudSyncManagerV0.syncUp env w).
Proof.
  intros env w gone new g gid Ht Hg Hgone Hnew Hok H404 Hok' Hb Hid Hq1 Hq2
    recreated.
  assert (Hget : forall n u b, fetch env n (mkRequest "GET" u b) = Responded gone)
    by (intros; apply Hgone; intros E; discriminate E).
  assert (Hpatch : forall n u b,
             fetch env n (mkRequest "PATCH" u b) = Responded gone)
    by (intros; apply Hgone; intros E; discriminate E).
  assert (Hpost : forall n u b,
             fetch env n (mkRequest "POST" u b) = Responded new)
    by (intros; apply Hnew; reflexivity).
  unfold recreated. split.
  - unfold CloudSyncManager.syncUp, CloudSyncManager.getGist,
      CloudSyncManager.updateGist,
      CloudSyncManager.createGist, CloudSyncManager.shardNotesOf,
      CloudSyncManager.getToken, CloudSyncManager.updateLastSyncTime,
      CloudSyncManager.idString, errorMessage, setItem, removeItem,
      doFetch, parsed.
    run_sync. rewrite Hg. simpl. rewrite Ht, Hg. simpl.
    rewrite Hget, Hok. simpl.
    destruct (body gone) as [| |o]; simpl;
      rewrite ?Ht, ?Hg; simpl; rewrite ?Hget, ?Hok; simpl;
      rewrite ?Hpatch, ?Hok, ?H404; simpl;
      unfold dropEntry; simpl;
      rewrite ?Ht; simpl; rewrite ?Hpost, ?Hok', ?Hb; simpl;
      rewrite ?Hq1; simpl; rewrite ?Hq2; simpl;
      rewrite ?Hid; unfold setEntry; simpl; rewrite ?Hid;
      (split; [eexists; split; reflexivity|]);
      repeat split; try reflexivity; lia.
  - unfold CloudSyncManagerV0.syncUp, CloudSyncManagerV0.updateGist,
      CloudSyncManagerV0.createGist, CloudSyncManagerV0.getToken,
      CloudSyncManagerV0.updateLastSyncTime,
      CloudSyncManagerV0.idString, setItem, removeItem, doFetch, parsed.
    run_sync. rewrite Ht, Hg. simpl.
    rewrite Hpatch, Hok, H404. simpl. unfold dropEntry. simpl.
    rewrite Ht. simpl.
    rewrite Hpost, Hok', Hb. simpl. rewrite Hq1. simpl. rewrite Hq2. simpl.
    rewrite ?Hid. unfold setEntry. simpl. rewrite ?Hid.
    split; [eexists; split; reflexivity|].
    repeat split; try reflexivity; lia.
Qed.

Lemma upload_recreates_missing_gist_witness :
  let gone := mkResponse false 404 SyntaxErr in
  let g := mkRemoteObj None (Some "gist2") None noDoc in
  let new := mkResponse true 201 (PValue g) in
  let env := mkEnv "2024-03-01T00:00:00.000Z" (fun _ => true)
               (fun _ req => if String.eqb (method req) "POST"
                             then Responded new else Responded gone)
               sizeByContent (fun _ _ _ => 150%N) (fun _ => 1000%N)
               (fun s => Some s) in
  let w := exWorld [workTag] in
  items (ls w) GIST_ID_KEY = Some "gist1"
  /\ items (ls (snd (CloudSyncManager.syncUp env w))) GIST_ID_KEY
     = Some "gist2".
Proof.
  intros gone g new env w. split; [reflexivity|].
  refine (proj1 (proj2 (proj1
    (upload_recreates_missing_gist env w gone new g "gist2"
       eq_refl eq_refl _ _ eq_refl eq_refl eq_refl eq_refl eq_refl
       eq_refl eq_refl)))).
  - intros n req H. simpl.
    destruct (String.eqb_spec (method req) "POST") as [E|_];
      [contradiction | reflexivity].
  - intros n req H. simpl. rewrite H. reflexivity.
Defined.
